(** * nebulaDefense: the decision core of a decentralized federated-learning node

    A shallow embedding of

    - [nebula/core/selectors/priority_selector.py]  ([PrioritySelector]),
    - [nebula/core/aggregation/reactiveAggregator.py] ([ReactiveAggregator]),
    - [nebula/core/aggregation/dynamicAggregator.py]  ([DynamicAggregator]),
    - [nebula/core/models/nebulamodel.py]             ([NebulaModel]),
    - [nebula/core/datasets/datamodule.py]            ([DataModule]),

    and the properties the specification states about them.

    Numbers.  In the selector Python floats are modelled by exact rationals
    ([Q]); every statement about a score is therefore a statement about the
    formula the code evaluates, not about its rounding.  In the data module
    a float decides an integer, the size of the training split, so
    [val_percent] and the arithmetic on it are IEEE 754 binary64
    ([spec_float] at precision 53).  Python integers are [Z].

    Exceptions.  A Python call either returns or raises; a model function
    returns an [outcome].  Where a method mutates [self] before it raises,
    the model returns the mutated object next to the exception. *)

From Stdlib Require Import ZArith QArith Qabs Qround Lia Lqa SpecFloat.
From stdpp Require Import base option list gmap strings.

(** ** Python exceptions *)

Inductive exn : Type :=
  | KeyError (key : string)
  | ZeroDivisionError
  | ValueError (msg : string)
  | AttributeError (msg : string)
  | NotImplementedError
  | CollaboratorError (msg : string).

Inductive outcome (A : Type) : Type :=
  | Ok (a : A)
  | Raise (e : exn).
Arguments Ok {A} a.
Arguments Raise {A} e.

Definition obind {A B} (m : outcome A) (k : A → outcome B) : outcome B :=
  match m with
  | Ok a => k a
  | Raise e => Raise e
  end.

Notation "x ←! m ; k" := (obind m (λ x, k))
  (at level 20, m at level 100, k at level 200, right associativity,
   format "x  ←!  m ;  '/' k").

Definition is_Ok {A} (m : outcome A) : Prop :=
  match m with Ok _ => True | Raise _ => False end.

(** ** Rational helpers (numpy reductions over one axis) *)

Definition Qsum (l : list Q) : Q := foldr Qplus 0%Q l.

Definition Qltb (x y : Q) : bool := negb (Qle_bool y x).

Global Instance Q_inhabited : Inhabited Q := populate 0%Q.

(** * The priority selector *)

Module PrioritySelector.

Definition NeighborId : Type := string.

(** [self.features[neighbor]]: the telemetry of one neighbor. *)
Record FeatureSnapshot : Type := mkFeatures {
  loss : Q;
  cpu_percent : Q;
  data_size : Q;
  bytes_received : Q;
  bytes_sent : Q;
  latency : Q;
  availability : Q
}.

(** The fields of the [Selector] base class that [node_selection] reads
    and writes. *)
Record Selector : Type := mkSelector {
  neighbors_list : list NeighborId;
  features : gmap NeighborId FeatureSnapshot;
  ages : gmap NeighborId Z;
  selected_nodes : list NeighborId
}.

Definition MIN_AMOUNT_OF_SELECTED_NEIGHBORS : Z := 1.
Definition MAX_PERCENT_SELECTABLE_NEIGHBORS : Q := 8 # 10.
Definition FEATURE_WEIGHTS : list Q :=
  [1; 1; 1; 1 # 2; 1 # 2; 10; 3]%Q.

(** [max(MIN, math.floor(len(neighbors) * MAX))] *)
Definition num_selected (neighbors : list NeighborId) : Z :=
  Z.max MIN_AMOUNT_OF_SELECTED_NEIGHBORS
        (Qfloor (inject_Z (Z.of_nat (length neighbors))
                 * MAX_PERCENT_SELECTABLE_NEIGHBORS)).

(** Python's [x / y] on floats. *)
Definition py_div (x y : Q) : outcome Q :=
  if Qeq_bool y 0 then Raise ZeroDivisionError else Ok (x / y)%Q.

Definition py_getitem {V} (d : gmap NeighborId V) (k : NeighborId) : outcome V :=
  match d !! k with
  | Some v => Ok v
  | None => Raise (KeyError k)
  end.

(** The body of the first loop up to the logging call: the seven raw
    features of [neighbor], with an unavailable loss replaced by 100. *)
Definition feature_list (features : gmap NeighborId FeatureSnapshot)
    (ages : gmap NeighborId Z) (neighbor : NeighborId) : outcome (list Q) :=
  f ←! py_getitem features neighbor;
  inv_cpu ←! py_div 1 (cpu_percent f + (1 # 1000000));
  inv_latency ←! py_div 1 (latency f + (1 # 1000000));
  age ←! py_getitem ages neighbor;
  let feature_list :=
    [loss f; inv_cpu; data_size f; bytes_received f; bytes_sent f;
     inv_latency; inject_Z age] in
  Ok (if Qeq_bool (loss f) (-1) then <[0%nat := 100%Q]> feature_list
      else feature_list).

(** [np.append(feature_array, feature, axis = 1)] for a column [feature]. *)
Definition append_column (feature_array : list (list Q)) (feature : list Q)
    : list (list Q) :=
  zip_with (λ row x, row ++ [x]) feature_array feature.

(** [if neighbor not in self.ages.keys(): self.ages[neighbor] = 1] *)
Definition first_sighting (ages : gmap NeighborId Z) (neighbor : NeighborId)
    : gmap NeighborId Z :=
  match ages !! neighbor with
  | None => <[neighbor := 1%Z]> ages
  | Some _ => ages
  end.

(** The first loop.  It writes [self.ages] as it goes, so the ages written
    before an exception stay written. *)
Fixpoint feature_loop (features : gmap NeighborId FeatureSnapshot)
    (neighbors : list NeighborId) (ages : gmap NeighborId Z)
    (availability : list Q) (feature_array : list (list Q))
    : gmap NeighborId Z * outcome (list Q * list (list Q)) :=
  match neighbors with
  | [] => (ages, Ok (availability, feature_array))
  | neighbor :: rest =>
      let ages := first_sighting ages neighbor in
      match feature_list features ages neighbor with
      | Raise e => (ages, Raise e)
      | Ok fl =>
          match py_getitem features neighbor with
          | Raise e => (ages, Raise e)
          | Ok f =>
              feature_loop features rest ages
                (availability ++ [PrioritySelector.availability f])
                (append_column feature_array fl)
          end
      end
  end.

(** [sklearn.preprocessing.normalize(X, axis = 1, norm = 'l1')]: every row
    is divided by the sum of the absolute values of its entries, and a row
    whose sum is zero is divided by 1, that is, left as it is. *)
Definition l1_norm (row : list Q) : Q := Qsum (Qabs <$> row).

Definition handle_zeros_in_scale (scale : Q) : Q :=
  if Qeq_bool scale 0 then 1%Q else scale.

Definition normalize_row (row : list Q) : list Q :=
  let norm := handle_zeros_in_scale (l1_norm row) in
  (λ x, x / norm)%Q <$> row.

Definition normalize_l1 (X : list (list Q)) : list (list Q) :=
  normalize_row <$> X.

(** [np.multiply(X, weight)] for a column [weight]: row [i] times
    [weight[i]]. *)
Definition multiply_rows (X : list (list Q)) (weight : list Q) : list (list Q) :=
  zip_with (λ row w, (λ x, x * w)%Q <$> row) X weight.

(** [np.sum(X, axis = 0)] for [n] columns. *)
Definition sum_axis0 (n : nat) (X : list (list Q)) : list Q :=
  foldr (zip_with Qplus) (replicate n 0%Q) X.

(** The numeric part of [node_selection], between the two loops. *)
Record Scores : Type := mkScores {
  scores : list Q;
  final_scores : list Q;
  p : list Q
}.

Definition compute_scores (n : nat) (availability : list Q)
    (feature_array : list (list Q)) : Scores :=
  let feature_array_normed := normalize_l1 feature_array in
  let feature_array_weighted := multiply_rows feature_array_normed FEATURE_WEIGHTS in
  let scores := sum_axis0 n feature_array_weighted in
  let final_scores := zip_with Qmult scores availability in
  let p := normalize_l1 [final_scores] in
  mkScores scores final_scores (p !!! 0%nat).

(** [np.random.choice(a, size, replace, p = p)].

    The generator is outside the program: [draw] is the sequence of
    positions it samples, in the order it samples them.  With
    [replace = True] numpy returns the first [size] samples.  With
    [replace = False] it keeps a position the first time it comes up and
    goes on sampling until it has [size] of them.  The argument checks are
    numpy's, in numpy's order; they do not depend on [draw].  A [draw] that
    ends before [size] positions are found stands for a generator that was
    not asked often enough; the model stops there with an error of the
    collaborator, which numpy itself never raises. *)
Definition atol : Q := 1 # 67108864.

Definition count_nonzero (p : list Q) : nat :=
  length (filter (λ x, Qltb 0 x = true) p).

(** The first [size] positions of [draw] that are not in [found] and
    differ from each other, in the order in which they come up. *)
Fixpoint first_distinct (found : list nat) (size : nat) (draw : list nat)
    {struct draw} : list nat :=
  match size, draw with
  | O, _ => []
  | S _, [] => []
  | S k, i :: rest =>
      if bool_decide (i ∈ found) then first_distinct found size rest
      else i :: first_distinct (i :: found) k rest
  end.

(** [a[idx]] for the positions found, once there are [size] of them. *)
Definition take_positions (a : list NeighborId) (size : nat) (idx : list nat)
    : outcome (list NeighborId) :=
  if bool_decide (length idx < size)%nat then
    Raise (CollaboratorError "numpy.random: the generator was stopped"%string)
  else Ok ((λ i, a !!! i) <$> idx).

Definition random_choice (a : list NeighborId) (size : nat) (replace : bool)
    (p : list Q) (draw : list nat) : outcome (list NeighborId) :=
  if bool_decide (length a = 0%nat) then
    Raise (ValueError "'a' cannot be empty unless no samples are taken"%string)
  else if bool_decide (length p ≠ length a) then
    Raise (ValueError "'a' and 'p' must have same size"%string)
  else if existsb (λ x, Qltb x 0) p then
    Raise (ValueError "probabilities are not non-negative"%string)
  else if Qltb atol (Qabs (Qsum p - 1)) then
    Raise (ValueError "probabilities do not sum to 1"%string)
  else if replace then take_positions a size (take size draw)
  else if bool_decide (length a < size)%nat then
    Raise (ValueError "Cannot take a larger sample than population when 'replace=False'"%string)
  else if bool_decide (count_nonzero p < size)%nat then
    Raise (ValueError "Fewer non-zero entries in p than size"%string)
  else take_positions a size (first_distinct [] size draw).

(** What numpy promises about the positions the generator samples: each
    has a non-zero probability.  How many of them are returned, and that
    they differ, is [random_choice]'s doing. *)
Definition is_sample (p : list Q) (draw : list nat) : Prop :=
  Forall (λ i, match p !! i with Some x => (0 < x)%Q | None => False end) draw.

(** The second loop: [self.ages[neighbor] = self.ages[neighbor] + 2] for
    every neighbor that was not picked. *)
Fixpoint update_ages (neighbors selected : list NeighborId)
    (ages : gmap NeighborId Z) : gmap NeighborId Z * outcome unit :=
  match neighbors with
  | [] => (ages, Ok ())
  | neighbor :: rest =>
      if bool_decide (neighbor ∉ selected) then
        match py_getitem ages neighbor with
        | Raise e => (ages, Raise e)
        | Ok age => update_ages rest selected (<[neighbor := (age + 2)%Z]> ages)
        end
      else update_ages rest selected ages
  end.

Definition set_ages (self : Selector) (a : gmap NeighborId Z) : Selector :=
  mkSelector (neighbors_list self) (features self) a (selected_nodes self).

Definition set_selected_nodes (self : Selector) (s : list NeighborId) : Selector :=
  mkSelector (neighbors_list self) (features self) (ages self) s.

(** [PrioritySelector.node_selection(self, node)], with [addr] for
    [node.addr].  The logging calls do not touch [self] and are left out. *)
Definition node_selection (draw : list nat) (self : Selector)
    (addr : NeighborId) : Selector * outcome (list NeighborId) :=
  let neighbors := neighbors_list self in
  if bool_decide (length neighbors = 0%nat) then
    (set_selected_nodes self [addr], Ok [addr])
  else
    let num_selected := num_selected neighbors in
    match feature_loop (features self) neighbors (ages self) [] (replicate 7 []) with
    | (ages1, Raise e) => (set_ages self ages1, Raise e)
    | (ages1, Ok (availability, feature_array)) =>
        let sc := compute_scores (length neighbors) availability feature_array in
        match random_choice neighbors (Z.to_nat num_selected) false (p sc) draw with
        | Raise e => (set_ages self ages1, Raise e)
        | Ok selected_nodes =>
            match update_ages neighbors selected_nodes ages1 with
            | (ages2, Raise e) => (set_ages self ages2, Raise e)
            | (ages2, Ok _) =>
                (set_selected_nodes (set_ages self ages2) (selected_nodes ++ [addr]),
                 Ok (selected_nodes ++ [addr]))
            end
        end
    end.

(** The scores [node_selection] computes from [self], when its first loop
    completes. *)
Definition scores_of (self : Selector) : option Scores :=
  match feature_loop (features self) (neighbors_list self) (ages self) []
          (replicate 7 []) with
  | (_, Ok (availability, feature_array)) =>
      Some (compute_scores (length (neighbors_list self)) availability feature_array)
  | (_, Raise _) => None
  end.

(** [draw] is something the generator can hand to this call. *)
Definition valid_draw (self : Selector) (draw : list nat) : Prop :=
  ∀ sc, scores_of self = Some sc → is_sample (p sc) draw.

(** The positions [node_selection] gets from numpy out of [draw]. *)
Definition positions (self : Selector) (draw : list nat) : list nat :=
  first_distinct [] (Z.to_nat (num_selected (neighbors_list self))) draw.

(** ** The score as the specification words it *)

(** The age of a neighbor: 1 when it is seen for the first time. *)
Definition age_of (ages : gmap NeighborId Z) (nb : NeighborId) : Z :=
  default 1%Z (ages !! nb).

(** [loss, 1/(cpu_percent+ε), data_size, bytes_received, bytes_sent,
    1/(latency+ε), age], with ε = 1e-6 and a loss of -1 read as 100. *)
Definition spec_feature_vector (f : FeatureSnapshot) (age : Z) : list Q :=
  [ (if Qeq_bool (loss f) (-1) then 100 else loss f);
    1 / (cpu_percent f + (1 # 1000000));
    data_size f;
    bytes_received f;
    bytes_sent f;
    1 / (latency f + (1 # 1000000));
    inject_Z age ]%Q.

Definition spec_feature (features : gmap NeighborId FeatureSnapshot)
    (ages : gmap NeighborId Z) (k : nat) (nb : NeighborId) : Q :=
  match features !! nb with
  | Some f => spec_feature_vector f (age_of ages nb) !!! k
  | None => 0%Q
  end.

(** Feature [k] of [nb], L1-normalized over the row of feature [k]. *)
Definition spec_normalized (features : gmap NeighborId FeatureSnapshot)
    (ages : gmap NeighborId Z) (neighbors : list NeighborId)
    (k : nat) (nb : NeighborId) : Q :=
  (spec_feature features ages k nb
   / Qsum ((λ m, Qabs (spec_feature features ages k m)) <$> neighbors))%Q.

Definition spec_availability (features : gmap NeighborId FeatureSnapshot)
    (nb : NeighborId) : Q :=
  match features !! nb with
  | Some f => availability f
  | None => 0%Q
  end.

(** The sum over the seven features of weight times normalized value. *)
Definition spec_weighted_sum (features : gmap NeighborId FeatureSnapshot)
    (ages : gmap NeighborId Z) (neighbors : list NeighborId)
    (nb : NeighborId) : Q :=
  Qsum ((λ k, (FEATURE_WEIGHTS !!! k)
              * spec_normalized features ages neighbors k nb)%Q <$> seq 0 7).

(** The final score: that sum times the availability. *)
Definition spec_score (features : gmap NeighborId FeatureSnapshot)
    (ages : gmap NeighborId Z) (neighbors : list NeighborId)
    (nb : NeighborId) : Q :=
  (spec_weighted_sum features ages neighbors nb
   * spec_availability features nb)%Q.

(** ** Telemetry the first loop can read, and telemetry in range *)

Definition readable (features : gmap NeighborId FeatureSnapshot)
    (nb : NeighborId) : Prop :=
  ∃ f, features !! nb = Some f
       ∧ ¬ (cpu_percent f + (1 # 1000000) == 0)%Q
       ∧ ¬ (latency f + (1 # 1000000) == 0)%Q.

(** The ranges of the data model: a loss that is -1 or not negative, and
    no negative load, volume, latency or availability. *)
Definition in_range (f : FeatureSnapshot) : Prop :=
  ((loss f == -1)%Q ∨ (0 <= loss f)%Q)
  ∧ (0 <= cpu_percent f)%Q ∧ (0 <= data_size f)%Q
  ∧ (0 <= bytes_received f)%Q ∧ (0 <= bytes_sent f)%Q
  ∧ (0 <= latency f)%Q ∧ (0 <= availability f)%Q.

Definition measured (features : gmap NeighborId FeatureSnapshot)
    (nb : NeighborId) : Prop :=
  ∃ f, features !! nb = Some f ∧ in_range f.

Definition available (features : gmap NeighborId FeatureSnapshot)
    (nb : NeighborId) : Prop :=
  Qltb 0 (spec_availability features nb) = true.

Global Instance available_dec features nb : Decision (available features nb).
Proof. unfold available. apply _. Defined.

(** ** Rounds *)

(** Between two calls the transport layer may replace the neighbor list
    and the telemetry layer the features; the ages are the selector's. *)
Record Round : Type := mkRound {
  round_neighbors : list NeighborId;
  round_features : gmap NeighborId FeatureSnapshot;
  round_addr : NeighborId;
  round_draw : list nat
}.

Definition fresh : Selector := mkSelector [] ∅ ∅ [].

Definition refresh (self : Selector) (r : Round) : Selector :=
  mkSelector (round_neighbors r) (round_features r) (ages self)
    (selected_nodes self).

Definition play (self : Selector) (r : Round)
    : Selector * outcome (list NeighborId) :=
  node_selection (round_draw r) (refresh self r) (round_addr r).

Definition play_all (self : Selector) (rounds : list Round) : Selector :=
  foldl (λ s r, fst (play s r)) self rounds.

(** The ages of the neighbors of a list, added up. *)
Definition total_age (ages : gmap NeighborId Z) (l : list NeighborId) : Z :=
  foldr Z.add 0%Z (age_of ages <$> l).

(** The exception the first loop raises at a neighbor it cannot read:
    [self.features[neighbor]] fails first, the divisions after it. *)
Definition unreadable_exn (features : gmap NeighborId FeatureSnapshot)
    (nb : NeighborId) : exn :=
  match features !! nb with
  | None => KeyError nb
  | Some _ => ZeroDivisionError
  end.

End PrioritySelector.

(** * The aggregation dispatchers *)

Module Aggregation.

Definition NeighborId : Type := string.

(** The aggregator classes the two dispatchers import. *)
Inductive AggregatorCls : Type :=
  | FedAvg
  | Krum
  | Median
  | TrimmedMean
  | Bulyan
  | BlockchainReputation
  | DynamicAggregator.

Global Instance AggregatorCls_eq_dec : EqDecision AggregatorCls.
Proof. solve_decision. Defined.

Global Instance AggregatorCls_inhabited : Inhabited AggregatorCls :=
  populate FedAvg.

(** The value whose [str] a log record carries. *)
Inductive text : Type :=
  | TextNone
  | TextNodes (nodes : list NeighborId)
  | TextClsName (cls : AggregatorCls).

(** The collaborators of the dispatchers.  [ModelUpdate] is one model
    update; the dispatchers never look inside.  The strategy classes that
    actually combine updates ([fedavg.py], [krum.py], ...) and the base
    class [Aggregator] are not part of the dispatchers:
    [strategy_run cls models] is what [cls(config).run_aggregation(models)]
    returns, and [base_run_aggregation] is [Aggregator.run_aggregation]. *)
Class Collaborators : Type := mkCollaborators {
  ModelUpdate : Type;
  strategy_run : AggregatorCls → list (NeighborId * ModelUpdate) → outcome ModelUpdate;
  base_run_aggregation : list (NeighborId * ModelUpdate) → outcome unit
}.

Section Dispatch.

Context {collaborators : Collaborators}.

Definition Models : Type := list (NeighborId * ModelUpdate).

(** What a run leaves behind, in order: log lines, records sent to
    [engine.nebulalogger], and the calls that leave the two dispatchers. *)
Inductive event : Type :=
  | LogInfo (msg : string)
  | LogError (msg : string)
  | LogText (tag : string) (txt : text) (step : Z)
  | BaseRunAggregation (models : Models)
  | ReputationCalculation (models : Models)
  | Executed (cls : AggregatorCls) (models : Models).

Definition M (A : Type) : Type := list event * outcome A.

Definition ret {A} (a : A) : M A := ([], Ok a).

Definition bind {A B} (m : M A) (k : A → M B) : M B :=
  match m with
  | (tr, Ok a) => let '(tr', r) := k a in (tr ++ tr', r)
  | (tr, Raise e) => (tr, Raise e)
  end.

Definition emit (e : event) : M unit := ([e], Ok ()).

Definition call {A} (e : event) (r : outcome A) : M A := ([e], r).

Notation "'let*' x := m 'in' k" := (bind m (λ x, k))
  (at level 10, x name, m at level 100, k at level 200).
Notation "'do*' m 'in' k" := (bind m (λ _, k))
  (at level 10, m at level 100, k at level 200).

(** [self.engine]: the round counter and the reputation collaborator. *)
Record Engine : Type := mkEngine {
  round : Z;
  reputation_calculation : Models → outcome (list NeighborId * Q)
}.

(** [self.config.participant["aggregator_args"]]. *)
Record Config : Type := mkConfig {
  reactive_aggregator_default : string
}.

(** An aggregator object: [Aggregator.__init__(config, **kwargs)] keeps
    the configuration, and the engine when one is passed. *)
Record Aggregator : Type := mkAggregator {
  config : Config;
  engine : option Engine
}.

Definition get_engine (self : Aggregator) : M Engine :=
  match engine self with
  | Some e => ret e
  | None => ([], Raise (AttributeError "engine"%string))
  end.

(** ** [DynamicAggregator] *)

Definition available_aggregators : list AggregatorCls :=
  [FedAvg; Krum; Median; TrimmedMean; Bulyan].

(** [random.choice(seq)] is [seq[i]] for the position [i < len(seq)] the
    generator of the [random] module hands out. *)
Definition random_choice (rnd : fin (length available_aggregators)) : AggregatorCls :=
  available_aggregators !!! fin_to_nat rnd.

Definition DynamicAggregator_run_aggregation
    (rnd : fin (length available_aggregators)) (self : Aggregator)
    (models : Models) (reactive_aggregator : bool) : M ModelUpdate :=
  do* emit (LogInfo "[DynamicAggregator] Initializing Aggregation") in
  do* call (BaseRunAggregation models) (base_run_aggregation models) in
  let chosen_aggregator_cls := random_choice rnd in
  do* emit (LogInfo "[DynamicAggregator] Chosen Aggregator") in
  let* eng := get_engine self in
  do* (if reactive_aggregator then
     emit (LogText "[ReactiveAggregator] Using DynamicAggregator: Chosen Aggregator"
             (TextClsName chosen_aggregator_cls) (round eng))
   else
     emit (LogText "[DynamicAggregator] Chosen Aggregator"
             (TextClsName chosen_aggregator_cls) (round eng))) in
  call (Executed chosen_aggregator_cls models)
       (strategy_run chosen_aggregator_cls models).

(** ** [ReactiveAggregator] *)

Definition ALGORITHM_MAP : gmap string AggregatorCls :=
  list_to_map
    [("FedAvg"%string, FedAvg);
     ("Krum"%string, Krum);
     ("Median"%string, Median);
     ("TrimmedMean"%string, TrimmedMean);
     ("Bulyan"%string, Bulyan);
     ("BlockchainReputation"%string, BlockchainReputation);
     ("DynamicAggregator"%string, DynamicAggregator)].

(** [cls(config=self.config).run_aggregation(models)]: the object is built
    without an engine. *)
Definition instance_run_aggregation
    (rnd : fin (length available_aggregators)) (cls : AggregatorCls)
    (cfg : Config) (models : Models) : M ModelUpdate :=
  match cls with
  | DynamicAggregator =>
      DynamicAggregator_run_aggregation rnd (mkAggregator cfg None) models false
  | _ => call (Executed cls models) (strategy_run cls models)
  end.

Definition ReactiveAggregator_run_aggregation
    (rnd : fin (length available_aggregators)) (self : Aggregator)
    (models : Models) : M ModelUpdate :=
  do* emit (LogInfo "[ReactiveAggregator] Initializing Aggregation") in
  do* call (BaseRunAggregation models) (base_run_aggregation models) in
  let* eng := get_engine self in
  let* res := call (ReputationCalculation models) (reputation_calculation eng models) in
  let '(malicious_nodes, reputation_score) := res in
  if bool_decide (0 < length malicious_nodes)%nat then
    do* emit (LogInfo "[ReactiveAggregator] Detected Malicious Nodes") in
    do* emit (LogText "[ReactiveAggregator] Malicious nodes"
            (TextNodes malicious_nodes) (round eng)) in
    do* emit (LogInfo "[ReactiveAggregator] Malicious Node - Using Dynamic Aggregator") in
    let dynamic_aggregator := mkAggregator (config self) (Some eng) in
    DynamicAggregator_run_aggregation rnd dynamic_aggregator models true
  else
    do* emit (LogInfo "[ReactiveAggregator] No Malicious Nodes Detected") in
    do* emit (LogText "[ReactiveAggregator] Malicious nodes" TextNone (round eng)) in
    let default_aggregator := reactive_aggregator_default (config self) in
    do* emit (LogInfo "[ReactiveAggregator] Normal Node - Using Aggregator") in
    let* default_aggregator :=
      (if bool_decide (ALGORITHM_MAP !! default_aggregator = None) then
         do* emit (LogError "[ReactiveAggregator] Invalid default aggregator, falling back to FedAvg") in
         ret "FedAvg"%string
       else ret default_aggregator) in
    match ALGORITHM_MAP !! default_aggregator with
    | None => ([], Raise (KeyError default_aggregator))
    | Some default_aggregator_cls =>
        instance_run_aggregation rnd default_aggregator_cls (config self) models
    end.

(** The strategies that ran, with the update set each was given. *)
Definition executions (tr : list event) : list (AggregatorCls * Models) :=
  omap (λ e, match e with Executed c m => Some (c, m) | _ => None end) tr.

Definition errors_logged (tr : list event) : list string :=
  omap (λ e, match e with LogError s => Some s | _ => None end) tr.

End Dispatch.

End Aggregation.

(** * The model base class *)

Module NebulaModel.

(** Tensors, metric collections and confusion matrices belong to torch
    and torchmetrics; the class only passes them around.  [forward] and
    [criterion] are what a concrete model supplies.  [cm_compute] is
    [cm.compute().cpu()], [plot_heatmap] the seaborn and matplotlib calls
    that draw the matrix for [num_classes] classes, and [log_figure] is
    [self.logger.log_figure], [None] when the model has no logger with
    that method (a model that no trainer is attached to has logger
    [None]). *)
Class Torch : Type := mkTorch {
  Input : Type;
  Label : Type;
  Pred : Type;
  Metrics : Type;
  ConfusionMatrix : Type;
  forward : Input → outcome Pred;
  criterion : Pred → Label → outcome Q;
  default_metrics : Z → Metrics;
  metrics_clone : Metrics → string → Metrics;
  metrics_update : Metrics → Pred → Label → Metrics;
  metrics_reset : Metrics → Metrics;
  new_confusion_matrix : Z → ConfusionMatrix;
  cm_update : ConfusionMatrix → Pred → Label → ConfusionMatrix;
  cm_reset : ConfusionMatrix → ConfusionMatrix;
  Matrix : Type;
  Figure : Type;
  cm_compute : ConfusionMatrix → outcome Matrix;
  plot_heatmap : Matrix → Z → outcome Figure;
  log_figure : option (Figure → Z → string → outcome unit)
}.

Section Model.

Context {torch : Torch}.

(** The attributes [__init__] sets.  [cm] and [cm_global] are [None] when
    the attribute was never assigned. *)
Record NebulaModel : Type := mkModel {
  input_channels : Z;
  num_classes : Z;
  learning_rate : Q;
  loss : Q;
  train_metrics : Metrics;
  val_metrics : Metrics;
  test_metrics : Metrics;
  test_metrics_global : Metrics;
  cm : option ConfusionMatrix;
  cm_global : option ConfusionMatrix;
  global_number : gmap string Z
}.

Definition set_loss (self : NebulaModel) (l : Q) : NebulaModel :=
  mkModel (input_channels self) (num_classes self) (learning_rate self) l
    (train_metrics self) (val_metrics self) (test_metrics self)
    (test_metrics_global self) (cm self) (cm_global self) (global_number self).

Definition set_metrics (self : NebulaModel) (tr va te tg : Metrics)
    (c cg : option ConfusionMatrix) : NebulaModel :=
  mkModel (input_channels self) (num_classes self) (learning_rate self)
    (loss self) tr va te tg c cg (global_number self).

Definition set_global_number (self : NebulaModel) (g : gmap string Z) : NebulaModel :=
  mkModel (input_channels self) (num_classes self) (learning_rate self)
    (loss self) (train_metrics self) (val_metrics self) (test_metrics self)
    (test_metrics_global self) (cm self) (cm_global self) g.

(** [NebulaModel.__init__]; [seed] only reaches torch's generators. *)
Definition init (input_channels num_classes : Z) (learning_rate : Q)
    (metrics : option Metrics) (confusion_matrix : option ConfusionMatrix)
    : NebulaModel :=
  let metrics :=
    match metrics with
    | None => default_metrics num_classes
    | Some m => m
    end in
  let new_cm :=
    match confusion_matrix with
    | None => Some (new_confusion_matrix num_classes)
    | Some _ => None
    end in
  mkModel input_channels num_classes learning_rate (-1)%Q
    (metrics_clone metrics "Train/")
    (metrics_clone metrics "Validation/")
    (metrics_clone metrics "Test (Local)/")
    (metrics_clone metrics "Test (Global)/")
    new_cm new_cm
    (list_to_map [("Train"%string, 0%Z); ("Validation"%string, 0%Z);
                  ("Test (Local)"%string, 0%Z); ("Test (Global)"%string, 0%Z)]).

Definition get_cm (c : option ConfusionMatrix) (name : string)
    : outcome ConfusionMatrix :=
  match c with
  | Some c => Ok c
  | None => Raise (AttributeError name)
  end.

(** [process_metrics(phase, y_pred, y, loss)] *)
Definition process_metrics (self : NebulaModel) (phase : string)
    (y_pred : Pred) (y : Label) : NebulaModel * outcome unit :=
  if String.eqb phase "Train" then
    (set_metrics self (metrics_update (train_metrics self) y_pred y)
       (val_metrics self) (test_metrics self) (test_metrics_global self)
       (cm self) (cm_global self), Ok ())
  else if String.eqb phase "Validation" then
    (set_metrics self (train_metrics self)
       (metrics_update (val_metrics self) y_pred y)
       (test_metrics self) (test_metrics_global self)
       (cm self) (cm_global self), Ok ())
  else if String.eqb phase "Test (Local)" then
    let self1 :=
      set_metrics self (train_metrics self) (val_metrics self)
        (metrics_update (test_metrics self) y_pred y)
        (test_metrics_global self) (cm self) (cm_global self) in
    match get_cm (cm self) "cm" with
    | Raise e => (self1, Raise e)
    | Ok c =>
        (set_metrics self1 (train_metrics self1) (val_metrics self1)
           (test_metrics self1) (test_metrics_global self1)
           (Some (cm_update c y_pred y)) (cm_global self1), Ok ())
    end
  else if String.eqb phase "Test (Global)" then
    let self1 :=
      set_metrics self (train_metrics self) (val_metrics self)
        (test_metrics self)
        (metrics_update (test_metrics_global self) y_pred y)
        (cm self) (cm_global self) in
    match get_cm (cm_global self) "cm_global" with
    | Raise e => (self1, Raise e)
    | Ok c =>
        (set_metrics self1 (train_metrics self1) (val_metrics self1)
           (test_metrics self1) (test_metrics_global self1)
           (cm self1) (Some (cm_update c y_pred y)), Ok ())
    end
  else (self, Raise NotImplementedError).

Definition phase_number (self : NebulaModel) (phase : string) : outcome Z :=
  match global_number self !! phase with
  | Some n => Ok n
  | None => Raise (KeyError phase)
  end.

(** [log_metrics_end(phase)] computes and prints; it leaves [self] alone. *)
Definition log_metrics_end (self : NebulaModel) (phase : string) : outcome unit :=
  if String.eqb phase "Train" || String.eqb phase "Validation"
     || String.eqb phase "Test (Local)" || String.eqb phase "Test (Global)"
  then _ ←! phase_number self phase; Ok ()
  else Raise NotImplementedError.

(** The middle of [generate_confusion_matrix]: the matrix is computed,
    printed when [print_cm] is set, which leaves no trace here, and when
    [plot_cm] is set drawn and handed to the logger under the counter of
    the phase.  [self.logger.log_figure] is looked up before its arguments
    are evaluated. *)
Definition show_confusion_matrix (self : NebulaModel) (phase : string)
    (c : ConfusionMatrix) (print_cm plot_cm : bool) : outcome unit :=
  m ←! cm_compute c;
  if plot_cm then
    fig ←! plot_heatmap m (num_classes self);
    match log_figure with
    | None => Raise (AttributeError "log_figure")
    | Some log =>
        step ←! phase_number self phase;
        log fig step (String.append phase "/CM")
    end
  else Ok ().

(** [generate_confusion_matrix(phase, print_cm, plot_cm)]; the matrix of
    the phase is reset at the end, when nothing before has raised. *)
Definition generate_confusion_matrix (self : NebulaModel) (phase : string)
    (print_cm plot_cm : bool) : NebulaModel * outcome unit :=
  if String.eqb phase "Test (Local)" then
    match get_cm (cm self) "cm" with
    | Raise e => (self, Raise e)
    | Ok c =>
        match show_confusion_matrix self phase c print_cm plot_cm with
        | Raise e => (self, Raise e)
        | Ok _ =>
            (set_metrics self (train_metrics self) (val_metrics self)
               (test_metrics self) (test_metrics_global self)
               (Some (cm_reset c)) (cm_global self), Ok ())
        end
    end
  else if String.eqb phase "Test (Global)" then
    match get_cm (cm_global self) "cm_global" with
    | Raise e => (self, Raise e)
    | Ok c =>
        match show_confusion_matrix self phase c print_cm plot_cm with
        | Raise e => (self, Raise e)
        | Ok _ =>
            (set_metrics self (train_metrics self) (val_metrics self)
               (test_metrics self) (test_metrics_global self)
               (cm self) (Some (cm_reset c)), Ok ())
        end
    end
  else (self, Raise NotImplementedError).

(** [step(batch, batch_idx, phase)] *)
Definition step (self : NebulaModel) (batch : Input * Label) (phase : string)
    : NebulaModel * outcome Q :=
  let '(x, y) := batch in
  match forward x with
  | Raise e => (self, Raise e)
  | Ok y_pred =>
      match criterion y_pred y with
      | Raise e => (self, Raise e)
      | Ok loss =>
          match process_metrics self phase y_pred y with
          | (self1, Raise e) => (self1, Raise e)
          | (self1, Ok _) => (self1, Ok loss)
          end
      end
  end.

(** [training_step(batch, batch_idx)]: the one method that assigns
    [self.loss]. *)
Definition training_step (self : NebulaModel) (batch : Input * Label)
    : NebulaModel * outcome Q :=
  match step self batch "Train" with
  | (self1, Raise e) => (self1, Raise e)
  | (self1, Ok loss) => (set_loss self1 loss, Ok loss)
  end.

Definition validation_step (self : NebulaModel) (batch : Input * Label)
    : NebulaModel * outcome Q :=
  step self batch "Validation".

Definition test_step (self : NebulaModel) (batch : Input * Label)
    (dataloader_idx : option Z) : NebulaModel * outcome Q :=
  if bool_decide (dataloader_idx = Some 0%Z) then step self batch "Test (Local)"
  else step self batch "Test (Global)".

(** [self.global_number[phase] += 1] *)
Definition bump (self : NebulaModel) (phase : string) : NebulaModel * outcome unit :=
  match phase_number self phase with
  | Raise e => (self, Raise e)
  | Ok n => (set_global_number self (<[phase := (n + 1)%Z]> (global_number self)), Ok ())
  end.

Definition then_ (r : NebulaModel * outcome unit)
    (k : NebulaModel → NebulaModel * outcome unit) : NebulaModel * outcome unit :=
  match r with
  | (self1, Raise e) => (self1, Raise e)
  | (self1, Ok _) => k self1
  end.

Definition reset_train (self : NebulaModel) : NebulaModel :=
  set_metrics self (metrics_reset (train_metrics self)) (val_metrics self)
    (test_metrics self) (test_metrics_global self) (cm self) (cm_global self).

Definition reset_val (self : NebulaModel) : NebulaModel :=
  set_metrics self (train_metrics self) (metrics_reset (val_metrics self))
    (test_metrics self) (test_metrics_global self) (cm self) (cm_global self).

Definition reset_test (self : NebulaModel) : NebulaModel :=
  set_metrics self (train_metrics self) (val_metrics self)
    (metrics_reset (test_metrics self))
    (metrics_reset (test_metrics_global self)) (cm self) (cm_global self).

(** The hooks.  [standalone] tells [NebulaModelStandalone], which moves the
    round counters of training and validation to the epoch hooks. *)
Definition on_train_end (standalone : bool) (self : NebulaModel)
    : NebulaModel * outcome unit :=
  if standalone then (self, Ok ()) else bump self "Train".

Definition on_train_epoch_end (standalone : bool) (self : NebulaModel)
    : NebulaModel * outcome unit :=
  then_ (self, log_metrics_end self "Train") (λ self,
  let self := reset_train self in
  if standalone then bump self "Train" else (self, Ok ())).

Definition on_validation_end (standalone : bool) (self : NebulaModel)
    : NebulaModel * outcome unit :=
  if standalone then (self, Ok ()) else bump self "Validation".

Definition on_validation_epoch_end (standalone : bool) (self : NebulaModel)
    : NebulaModel * outcome unit :=
  then_ (self, log_metrics_end self "Validation") (λ self,
  if standalone then
    then_ (bump self "Validation") (λ self, (reset_val self, Ok ()))
  else (reset_val self, Ok ())).

Definition on_test_end (self : NebulaModel) : NebulaModel * outcome unit :=
  then_ (bump self "Test (Local)") (λ self, bump self "Test (Global)").

Definition on_test_epoch_end (self : NebulaModel) : NebulaModel * outcome unit :=
  then_ (self, log_metrics_end self "Test (Local)") (λ self,
  then_ (self, log_metrics_end self "Test (Global)") (λ self,
  then_ (generate_confusion_matrix self "Test (Local)" true true) (λ self,
  then_ (generate_confusion_matrix self "Test (Global)" true true) (λ self,
  (reset_test self, Ok ()))))).

(** One call from outside on a model object. *)
Inductive method : Type :=
  | Training_step (batch : Input * Label)
  | Validation_step (batch : Input * Label)
  | Test_step (batch : Input * Label) (dataloader_idx : option Z)
  | Step (batch : Input * Label) (phase : string)
  | Process_metrics (phase : string) (y_pred : Pred) (y : Label)
  | Log_metrics_end (phase : string)
  | Generate_confusion_matrix (phase : string) (print_cm plot_cm : bool)
  | On_train_end
  | On_train_epoch_end
  | On_validation_end
  | On_validation_epoch_end
  | On_test_end
  | On_test_epoch_end.

Definition drop {A} (r : NebulaModel * outcome A) : NebulaModel := fst r.

Definition invoke (standalone : bool) (self : NebulaModel) (c : method)
    : NebulaModel :=
  match c with
  | Training_step b => drop (training_step self b)
  | Validation_step b => drop (validation_step self b)
  | Test_step b i => drop (test_step self b i)
  | Step b ph => drop (step self b ph)
  | Process_metrics ph yp y => drop (process_metrics self ph yp y)
  | Log_metrics_end ph => self
  | Generate_confusion_matrix ph print_cm plot_cm =>
      drop (generate_confusion_matrix self ph print_cm plot_cm)
  | On_train_end => drop (on_train_end standalone self)
  | On_train_epoch_end => drop (on_train_epoch_end standalone self)
  | On_validation_end => drop (on_validation_end standalone self)
  | On_validation_epoch_end => drop (on_validation_epoch_end standalone self)
  | On_test_end => drop (on_test_end self)
  | On_test_epoch_end => drop (on_test_epoch_end self)
  end.

(** The object after a sequence of calls, whether they returned or raised. *)
Definition invoke_all (standalone : bool) (self : NebulaModel)
    (calls : list method) : NebulaModel :=
  foldl (invoke standalone) self calls.

Definition is_training_step (c : method) : Prop :=
  match c with Training_step _ => True | _ => False end.

(** The keys of [self.global_number]. *)
Definition phases : list string :=
  ["Train"; "Validation"; "Test (Local)"; "Test (Global)"]%string.

Definition indicator (b : bool) : Z := if b then 1%Z else 0%Z.

(** What one call of a hook adds to the counter of [phase]: the end of
    training and of validation count for [NebulaModel], the end of their
    epochs for [NebulaModelStandalone], the end of testing for both. *)
Definition bumps (standalone : bool) (c : method) (phase : string) : Z :=
  match c with
  | On_train_end => indicator (negb standalone && String.eqb phase "Train")
  | On_train_epoch_end => indicator (standalone && String.eqb phase "Train")
  | On_validation_end => indicator (negb standalone && String.eqb phase "Validation")
  | On_validation_epoch_end => indicator (standalone && String.eqb phase "Validation")
  | On_test_end =>
      indicator (String.eqb phase "Test (Local)" || String.eqb phase "Test (Global)")
  | _ => 0%Z
  end.

Definition total_bumps (standalone : bool) (calls : list method)
    (phase : string) : Z :=
  foldr Z.add 0%Z ((λ c, bumps standalone c phase) <$> calls).

End Model.

End NebulaModel.

(** * The data module *)

Module DataModule.

(** What the constructor can raise: the exceptions above, the
    [TypeError] Python raises when the operand of [raise] is a string, and
    the [OverflowError] of [round] on an infinite float. *)
Inductive raised : Type :=
  | Exn (e : exn)
  | TypeError (msg : string)
  | OverflowError (msg : string).

Inductive result (A : Type) : Type :=
  | Return (a : A)
  | Raised (r : raised).
Arguments Return {A} a.
Arguments Raised {A} r.

Definition lift {A} (o : outcome A) : result A :=
  match o with
  | Ok a => Return a
  | Raise e => Raised (Exn e)
  end.

Definition rbind {A B} (m : result A) (k : A → result B) : result B :=
  match m with
  | Return a => k a
  | Raised r => Raised r
  end.

Notation "x ←? m ; k" := (rbind m (λ x, k))
  (at level 20, m at level 100, k at level 200, right associativity,
   format "x  ←?  m ;  '/' k").

(** Python floats are IEEE 754 binary64 numbers, rounded to nearest with
    ties to even.  [float_of_int] is the conversion Python applies to an
    integer operand, here to [1] and to a length (a length is below 2^63,
    far from the integers that have no float). *)
Definition float : Type := spec_float.

Definition prec : Z := 53.
Definition emax : Z := 1024.

Definition float_of_int (n : Z) : float := binary_normalize prec emax n 0 false.

Definition float_sub (x y : float) : float := SFsub prec emax x y.

Definition float_mul (x y : float) : float := SFmul prec emax x y.

Definition float_div (x y : float) : float := SFdiv prec emax x y.

(** The number a finite float stands for. *)
Definition float_value (s : bool) (m : positive) (e : Z) : Q :=
  let a := if s then Z.neg m else Z.pos m in
  match e with
  | Z.neg k => a # Pos.pow 2 k
  | _ => inject_Z (a * 2 ^ e)
  end.

(** [DataLoader(...)] and [RandomSampler(...)] as the arguments they were
    built with. *)
Record RandomSampler (Subset : Type) : Type := mkSampler {
  rs_data_source : Subset;
  rs_replacement : bool;
  rs_num_samples : Z
}.
Arguments mkSampler {Subset}.
Arguments rs_data_source {Subset}.
Arguments rs_replacement {Subset}.
Arguments rs_num_samples {Subset}.

Record DataLoader (Source Subset : Type) : Type := mkLoader {
  dl_dataset : Source;
  dl_batch_size : Z;
  dl_shuffle : bool;
  dl_num_workers : Z;
  dl_drop_last : bool;
  dl_sampler : option (RandomSampler Subset)
}.
Arguments mkLoader {Source Subset}.
Arguments dl_dataset {Source Subset}.
Arguments dl_batch_size {Source Subset}.
Arguments dl_shuffle {Source Subset}.
Arguments dl_num_workers {Source Subset}.
Arguments dl_drop_last {Source Subset}.
Arguments dl_sampler {Source Subset}.

(** torch and the repository's [ChangeableSubset] are collaborators.
    [Poisoning] stands for the label flipping and data poisoning arguments,
    which the constructor only hands on.
    [new_changeable_subset d idx None] is [ChangeableSubset(d, idx)],
    with [Some] poisoning arguments when they are passed;
    [random_split s a b] is [random_split(s, [a, b])], one subset per
    length; [subset_len], [split_len] and [dataset_len] are [len];
    [check_loader] and [check_sampler] are the argument checks of the two
    torch constructors. *)
Class Torch : Type := mkTorch {
  Dataset : Type;
  ChangeableSubset : Type;
  Subset : Type;
  Poisoning : Type;
  dataset_len : Dataset → Z;
  new_changeable_subset :
    Dataset → list Z → option Poisoning → outcome ChangeableSubset;
  subset_len : ChangeableSubset → Z;
  random_split : ChangeableSubset → Z → Z → outcome (Subset * Subset);
  split_len : Subset → Z;
  check_sampler : RandomSampler Subset → outcome unit;
  check_loader : DataLoader (Subset + ChangeableSubset) Subset → outcome unit
}.

Section DataModule.

Context {torch : Torch}.

Definition Loader : Type := DataLoader (Subset + ChangeableSubset) Subset.

(** The arguments of [DataModule.__init__]. *)
Record Args : Type := mkArgs {
  train_set : Dataset;
  train_set_indices : list Z;
  test_set : Dataset;
  test_set_indices : list Z;
  local_test_set_indices : list Z;
  partition_id : Z;
  partitions_number : Z;
  batch_size : Z;
  num_workers : Z;
  val_percent : float;
  poisoning : Poisoning;
  in_eval_indices : option (list Z);
  out_eval_indices : option (list Z);
  shadow_train_indices : option (list (list Z));
  shadow_test_indices : option (list (list Z))
}.

(** The attributes of a constructed module; an optional loader is [None]
    when its attribute was never assigned. *)
Record DataModule : Type := mkDataModule {
  args : Args;
  train_loader : Loader;
  val_loader : Loader;
  test_loader : Loader;
  global_test_loader : Loader;
  in_eval_loader : option Loader;
  out_eval_loader : option Loader;
  shadow_train_loader : option (list Loader);
  shadow_test_loader : option (list Loader);
  bootstrap_loader : Loader
}.

(** Python's [round] of a number to an integer: to the nearest, a tie to
    the even one. *)
Definition py_round (q : Q) : Z :=
  let f := Qfloor q in
  let r := (q - inject_Z f)%Q in
  if Qltb r (1 # 2) then f
  else if Qltb (1 # 2) r then (f + 1)%Z
  else if Z.even f then f else (f + 1)%Z.

(** [round(x)] for a float [x]: the exact value of [x] is rounded;
    infinities and NaN have no integer. *)
Definition py_round_float (x : float) : result Z :=
  match x with
  | S754_zero _ => Return 0%Z
  | S754_finite s m e => Return (py_round (float_value s m e))
  | S754_infinity _ =>
      Raised (OverflowError "cannot convert float infinity to integer")
  | S754_nan => Raised (Exn (ValueError "cannot convert float NaN to integer"))
  end.

(** [round(len(tr_subset) * (1 - self.val_percent))]: the difference and
    the product are rounded to binary64 before [round] sees them. *)
Definition train_size (n : Z) (val_percent : float) : result Z :=
  py_round_float
    (float_mul (float_of_int n) (float_sub (float_of_int 1) val_percent)).

(** [len(tr_subset) - train_size] *)
Definition val_size (n train_size : Z) : Z := (n - train_size)%Z.

(** [indices.any()] on an array of integers. *)
Definition np_any (indices : list Z) : bool :=
  existsb (λ i, negb (i =? 0)%Z) indices.

(** [max(int(len(data_val) / 3), 300)] *)
Definition bootstrap_samples (len_val : Z) : Z :=
  Z.max (Z.quot len_val 3) 300.

Definition new_loader (l : Loader) : result Loader :=
  _ ←? lift (check_loader l); Return l.

Definition new_sampler (s : RandomSampler Subset) : result (RandomSampler Subset) :=
  _ ←? lift (check_sampler s); Return s.

Fixpoint rmap {A B} (f : A → result B) (l : list A) : result (list B) :=
  match l with
  | [] => Return []
  | x :: l => y ←? f x; ys ←? rmap f l; Return (y :: ys)
  end.

(** [DataLoader(subset, batch_size, shuffle, num_workers)] over a
    [ChangeableSubset]. *)
Definition plain_loader (a : Args) (shuffle : bool)
    (subset : ChangeableSubset) : result Loader :=
  new_loader (mkLoader (inr subset) (batch_size a) shuffle (num_workers a) false None).

Definition eval_loader (a : Args) (indices : option (list Z))
    : result (option Loader) :=
  match indices with
  | None => Return None
  | Some indices =>
      if np_any indices then
        subset ←? lift (new_changeable_subset (train_set a) indices None);
        loader ←? plain_loader a false subset;
        Return (Some loader)
      else Return None
  end.

Definition shadow_loaders (a : Args) (dataset : Dataset) (shuffle : bool)
    (indices : option (list (list Z))) : result (option (list Loader)) :=
  match indices with
  | None | Some [] => Return None
  | Some indices =>
      subsets ←? rmap (λ idx, lift (new_changeable_subset dataset idx None)) indices;
      loaders ←? rmap (plain_loader a shuffle) subsets;
      Return (Some loaders)
  end.

(** [DataModule.__init__]; the logging calls are left out. *)
Definition init (a : Args) : result DataModule :=
  tr_subset ←? lift (new_changeable_subset (train_set a) (train_set_indices a)
                       (Some (poisoning a)));
  train_size ←? train_size (subset_len tr_subset) (val_percent a);
  let val_size := val_size (subset_len tr_subset) train_size in
  parts ←? lift (random_split tr_subset train_size val_size);
  let '(data_train, data_val) := parts in
  global_te_subset ←?
    lift (new_changeable_subset (test_set a) (test_set_indices a) None);
  local_te_subset ←?
    lift (new_changeable_subset (test_set a) (local_test_set_indices a) None);
  if (dataset_len (test_set a) <? partitions_number a)%Z then
    Raised (TypeError "exceptions must derive from BaseException")
  else
    train_loader ←?
      new_loader (mkLoader (inl data_train) (batch_size a) true
                    (num_workers a) true None);
    val_loader ←?
      new_loader (mkLoader (inl data_val) (batch_size a) false
                    (num_workers a) true None);
    test_loader ←?
      new_loader (mkLoader (inr local_te_subset) (batch_size a) false
                    (num_workers a) true None);
    global_test_loader ←?
      new_loader (mkLoader (inr global_te_subset) (batch_size a) false
                    (num_workers a) true None);
    in_eval_loader ←? eval_loader a (in_eval_indices a);
    out_eval_loader ←? eval_loader a (out_eval_indices a);
    shadow_train_loader ←?
      shadow_loaders a (train_set a) true (shadow_train_indices a);
    shadow_test_loader ←?
      shadow_loaders a (test_set a) false (shadow_test_indices a);
    random_sampler ←?
      new_sampler (mkSampler data_val false
                     (bootstrap_samples (split_len data_val)));
    bootstrap_loader ←?
      new_loader (mkLoader (inl data_train) (batch_size a) false 0 false
                    (Some random_sampler));
    Return (mkDataModule a train_loader val_loader test_loader
              global_test_loader in_eval_loader out_eval_loader
              shadow_train_loader shadow_test_loader bootstrap_loader).

Definition train_dataloader (self : DataModule) : Loader := train_loader self.

Definition val_dataloader (self : DataModule) : Loader := val_loader self.

Definition test_dataloader (self : DataModule) : list Loader :=
  [test_loader self; global_test_loader self].

Definition bootstrap_dataloader (self : DataModule) : Loader :=
  bootstrap_loader self.

End DataModule.

End DataModule.

(** * Concrete nodes, rounds and collaborators

    The inputs the examples below run the code on. *)

Module Fixtures.

Import PrioritySelector.

(** Five neighbors with the same telemetry and availability [avail]. *)
Definition snapshot (avail : Q) : FeatureSnapshot :=
  mkFeatures (1 # 2) 20 100 10 10 (1 # 10) avail.

Definition five : list NeighborId :=
  ["a"; "b"; "c"; "d"; "e"]%string.

Definition telemetry (avail : Q) : gmap NeighborId FeatureSnapshot :=
  list_to_map ((λ nb, (nb, snapshot avail)) <$> five).

Definition selector_up : Selector := mkSelector five (telemetry 1) ∅ [].

(** Every neighbor reports availability 0. *)
Definition selector_down : Selector := mkSelector five (telemetry 0) ∅ [].

(** A round in which the generator picks the first four neighbors. *)
Definition first_four : Round :=
  mkRound five (telemetry 1) "me"%string [0; 1; 2; 3]%nat.

(** The five neighbors with [e] unavailable, and with only [a] available. *)
Definition selector_mixed : Selector :=
  mkSelector five (<["e"%string := snapshot 0]> (telemetry 1)) ∅ [].

Definition selector_scarce : Selector :=
  mkSelector five (<["a"%string := snapshot 1]> (telemetry 0)) ∅ [].


(** A neighbor list that names [x], of which there is no telemetry. *)
Definition selector_gap : Selector :=
  mkSelector ["a"; "x"; "b"]%string (telemetry 1) ∅ [].

Import Aggregation.

(** Strategies that answer with the number of their class. *)
Definition cls_number (cls : AggregatorCls) : Z :=
  match cls with
  | FedAvg => 0
  | Krum => 1
  | Median => 2
  | TrimmedMean => 3
  | Bulyan => 4
  | BlockchainReputation => 5
  | DynamicAggregator => 6
  end.

Definition numbered : Collaborators :=
  mkCollaborators Z (λ cls _, Ok (cls_number cls)) (λ _, Ok ()).

Definition updates : list (NeighborId * Z) :=
  [("a"%string, 10%Z); ("b"%string, (-700)%Z); ("c"%string, 12%Z)].

Definition engine_attack : @Engine numbered :=
  mkEngine 3 (λ _, Ok (["b"%string], 1 # 2)).

Definition engine_clean : @Engine numbered :=
  mkEngine 3 (λ _, Ok ([], 1%Q)).

Definition engine_down : @Engine numbered :=
  mkEngine 3 (λ _, Raise (CollaboratorError "reputation unavailable")).

Definition reactive (default : string) (eng : @Engine numbered)
    : @Aggregator numbered :=
  mkAggregator (mkConfig default) (Some eng).

Definition third : fin (length available_aggregators) := 2%fin.

(** Collaborators whose base class refuses every update set. *)
Definition refusing : Collaborators :=
  mkCollaborators Z (λ cls _, Ok (cls_number cls))
    (λ _, Raise (CollaboratorError "no updates")).

Definition without_engine : @Aggregator refusing :=
  mkAggregator (mkConfig "Krum") None.

Import NebulaModel.

(** A model over integers: the prediction is the input, the loss is the
    distance to the label, and a metric counts its updates. *)
Definition counting : Torch :=
  mkTorch Z Z Z nat nat
    (λ x, Ok x)
    (λ y_pred y, Ok (inject_Z (Z.abs (y_pred - y))))
    (λ _, 0%nat) (λ m _, m) (λ m _ _, S m) (λ _, 0%nat)
    (λ _, 0%nat) (λ c _ _, S c) (λ _, 0%nat)
    nat nat (λ c, Ok c) (λ m _, Ok m) (Some (λ _ _ _, Ok ())).

(** The same model with no logger attached. *)
Definition detached : Torch :=
  mkTorch Z Z Z nat nat
    (λ x, Ok x)
    (λ y_pred y, Ok (inject_Z (Z.abs (y_pred - y))))
    (λ _, 0%nat) (λ m _, m) (λ m _ _, S m) (λ _, 0%nat)
    (λ _, 0%nat) (λ c _ _, S c) (λ _, 0%nat)
    nat nat (λ c, Ok c) (λ m _, Ok m) None.

(** Datasets as their number of rows and subsets as their index lists; a
    [random_split] that keeps the order, one of the splits torch can make,
    and that refuses lengths that do not add up. *)
Definition in_order : DataModule.Torch :=
  DataModule.mkTorch Z (list Z) (list Z) unit
    (λ d, d)
    (λ _ idx _, Ok idx)
    (λ s, Z.of_nat (length s))
    (λ s n m,
       if (n + m =? Z.of_nat (length s))%Z
       then Ok (firstn (Z.to_nat n) s, skipn (Z.to_nat n) s)
       else Raise (ValueError
                     "Sum of input lengths does not equal the length of the input dataset!"))
    (λ s, Z.of_nat (length s))
    (λ _, Ok ())
    (λ _, Ok ()).

(** The float literals [0.1] and [0.3]: the binary64 numbers nearest to
    one tenth and to three tenths. *)
Definition tenth : DataModule.float :=
  DataModule.float_div (DataModule.float_of_int 1) (DataModule.float_of_int 10).

Definition three_tenths : DataModule.float :=
  DataModule.float_div (DataModule.float_of_int 3) (DataModule.float_of_int 10).

(** Partition 0 of 2: ten training rows, four test rows, a validation
    share of 0.1; the [in] evaluation indices hold index 0 only. *)
Definition partition (partitions_number : Z) : @DataModule.Args in_order :=
  @DataModule.mkArgs in_order
    10%Z [0; 1; 2; 3; 4; 5; 6; 7; 8; 9]%Z
    4%Z [0; 1; 2; 3]%Z [0; 1]%Z
    0%Z partitions_number 2%Z 0%Z tenth ()
    (Some [0%Z]) (Some [0; 3]%Z)
    (Some [[1; 2]; [3]]%Z) (Some []).

End Fixtures.

(** * Facts about sums of rationals *)

Section QFacts.

Lemma Qsum_abs_nonneg (l : list Q) : (0 <= Qsum (Qabs <$> l))%Q.
Proof.
  induction l as [|x l IH]; simpl.
  - apply Qle_refl.
  - change 0%Q with (0 + 0)%Q. apply Qplus_le_compat; [apply Qabs_nonneg | exact IH].
Qed.

Lemma Qsum_abs_zero (l : list Q) (x : Q) :
  (Qsum (Qabs <$> l) == 0)%Q → x ∈ l → (x == 0)%Q.
Proof.
  induction l as [|y l IH]; intros Hs Hx.
  - by apply elem_of_nil in Hx.
  - simpl in Hs.
    pose proof (Qabs_nonneg y) as Hy.
    pose proof (Qsum_abs_nonneg l) as Hl.
    assert (Qabs y == 0)%Q as Hy0.
    { apply Qle_antisym; [|exact Hy].
      rewrite <- Hs. rewrite <- (Qplus_0_r (Qabs y)) at 1.
      apply Qplus_le_compat; [apply Qle_refl | exact Hl]. }
    apply elem_of_cons in Hx as [->|Hx].
    + assert (Qabs y <= 0)%Q as Hle by (rewrite Hy0; apply Qle_refl).
      apply Qabs_Qle_condition in Hle as [H1 H2].
      apply Qle_antisym; [exact H2 | exact H1].
    + apply IH; [|exact Hx].
      rewrite Hy0 in Hs. rewrite Qplus_0_l in Hs. exact Hs.
Qed.

End QFacts.

(** * The priority selector: proofs *)

Module SelectorProofs.

Import PrioritySelector.

Local Arguments spec_feature : simpl never.

(** ** The first loop *)

Section FeatureLoop.

Context (features : gmap NeighborId FeatureSnapshot).

Lemma age_of_first_sighting ages nb' nb :
  age_of (first_sighting ages nb') nb = age_of ages nb.
Proof.
  unfold first_sighting, age_of.
  destruct (ages !! nb') eqn:E; [done|].
  destruct (decide (nb' = nb)) as [->|Hne].
  - by rewrite lookup_insert_eq, E.
  - by rewrite lookup_insert_ne.
Qed.

Lemma first_sighting_lookup ages nb :
  first_sighting ages nb !! nb = Some (age_of ages nb).
Proof.
  unfold first_sighting, age_of.
  destruct (ages !! nb) eqn:E; simpl; [done|]. by rewrite lookup_insert_eq.
Qed.

Lemma spec_feature_first_sighting ages nb' k nb :
  spec_feature features (first_sighting ages nb') k nb = spec_feature features ages k nb.
Proof. unfold spec_feature. by rewrite age_of_first_sighting. Qed.

Lemma py_div_ok x y : ¬ (y == 0)%Q → py_div x y = Ok (x / y)%Q.
Proof.
  intros H. unfold py_div. destruct (Qeq_bool y 0) eqn:E; [|done].
  apply Qeq_bool_iff in E. contradiction.
Qed.

Lemma feature_list_ok ages nb f a :
  features !! nb = Some f →
  ¬ (cpu_percent f + (1 # 1000000) == 0)%Q →
  ¬ (latency f + (1 # 1000000) == 0)%Q →
  ages !! nb = Some a →
  feature_list features ages nb = Ok (spec_feature_vector f a).
Proof.
  intros Hf Hc Hl Ha. unfold feature_list, py_getitem.
  rewrite Hf, Ha. simpl. rewrite !py_div_ok by done. simpl.
  unfold spec_feature_vector. by destruct (Qeq_bool (loss f) (-1)).
Qed.

Lemma feature_loop_ok neighbors : ∀ ages av r0 r1 r2 r3 r4 r5 r6,
  Forall (readable features) neighbors →
  feature_loop features neighbors ages av [r0; r1; r2; r3; r4; r5; r6]
  = (foldl first_sighting ages neighbors,
     Ok (av ++ (spec_availability features <$> neighbors),
         [r0 ++ (spec_feature features ages 0 <$> neighbors);
          r1 ++ (spec_feature features ages 1 <$> neighbors);
          r2 ++ (spec_feature features ages 2 <$> neighbors);
          r3 ++ (spec_feature features ages 3 <$> neighbors);
          r4 ++ (spec_feature features ages 4 <$> neighbors);
          r5 ++ (spec_feature features ages 5 <$> neighbors);
          r6 ++ (spec_feature features ages 6 <$> neighbors)])).
Proof.
  induction neighbors as [|nb rest IH]; intros ages av r0 r1 r2 r3 r4 r5 r6 Hall.
  - simpl. by rewrite !app_nil_r.
  - apply Forall_cons in Hall as [(f & Hf & Hc & Hl) Hrest].
    cbn [feature_loop].
    rewrite (feature_list_ok _ nb f (age_of ages nb)); try done;
      [|apply first_sighting_lookup].
    unfold py_getitem at 1. rewrite Hf.
    unfold spec_feature_vector, append_column. cbn [zip_with].
    rewrite IH by done. cbn [foldl].
    assert (∀ k, spec_feature features (first_sighting ages nb) k <$> rest
                 = spec_feature features ages k <$> rest) as Hk.
    { intros k. apply list_fmap_ext. intros ? ? ?. apply spec_feature_first_sighting. }
    rewrite !Hk, !fmap_cons.
    assert (∀ k, spec_feature features ages k nb
                 = spec_feature_vector f (age_of ages nb) !!! k) as Hh.
    { intros k. unfold spec_feature. by rewrite Hf. }
    rewrite !Hh. unfold spec_availability at 2. rewrite Hf.
    unfold spec_feature_vector.
    change (?a :: ?l) with ([a] ++ l) at 1.
    rewrite <- !app_assoc. reflexivity.
Qed.

Lemma feature_loop_start neighbors ages :
  Forall (readable features) neighbors →
  feature_loop features neighbors ages [] (replicate 7 [])
  = (foldl first_sighting ages neighbors,
     Ok (spec_availability features <$> neighbors,
         (λ k, spec_feature features ages k <$> neighbors) <$> seq 0 7)).
Proof. intros H. exact (feature_loop_ok neighbors ages [] [] [] [] [] [] [] [] H). Qed.

End FeatureLoop.

(** ** The scores *)

Section Score.

Lemma handle_zeros_entry (row : list Q) (x : Q) :
  x ∈ row →
  (x / handle_zeros_in_scale (l1_norm row) == x / l1_norm row)%Q.
Proof.
  intros Hx. unfold handle_zeros_in_scale.
  destruct (Qeq_bool (l1_norm row) 0) eqn:E; [|reflexivity].
  apply Qeq_bool_iff in E.
  pose proof (Qsum_abs_zero row x E Hx) as Hx0.
  rewrite Hx0. unfold Qdiv. by rewrite !Qmult_0_l.
Qed.

Lemma weighted_row_lookup (row : list Q) (w : Q) (j : nat) (x : Q) :
  row !! j = Some x →
  ((λ y, y * w)%Q <$> normalize_row row) !! j
  = Some (x / handle_zeros_in_scale (l1_norm row) * w)%Q.
Proof.
  intros H. unfold normalize_row. by rewrite !list_lookup_fmap, H.
Qed.

Lemma zip_plus_lookup (l k : list Q) (j : nat) (x y : Q) :
  l !! j = Some x → k !! j = Some y →
  zip_with Qplus l k !! j = Some (x + y)%Q.
Proof. intros Hl Hk. by rewrite lookup_zip_with, Hl, Hk. Qed.

Context (features : gmap NeighborId FeatureSnapshot) (ages : gmap NeighborId Z).

Lemma l1_norm_row neighbors k :
  l1_norm (spec_feature features ages k <$> neighbors)
  = Qsum ((λ m, Qabs (spec_feature features ages k m)) <$> neighbors).
Proof. unfold l1_norm. by rewrite <- list_fmap_compose. Qed.

Lemma normalized_entry neighbors k j nb :
  neighbors !! j = Some nb →
  (spec_feature features ages k nb
   / handle_zeros_in_scale (l1_norm (spec_feature features ages k <$> neighbors))
   == spec_normalized features ages neighbors k nb)%Q.
Proof.
  intros Hj. unfold spec_normalized. rewrite <- l1_norm_row.
  apply handle_zeros_entry. apply list_elem_of_fmap. exists nb. split; [done|].
  by eapply list_elem_of_lookup_2.
Qed.

Lemma scores_formula neighbors av j nb :
  neighbors !! j = Some nb →
  ∃ w,
    scores
      (compute_scores (length neighbors) av
         [spec_feature features ages 0 <$> neighbors;
          spec_feature features ages 1 <$> neighbors;
          spec_feature features ages 2 <$> neighbors;
          spec_feature features ages 3 <$> neighbors;
          spec_feature features ages 4 <$> neighbors;
          spec_feature features ages 5 <$> neighbors;
          spec_feature features ages 6 <$> neighbors]) !! j = Some w
    ∧ (w == spec_weighted_sum features ages neighbors nb)%Q.
Proof.
  intros Hj.
  assert (j < length neighbors)%nat as Hlt by (by eapply lookup_lt_Some).
  assert (∀ k, (spec_feature features ages k <$> neighbors) !! j
               = Some (spec_feature features ages k nb)) as Hrow.
  { intros k. by rewrite list_lookup_fmap, Hj. }
  eexists. split.
  - unfold compute_scores, scores, normalize_l1, multiply_rows,
      sum_axis0, FEATURE_WEIGHTS.
    cbn [fmap list_fmap zip_with foldr].
    erewrite zip_plus_lookup;
      [reflexivity | by apply weighted_row_lookup
       | erewrite zip_plus_lookup;
         [reflexivity | by apply weighted_row_lookup
         | erewrite zip_plus_lookup;
           [reflexivity | by apply weighted_row_lookup
           | erewrite zip_plus_lookup;
             [reflexivity | by apply weighted_row_lookup
             | erewrite zip_plus_lookup;
               [reflexivity | by apply weighted_row_lookup
               | erewrite zip_plus_lookup;
                 [reflexivity | by apply weighted_row_lookup
                 | erewrite zip_plus_lookup;
                   [reflexivity | by apply weighted_row_lookup
                   | by apply lookup_replicate_2 ]]]]]]].
  - unfold spec_weighted_sum, FEATURE_WEIGHTS. cbn [seq fmap list_fmap Qsum foldr].
    rewrite !(normalized_entry neighbors _ j nb Hj).
    cbn [lookup_total list_lookup_total].
    ring.
Qed.

Lemma final_scores_formula neighbors j nb :
  neighbors !! j = Some nb →
  ∃ w,
    scores
      (compute_scores (length neighbors)
         (spec_availability features <$> neighbors)
         [spec_feature features ages 0 <$> neighbors;
          spec_feature features ages 1 <$> neighbors;
          spec_feature features ages 2 <$> neighbors;
          spec_feature features ages 3 <$> neighbors;
          spec_feature features ages 4 <$> neighbors;
          spec_feature features ages 5 <$> neighbors;
          spec_feature features ages 6 <$> neighbors]) !! j = Some w
    ∧ (w == spec_weighted_sum features ages neighbors nb)%Q
    ∧ final_scores
        (compute_scores (length neighbors)
           (spec_availability features <$> neighbors)
           [spec_feature features ages 0 <$> neighbors;
            spec_feature features ages 1 <$> neighbors;
            spec_feature features ages 2 <$> neighbors;
            spec_feature features ages 3 <$> neighbors;
            spec_feature features ages 4 <$> neighbors;
            spec_feature features ages 5 <$> neighbors;
            spec_feature features ages 6 <$> neighbors]) !! j
      = Some (w * spec_availability features nb)%Q
    ∧ (w * spec_availability features nb
       == spec_score features ages neighbors nb)%Q.
Proof.
  intros Hj.
  destruct (scores_formula neighbors (spec_availability features <$> neighbors)
              j nb Hj) as (w & Hw & Heq).
  exists w. split_and!; [done|done| |].
  - unfold compute_scores, final_scores. unfold compute_scores, scores in Hw.
    by rewrite lookup_zip_with, Hw, list_lookup_fmap, Hj.
  - unfold spec_score. by rewrite Heq.
Qed.

End Score.

(** ** The ages *)

Section Ages.

Implicit Types (ages : gmap NeighborId Z) (nb : NeighborId).

Lemma foldl_first_sighting_lookup l : ∀ ages nb,
  foldl first_sighting ages l !! nb
  = if decide (nb ∈ l) then Some (age_of ages nb) else ages !! nb.
Proof.
  induction l as [|x l IH]; intros ages nb; cbn [foldl].
  - case_decide as H; [by apply elem_of_nil in H | done].
  - rewrite IH. rewrite age_of_first_sighting.
    destruct (decide (nb ∈ l)) as [Hin|Hnin].
    + rewrite decide_True by (by right). done.
    + destruct (decide (nb = x)) as [->|Hne].
      * rewrite decide_True by (by left). apply first_sighting_lookup.
      * rewrite decide_False by (intros [?|?]%elem_of_cons; done).
        unfold first_sighting. destruct (ages !! x); [done|].
        by rewrite lookup_insert_ne.
Qed.

Lemma feature_loop_ages features l : ∀ ages av fa ages1 r,
  feature_loop features l ages av fa = (ages1, r) →
  ∃ pre, pre `prefix_of` l ∧ ages1 = foldl first_sighting ages pre
         ∧ (is_Ok r → pre = l).
Proof.
  induction l as [|x l IH]; intros ages av fa ages1 r H; cbn [feature_loop] in H.
  - inversion H; subst. exists []. by split_and!.
  - destruct (feature_list features (first_sighting ages x) x) as [fl|e] eqn:E1.
    + destruct (py_getitem features x) as [f|e] eqn:E2.
      * apply IH in H as (pre & Hpre & -> & Hok).
        exists (x :: pre). split_and!; [by apply prefix_cons | done |].
        intros Hr. by rewrite Hok.
      * inversion H; subst. exists [x]. split_and!; [|done|intros []].
        apply prefix_cons, prefix_nil.
    + inversion H; subst. exists [x]. split_and!; [|done|intros []].
      apply prefix_cons, prefix_nil.
Qed.

Lemma update_ages_frame sel l : ∀ ages nb,
  nb ∉ l → (update_ages l sel ages).1 !! nb = ages !! nb.
Proof.
  induction l as [|x l IH]; intros ages nb Hnin; cbn [update_ages]; [done|].
  apply not_elem_of_cons in Hnin as [Hne Hnin].
  case_bool_decide; [|by apply IH].
  unfold py_getitem. destruct (ages !! x) as [a|] eqn:E; [|done].
  rewrite IH by done. by rewrite lookup_insert_ne.
Qed.

Lemma update_ages_mono sel l : ∀ ages nb a,
  ages !! nb = Some a →
  ∃ a', (update_ages l sel ages).1 !! nb = Some a' ∧ (a ≤ a')%Z.
Proof.
  induction l as [|x l IH]; intros ages nb a Ha; cbn [update_ages].
  - exists a. split; [done|lia].
  - case_bool_decide; [|by apply IH].
    unfold py_getitem. destruct (ages !! x) as [b|] eqn:E.
    + destruct (decide (x = nb)) as [->|Hne].
      * destruct (IH (<[nb:=(b + 2)%Z]> ages) nb (b + 2)%Z) as (a' & Ha' & Hle).
        { apply lookup_insert_eq. }
        exists a'. split; [done|]. rewrite E in Ha. inversion Ha; subst. lia.
      * apply IH. by rewrite lookup_insert_ne.
    + exists a. split; [done|lia].
Qed.

Lemma update_ages_fresh sel l : ∀ ages nb,
  ages !! nb = None → (update_ages l sel ages).1 !! nb = None.
Proof.
  induction l as [|x l IH]; intros ages nb Hn; cbn [update_ages]; [done|].
  case_bool_decide; [|by apply IH].
  unfold py_getitem. destruct (ages !! x) as [b|] eqn:E; [|done].
  apply IH. rewrite lookup_insert_ne; [done|]. intros ->. congruence.
Qed.

Lemma update_ages_exact sel l : ∀ ages,
  NoDup l →
  (∀ nb, nb ∈ l → is_Some (ages !! nb)) →
  (update_ages l sel ages).2 = Ok () ∧
  ∀ nb, nb ∈ l →
    (update_ages l sel ages).1 !! nb
    = (λ a, a + (if bool_decide (nb ∈ sel) then 0 else 2))%Z <$> ages !! nb.
Proof.
  induction l as [|x l IH]; intros ages Hnd Hdom; cbn [update_ages].
  - split; [done|]. intros nb H. by apply elem_of_nil in H.
  - apply NoDup_cons in Hnd as [Hx Hnd].
    destruct (Hdom x) as [b Hb]; [by left|].
    case_bool_decide as Hsel.
    + unfold py_getitem. rewrite Hb.
      destruct (IH (<[x:=(b + 2)%Z]> ages)) as [Hok Hlk]; [done| |].
      { intros nb Hnb. destruct (decide (x = nb)) as [->|Hne].
        - rewrite lookup_insert_eq. eauto.
        - rewrite lookup_insert_ne by done. apply Hdom. by right. }
      split; [done|]. intros nb [->|Hnb]%elem_of_cons.
      * rewrite update_ages_frame by done. rewrite lookup_insert_eq, Hb. simpl.
        by rewrite bool_decide_false.
      * rewrite Hlk by done. rewrite lookup_insert_ne; [done|]. intros ->. done.
    + destruct (IH ages) as [Hok Hlk]; [done| |].
      { intros nb Hnb. apply Hdom. by right. }
      split; [done|]. intros nb [->|Hnb]%elem_of_cons.
      * rewrite update_ages_frame by done. rewrite Hb. simpl.
        rewrite bool_decide_true by done. f_equal. lia.
      * by apply Hlk.
Qed.

End Ages.

(** ** What a call does to the ages *)

Section Selection.

Implicit Types (self : Selector) (nb addr : NeighborId).

(** What a call can do to the ages: first sightings over a prefix of the
    neighbor list, then increments over none or all of it. *)
Lemma node_selection_ages draw self addr :
  ∃ pre upd sel,
    pre ⊆ neighbors_list self ∧ upd ⊆ neighbors_list self ∧
    ages (node_selection draw self addr).1
    = (update_ages upd sel (foldl first_sighting (ages self) pre)).1.
Proof.
  unfold node_selection. case_bool_decide as Hn.
  { exists [], [], []. split_and!; [set_solver|set_solver|done]. }
  destruct (feature_loop _ _ _ _ _) as [ages1 r] eqn:Hfl.
  apply feature_loop_ages in Hfl as (pre & Hpre & -> & Hok).
  assert (pre ⊆ neighbors_list self) as Hsub.
  { destruct Hpre as [k ->]. set_solver. }
  destruct r as [[av fa]|e]; [|exists pre, [], []; split_and!; [done|set_solver|done]].
  destruct (random_choice _ _ _ _ _) as [sel|e]; [|exists pre, [], []; split_and!; [done|set_solver|done]].
  exists pre, (neighbors_list self), sel. split_and!; [done|done|].
  by destruct (update_ages _ _ _) as [ages2 [[]|e]].
Qed.

(** A call that returns went through both loops. *)
Lemma node_selection_returns_ages draw self addr self' chosen :
  neighbors_list self ≠ [] →
  node_selection draw self addr = (self', Ok (chosen ++ [addr])) →
  ages self'
  = (update_ages (neighbors_list self) chosen
       (foldl first_sighting (ages self) (neighbors_list self))).1.
Proof.
  intros Hne. unfold node_selection.
  rewrite bool_decide_false by (by destruct (neighbors_list self)).
  destruct (feature_loop _ _ _ _ _) as [ages1 r] eqn:Hfl.
  apply feature_loop_ages in Hfl as (pre & Hpre & -> & Hok).
  destruct r as [[av fa]|e]; [|intros [=]].
  rewrite Hok by done.
  destruct (random_choice _ _ _ _ _) as [sel|e]; [|intros [=]].
  destruct (update_ages _ sel _) as [ages2 [[]|e]] eqn:Hup; [|intros [=]].
  intros [= <- Heq]. apply app_inj_tail in Heq as [-> _].
  by rewrite Hup.
Qed.


Lemma node_selection_ge_1 draw self addr :
  (∀ nb a, ages self !! nb = Some a → (1 ≤ a)%Z) →
  ∀ nb a, ages (node_selection draw self addr).1 !! nb = Some a → (1 ≤ a)%Z.
Proof.
  intros Hinv nb a.
  destruct (node_selection_ages draw self addr) as (pre & upd & sel & _ & _ & ->).
  intros Ha.
  destruct (foldl first_sighting (ages self) pre !! nb) as [b|] eqn:Hb.
  - destruct (update_ages_mono sel upd _ nb b Hb) as (a' & Ha' & Hle).
    rewrite Ha in Ha'. inversion Ha'; subst.
    rewrite foldl_first_sighting_lookup in Hb.
    assert (1 ≤ b)%Z; [|lia].
    case_decide.
    + inversion Hb; subst. unfold age_of.
      destruct (ages self !! nb) eqn:E; simpl; [by eapply Hinv|lia].
    + by eapply Hinv.
  - rewrite update_ages_fresh in Ha by done. done.
Qed.


Lemma play_all_ge_1 rounds : ∀ self,
  (∀ nb a, ages self !! nb = Some a → (1 ≤ a)%Z) →
  ∀ nb a, ages (play_all self rounds) !! nb = Some a → (1 ≤ a)%Z.
Proof.
  induction rounds as [|r rounds IH]; intros self Hinv; [done|].
  cbn [play_all foldl]. apply IH. unfold play.
  apply node_selection_ge_1. done.
Qed.

End Selection.

(** ** How many are chosen *)

Section Size.

Implicit Types (self : Selector) (nb addr : NeighborId).

Lemma num_selected_floor (l : list NeighborId) :
  Qfloor (inject_Z (Z.of_nat (length l)) * MAX_PERCENT_SELECTABLE_NEIGHBORS)
  = (Z.of_nat (length l) * 8 / 10)%Z.
Proof. reflexivity. Qed.

Lemma num_selected_ceiling (l : list NeighborId) :
  Qceiling (inject_Z (Z.of_nat (length l)) * MAX_PERCENT_SELECTABLE_NEIGHBORS)
  = (- (- (Z.of_nat (length l) * 8) / 10))%Z.
Proof. reflexivity. Qed.

Lemma num_selected_bounds (l : list NeighborId) :
  l ≠ [] →
  (MIN_AMOUNT_OF_SELECTED_NEIGHBORS ≤ num_selected l
   ≤ Qceiling (inject_Z (Z.of_nat (length l)) * MAX_PERCENT_SELECTABLE_NEIGHBORS))%Z
  ∧ (num_selected l ≤ Z.of_nat (length l))%Z.
Proof.
  intros Hne. unfold num_selected.
  rewrite num_selected_floor, num_selected_ceiling.
  unfold MIN_AMOUNT_OF_SELECTED_NEIGHBORS.
  assert (1 ≤ Z.of_nat (length l))%Z as Hn by (destruct l; [done|simpl; lia]).
  generalize dependent (Z.of_nat (length l)). intros n Hn.
  Z.div_mod_to_equations. lia.
Qed.

(** The positions kept without replacement differ from each other, are
    at most [size], and come from the samples. *)
Lemma first_distinct_spec (draw : list nat) : ∀ found size,
  NoDup (first_distinct found size draw)
  ∧ (length (first_distinct found size draw) ≤ size)%nat
  ∧ ∀ i, i ∈ first_distinct found size draw → i ∈ draw ∧ i ∉ found.
Proof.
  induction draw as [|i rest IH]; intros found size.
  - destruct size; cbn; (split_and!; [constructor|lia|]);
      intros j Hj; by apply elem_of_nil in Hj.
  - destruct size as [|k]; cbn [first_distinct].
    { split_and!; [constructor|cbn; lia|].
      intros j Hj. by apply elem_of_nil in Hj. }
    case_bool_decide as Hi.
    + destruct (IH found (S k)) as (Hnd & Hlen & Hin). split_and!; [done|done|].
      intros j Hj. destruct (Hin j Hj). split; [by right|done].
    + destruct (IH (i :: found) k) as (Hnd & Hlen & Hin). split_and!.
      * constructor; [|done]. intros Hii.
        destruct (Hin i Hii) as [_ Hnot]. apply Hnot. by left.
      * cbn. lia.
      * intros j [->|Hj]%elem_of_cons; [split; [by left|done]|].
        destruct (Hin j Hj) as [? Hnot]. split; [by right|].
        intros ?. apply Hnot. by right.
Qed.

Lemma length_filter_all {A} (P : A → Prop) `{∀ x, Decision (P x)} (l : list A) :
  Forall P l → filter P l = l.
Proof.
  induction 1 as [|x l Hx _ IH]; [done|].
  rewrite filter_cons, decide_True by done. by rewrite IH.
Qed.

Lemma length_filter_ne (i : nat) (l : list nat) :
  NoDup l → (length l ≤ S (length (filter (λ j, j ≠ i) l)))%nat.
Proof.
  induction 1 as [|x l Hx Hnd IH]; [cbn; lia|].
  rewrite filter_cons. destruct (decide (x ≠ i)) as [Hne|Heq].
  - cbn. lia.
  - apply dec_stable in Heq. subst x.
    rewrite length_filter_all; [done|].
    apply Forall_forall. intros j Hj ->. done.
Qed.

(** Samples that hold [size] different positions are enough. *)
Lemma first_distinct_enough (draw : list nat) : ∀ found size (l : list nat),
  NoDup l → l ⊆ draw → (∀ i, i ∈ l → i ∉ found) → (size ≤ length l)%nat →
  length (first_distinct found size draw) = size.
Proof.
  induction draw as [|i rest IH]; intros found size l Hnd Hsub Hnew Hsz.
  - destruct l as [|x l]; [|exfalso; apply (elem_of_nil x), Hsub; by left].
    cbn in Hsz. destruct size; [done|lia].
  - destruct size as [|k]; [done|]. cbn [first_distinct].
    case_bool_decide as Hi.
    + apply (IH found (S k) l); [done| |done|done].
      intros j Hj. pose proof (Hsub j Hj) as [->|?]%elem_of_cons; [|done].
      by destruct (Hnew i Hj).
    + cbn. f_equal.
      apply (IH (i :: found) k (filter (λ j, j ≠ i) l)).
      * by apply NoDup_filter.
      * intros j [Hne Hj]%list_elem_of_filter.
        by pose proof (Hsub j Hj) as [->|?]%elem_of_cons.
      * intros j [Hne Hj]%list_elem_of_filter [->|Hf]%elem_of_cons; [done|].
        by apply (Hnew j).
      * pose proof (length_filter_ne i l Hnd). lia.
Qed.

Lemma positions_enough self draw :
  (Z.to_nat (num_selected (neighbors_list self)) ≤ length (remove_dups draw))%nat →
  length (positions self draw) = Z.to_nat (num_selected (neighbors_list self)).
Proof.
  intros Hsz. unfold positions.
  apply (first_distinct_enough draw [] _ (remove_dups draw)).
  - apply NoDup_remove_dups.
  - intros i Hi. by apply elem_of_remove_dups.
  - intros i _ Hi. by apply elem_of_nil in Hi.
  - done.
Qed.

Lemma positions_sample self pr draw :
  is_sample pr draw → NoDup (positions self draw) ∧ is_sample pr (positions self draw).
Proof.
  intros Hpos. unfold positions.
  destruct (first_distinct_spec draw [] (Z.to_nat (num_selected (neighbors_list self))))
    as (Hnd & _ & Hin).
  split; [done|]. unfold is_sample in *. rewrite Forall_forall in Hpos.
  apply Forall_forall. intros i Hi. apply Hpos. by apply Hin.
Qed.

Lemma take_positions_Ok (a : list NeighborId) size idx sel :
  take_positions a size idx = Ok sel →
  (size ≤ length idx)%nat ∧ sel = (λ i, a !!! i) <$> idx.
Proof.
  unfold take_positions. case_bool_decide; [intros [=]|].
  intros [= <-]. split; [lia|done].
Qed.

Lemma random_choice_Ok (a : list NeighborId) size pr draw sel :
  random_choice a size false pr draw = Ok sel →
  length (first_distinct [] size draw) = size
  ∧ sel = (λ i, a !!! i) <$> first_distinct [] size draw
  ∧ length pr = length a.
Proof.
  unfold random_choice.
  repeat (case_bool_decide || case_match); try (intros [=]; fail).
  intros [Hsz ->]%take_positions_Ok.
  destruct (first_distinct_spec draw [] size) as (_ & Hle & _).
  split_and!; [lia|done|]. first [done | by apply dec_stable | lia].
Qed.

Lemma sample_chosen (a : list NeighborId) pr size idx :
  length pr = length a → NoDup a →
  length idx = size → NoDup idx → is_sample pr idx →
  let chosen := (λ i, a !!! i) <$> idx in
  length chosen = size ∧ NoDup chosen ∧ chosen ⊆ a.
Proof.
  intros Hlen Hnd Hsz Hdd Hpos. cbn zeta.
  assert (∀ i, i ∈ idx → a !! i = Some (a !!! i)) as Hin.
  { intros i Hi. unfold is_sample in Hpos.
    rewrite Forall_forall in Hpos. specialize (Hpos i Hi).
    destruct (pr !! i) eqn:E; [|done].
    apply lookup_lt_Some in E. rewrite Hlen in E.
    by apply list_lookup_lookup_total_lt. }
  split_and!.
  - by rewrite length_fmap.
  - apply NoDup_fmap_2_strong; [|done].
    intros i j Hi Hj Heq.
    eapply NoDup_lookup; [exact Hnd|by apply Hin|]. rewrite Heq. by apply Hin.
  - intros x (i & -> & Hi)%list_elem_of_fmap.
    eapply list_elem_of_lookup_2. by apply Hin.
Qed.

Lemma node_selection_result draw self addr sel :
  neighbors_list self ≠ [] →
  (node_selection draw self addr).2 = Ok sel →
  ∃ sc, scores_of self = Some sc
        ∧ length (p sc) = length (neighbors_list self)
        ∧ length (positions self draw)
          = Z.to_nat (num_selected (neighbors_list self))
        ∧ sel = ((λ i, neighbors_list self !!! i) <$> positions self draw)
                ++ [addr].
Proof.
  intros Hne. unfold node_selection, scores_of, positions.
  rewrite bool_decide_false by (by destruct (neighbors_list self)).
  destruct (feature_loop _ _ _ _ _) as [ages1 [[av fa]|e]]; [|intros [=]].
  destruct (random_choice _ _ _ _ _) as [chosen|e] eqn:Hrc; [|intros [=]].
  apply random_choice_Ok in Hrc as (Hsz & -> & Hlen).
  destruct (update_ages _ _ _) as [ages2 [[]|e]]; [|intros [=]].
  intros [= <-]. eauto.
Qed.

End Size.

(** ** The all-zero score vector *)

Section Degenerate.

Implicit Types (self : Selector) (nb addr : NeighborId).

Lemma py_div_Ok x y q : py_div x y = Ok q → ¬ (y == 0)%Q.
Proof.
  unfold py_div. destruct (Qeq_bool y 0) eqn:E; [intros [=]|].
  intros _ H. apply Qeq_bool_iff in H. congruence.
Qed.

Lemma feature_list_readable features ages nb fl :
  feature_list features ages nb = Ok fl → readable features nb.
Proof.
  unfold feature_list, py_getitem, readable.
  destruct (features !! nb) as [f|]; [|intros [=]]. cbn [obind].
  destruct (py_div 1 (cpu_percent f + _)) eqn:E1; [|intros [=]]. cbn [obind].
  destruct (py_div 1 (latency f + _)) eqn:E2; [|intros [=]].
  intros _. exists f. split_and!; [done|by eapply py_div_Ok..].
Qed.

Lemma feature_loop_readable features l : ∀ ages av fa ages1 x,
  feature_loop features l ages av fa = (ages1, Ok x) →
  Forall (readable features) l.
Proof.
  induction l as [|nb l IH]; intros ages av fa ages1 x H; [constructor|].
  cbn [feature_loop] in H.
  destruct (feature_list _ _ _) as [fl|e] eqn:E1; [|by inversion H].
  destruct (py_getitem features nb) as [f|e]; [|by inversion H].
  constructor; [by eapply feature_list_readable | by eapply IH].
Qed.

Lemma scores_of_Some self sc :
  scores_of self = Some sc →
  Forall (readable (features self)) (neighbors_list self) ∧
  feature_loop (features self) (neighbors_list self) (ages self) [] (replicate 7 [])
  = (foldl first_sighting (ages self) (neighbors_list self),
     Ok (spec_availability (features self) <$> neighbors_list self,
         (λ k, spec_feature (features self) (ages self) k <$> neighbors_list self)
           <$> seq 0 7)) ∧
  sc = compute_scores (length (neighbors_list self))
         (spec_availability (features self) <$> neighbors_list self)
         ((λ k, spec_feature (features self) (ages self) k <$> neighbors_list self)
            <$> seq 0 7).
Proof.
  intros H.
  assert (Forall (readable (features self)) (neighbors_list self)) as Hr.
  { unfold scores_of in H.
    destruct (feature_loop _ _ _ _ _) as [ages1 [[av fa]|e]] eqn:Hfl; [|done].
    by eapply feature_loop_readable. }
  split; [done|]. split; [by apply feature_loop_start|].
  unfold scores_of in H. rewrite feature_loop_start in H by done.
  by inversion H.
Qed.

Lemma sum_axis0_length n X :
  Forall (λ row, length row = n) X → length (sum_axis0 n X) = n.
Proof.
  unfold sum_axis0. induction 1 as [|row X Hrow _ IH]; cbn [foldr].
  - apply length_replicate.
  - rewrite length_zip_with, IH, Hrow. lia.
Qed.

Lemma compute_scores_lengths n av fa :
  length av = n → length fa = 7%nat → Forall (λ row, length row = n) fa →
  length (scores (compute_scores n av fa)) = n
  ∧ length (final_scores (compute_scores n av fa)) = n
  ∧ p (compute_scores n av fa)
    = normalize_row (final_scores (compute_scores n av fa))
  ∧ length (p (compute_scores n av fa)) = n.
Proof.
  intros Hav Hfa Hrows. unfold compute_scores. cbn [scores final_scores p].
  assert (length (sum_axis0 n (multiply_rows (normalize_l1 fa) FEATURE_WEIGHTS)) = n)
    as Hs.
  { apply sum_axis0_length. unfold multiply_rows, normalize_l1.
    apply Forall_forall. intros row Hin.
    apply list_elem_of_lookup in Hin as [i Hi].
    apply lookup_zip_with_Some in Hi as (r & w & -> & Hr & Hw).
    rewrite list_lookup_fmap in Hr.
    destruct (fa !! i) as [r0|] eqn:E; [|done]. inversion Hr; subst.
    unfold normalize_row. rewrite !length_fmap.
    rewrite Forall_forall in Hrows. apply Hrows.
    by eapply list_elem_of_lookup_2. }
  assert (length (zip_with Qmult
            (sum_axis0 n (multiply_rows (normalize_l1 fa) FEATURE_WEIGHTS)) av) = n)
    as Hf.
  { rewrite length_zip_with, Hs, Hav. lia. }
  split_and!; [done|done|done|].
  cbn. unfold normalize_row. by rewrite length_fmap.
Qed.

Lemma scores_of_lengths self sc :
  scores_of self = Some sc →
  length (final_scores sc) = length (neighbors_list self)
  ∧ p sc = normalize_row (final_scores sc)
  ∧ length (p sc) = length (neighbors_list self).
Proof.
  intros (_ & _ & ->)%scores_of_Some.
  destruct (compute_scores_lengths (length (neighbors_list self))
              (spec_availability (features self) <$> neighbors_list self)
              ((λ k, spec_feature (features self) (ages self) k <$> neighbors_list self)
                 <$> seq 0 7)) as (_ & H1 & H2 & H3).
  - by rewrite length_fmap.
  - done.
  - cbn [seq fmap list_fmap]. repeat constructor; by rewrite length_fmap.
  - done.
Qed.

Lemma Qsum_zero (l : list Q) : Forall (λ x, x == 0)%Q l → (Qsum l == 0)%Q.
Proof.
  induction 1 as [|x l Hx _ IH]; cbn; [reflexivity|].
  rewrite Hx, IH. reflexivity.
Qed.

Lemma normalize_row_zero (row : list Q) :
  Forall (λ x, x == 0)%Q row → Forall (λ x, x == 0)%Q (normalize_row row).
Proof.
  intros H. unfold normalize_row. apply Forall_fmap.
  eapply Forall_impl; [exact H|]. intros x Hx. cbn.
  rewrite Hx. unfold Qdiv. apply Qmult_0_l.
Qed.

Lemma Qltb_false_of_zero (l : list Q) :
  Forall (λ x, x == 0)%Q l → existsb (λ x, Qltb x 0) l = false.
Proof.
  induction 1 as [|x l Hx _ IH]; cbn; [done|].
  rewrite IH, orb_false_r. unfold Qltb.
  apply negb_false_iff, Qle_bool_iff. rewrite Hx. apply Qle_refl.
Qed.

Lemma random_choice_zero (a : list NeighborId) size replace pr draw :
  a ≠ [] → length pr = length a → Forall (λ x, x == 0)%Q pr →
  random_choice a size replace pr draw
  = Raise (ValueError "probabilities do not sum to 1").
Proof.
  intros Ha Hlen Hz. unfold random_choice.
  rewrite bool_decide_false by (by destruct a).
  rewrite bool_decide_false by (intros H; by apply H).
  rewrite Qltb_false_of_zero by done.
  assert (Qltb atol (Qabs (Qsum pr - 1)) = true) as ->; [|done].
  unfold Qltb. apply negb_true_iff. apply not_true_is_false.
  intros H. apply Qle_bool_iff in H.
  rewrite (Qsum_zero pr Hz) in H. vm_compute in H. by apply H.
Qed.

Lemma node_selection_degenerate draw self addr sc :
  neighbors_list self ≠ [] →
  scores_of self = Some sc →
  Forall (λ x, x == 0)%Q (final_scores sc) →
  node_selection draw self addr
  = (set_ages self (foldl first_sighting (ages self) (neighbors_list self)),
     Raise (ValueError "probabilities do not sum to 1")).
Proof.
  intros Hne Hsc Hz.
  destruct (scores_of_lengths self sc Hsc) as (Hl & Hp & Hlp).
  destruct (scores_of_Some self sc Hsc) as (_ & Hfl & Heq).
  unfold node_selection.
  rewrite bool_decide_false by (by destruct (neighbors_list self)).
  rewrite Hfl. rewrite <- Heq.
  rewrite random_choice_zero; [done|done|done|].
  rewrite Hp. by apply normalize_row_zero.
Qed.

Lemma zero_availability_scores self sc :
  scores_of self = Some sc →
  (∀ nb f, nb ∈ neighbors_list self → features self !! nb = Some f →
           (availability f == 0)%Q) →
  Forall (λ x, x == 0)%Q (final_scores sc).
Proof.
  intros (_ & _ & ->)%scores_of_Some Hav.
  unfold compute_scores. cbn [final_scores].
  apply Forall_forall. intros x Hx.
  apply list_elem_of_lookup in Hx as [i Hi].
  apply lookup_zip_with_Some in Hi as (s & a & -> & Hs & Ha).
  rewrite list_lookup_fmap in Ha.
  destruct (neighbors_list self !! i) as [nb|] eqn:E; [|done].
  inversion Ha; subst. unfold spec_availability.
  destruct (features self !! nb) as [f|] eqn:Ef.
  - rewrite (Hav nb f); [apply Qmult_0_r| by eapply list_elem_of_lookup_2 | done].
  - apply Qmult_0_r.
Qed.

End Degenerate.

(** ** When numpy accepts the distribution *)

Section Returns.

Implicit Types (self : Selector) (nb addr : NeighborId).

Lemma Qsum_nonneg_abs (l : list Q) :
  Forall (λ x, 0 <= x)%Q l → (Qsum (Qabs <$> l) == Qsum l)%Q.
Proof.
  induction 1 as [|x l Hx _ IH]; cbn; [reflexivity|].
  rewrite IH, (Qabs_pos x Hx). reflexivity.
Qed.

Lemma Qsum_div (l : list Q) (d : Q) :
  (Qsum ((λ x, x / d) <$> l) == Qsum l / d)%Q.
Proof.
  unfold Qsum. induction l as [|x l IH]; cbn [fmap list_fmap foldr].
  - unfold Qdiv. by rewrite Qmult_0_l.
  - rewrite IH. unfold Qdiv. ring.
Qed.

Lemma Qltb_true (x y : Q) : Qltb x y = true ↔ (x < y)%Q.
Proof.
  unfold Qltb. rewrite negb_true_iff. split.
  - intros H. apply Qnot_le_lt. intros Hle. apply Qle_bool_iff in Hle. congruence.
  - intros H. apply not_true_is_false. intros Hle%Qle_bool_iff.
    by apply Qlt_not_le in H.
Qed.

Lemma Qltb_false (x y : Q) : Qltb x y = false ↔ (y <= x)%Q.
Proof.
  unfold Qltb. rewrite negb_false_iff. apply Qle_bool_iff.
Qed.

Lemma count_nonzero_pos_norm (l : list Q) :
  Forall (λ x, 0 <= x)%Q l → (0 < count_nonzero l)%nat → (0 < l1_norm l)%Q.
Proof.
  unfold count_nonzero, l1_norm.
  induction 1 as [|x l Hx Hl IH]; cbn [filter list_filter fmap list_fmap Qsum foldr].
  - cbn. lia.
  - case_decide as Hpos.
    + intros _. apply Qltb_true in Hpos.
      apply Qlt_le_trans with (Qabs x + 0)%Q.
      * rewrite Qplus_0_r, (Qabs_pos x Hx). done.
      * apply Qplus_le_compat; [apply Qle_refl | apply Qsum_abs_nonneg].
    + intros H. specialize (IH H).
      apply Qlt_le_trans with (0 + Qsum (Qabs <$> l))%Q.
      * by rewrite Qplus_0_l.
      * apply Qplus_le_compat; [apply Qabs_nonneg | apply Qle_refl].
Qed.

Lemma count_nonzero_div (l : list Q) (d : Q) :
  (0 < d)%Q → count_nonzero ((λ x, x / d)%Q <$> l) = count_nonzero l.
Proof.
  intros Hd. unfold count_nonzero.
  induction l as [|x l IH]; [done|].
  rewrite fmap_cons, !filter_cons.
  assert (Qltb 0 (x / d) = Qltb 0 x) as Heq.
  { destruct (Qltb 0 x) eqn:E.
    - apply Qltb_true. apply Qltb_true in E.
      apply Qlt_shift_div_l; [done|]. by rewrite Qmult_0_l.
    - apply Qltb_false. apply Qltb_false in E.
      apply Qle_shift_div_r; [done|]. by rewrite Qmult_0_l. }
  rewrite Heq. destruct (decide (Qltb 0 x = true)); cbn [length]; by rewrite IH.
Qed.

Lemma random_choice_accepts (a : list NeighborId) size fs draw :
  a ≠ [] → length fs = length a →
  Forall (λ x, 0 <= x)%Q fs →
  (0 < size ≤ length a)%nat →
  (size ≤ count_nonzero fs)%nat →
  length (first_distinct [] size draw) = size →
  random_choice a size false (normalize_row fs) draw
  = Ok ((λ i, a !!! i) <$> first_distinct [] size draw).
Proof.
  intros Ha Hlen Hnn [Hs0 Hsn] Hcnt Hdraw.
  assert (0 < l1_norm fs)%Q as Hnorm.
  { apply count_nonzero_pos_norm; [done|lia]. }
  assert (handle_zeros_in_scale (l1_norm fs) = l1_norm fs) as Hhz.
  { unfold handle_zeros_in_scale.
    destruct (Qeq_bool (l1_norm fs) 0) eqn:E; [|done].
    apply Qeq_bool_iff in E. rewrite E in Hnorm. by apply Qlt_irrefl in Hnorm. }
  unfold random_choice, normalize_row. rewrite Hhz.
  rewrite bool_decide_false by (by destruct a).
  rewrite bool_decide_false by (rewrite length_fmap; intros H; by apply H).
  assert (existsb (λ x, Qltb x 0) ((λ x, x / l1_norm fs)%Q <$> fs) = false) as ->.
  { apply not_true_is_false. intros (x & Hx & Hneg)%existsb_exists.
    apply list_elem_of_In, list_elem_of_fmap in Hx as (y & -> & Hy).
    apply Qltb_true in Hneg. rewrite Forall_forall in Hnn.
    apply (Qlt_not_le _ _ Hneg). apply Qle_shift_div_l; [done|].
    rewrite Qmult_0_l. by apply Hnn. }
  assert (Qltb atol (Qabs (Qsum ((λ x, x / l1_norm fs)%Q <$> fs) - 1)) = false) as ->.
  { apply Qltb_false. rewrite Qsum_div. unfold l1_norm at 1.
    rewrite <- (Qsum_nonneg_abs fs Hnn).
    assert (Qsum (Qabs <$> fs) / l1_norm fs - 1 == 0)%Q as ->; [|done].
    unfold l1_norm. field. intros H0. unfold l1_norm in Hnorm.
    rewrite H0 in Hnorm. by apply Qlt_irrefl in Hnorm. }
  rewrite bool_decide_false by lia.
  rewrite count_nonzero_div by done.
  rewrite bool_decide_false by lia.
  unfold take_positions. by rewrite bool_decide_false by lia.
Qed.

Lemma update_ages_returns sel l : ∀ ages,
  (∀ nb, nb ∈ l → is_Some (ages !! nb)) →
  (update_ages l sel ages).2 = Ok ().
Proof.
  induction l as [|x l IH]; intros ages Hdom; cbn [update_ages]; [done|].
  case_bool_decide.
  - destruct (Hdom x) as [b Hb]; [by left|].
    unfold py_getitem. rewrite Hb. apply IH.
    intros nb Hnb. destruct (decide (x = nb)) as [->|Hne].
    + rewrite lookup_insert_eq. eauto.
    + rewrite lookup_insert_ne by done. apply Hdom. by right.
  - apply IH. intros nb Hnb. apply Hdom. by right.
Qed.

Lemma node_selection_returns draw self addr sc :
  neighbors_list self ≠ [] →
  scores_of self = Some sc →
  Forall (λ x, 0 <= x)%Q (final_scores sc) →
  (Z.to_nat (num_selected (neighbors_list self)) ≤ count_nonzero (final_scores sc))%nat →
  length (positions self draw) = Z.to_nat (num_selected (neighbors_list self)) →
  let chosen := (λ i, neighbors_list self !!! i) <$> positions self draw in
  node_selection draw self addr
  = (set_selected_nodes
       (set_ages self
          (update_ages (neighbors_list self) chosen
             (foldl first_sighting (ages self) (neighbors_list self))).1)
       (chosen ++ [addr]),
     Ok (chosen ++ [addr])).
Proof.
  intros Hne Hsc Hnn Hcnt Hdraw chosen.
  destruct (scores_of_lengths self sc Hsc) as (Hl & Hp & Hlp).
  destruct (scores_of_Some self sc Hsc) as (_ & Hfl & Heq).
  destruct (num_selected_bounds _ Hne) as [[Hmin _] Hmax].
  unfold MIN_AMOUNT_OF_SELECTED_NEIGHBORS in Hmin.
  unfold node_selection.
  rewrite bool_decide_false by (by destruct (neighbors_list self)).
  rewrite Hfl. rewrite <- Heq. rewrite Hp.
  rewrite random_choice_accepts; [|done|done|done|lia|done|done].
  fold (positions self draw).
  pose proof (update_ages_returns chosen (neighbors_list self)
                (foldl first_sighting (ages self) (neighbors_list self))) as Hup.
  fold chosen.
  destruct (update_ages _ _ _) as [ages2 r]. cbn in Hup.
  rewrite Hup; [done|].
  intros nb Hnb. rewrite foldl_first_sighting_lookup.
  rewrite decide_True by done. eauto.
Qed.

End Returns.

(** ** Telemetry in range *)

Section InRange.

Context (features : gmap NeighborId FeatureSnapshot) (ages : gmap NeighborId Z).
Hypothesis ages_ge_1 : ∀ nb a, ages !! nb = Some a → (1 ≤ a)%Z.

Lemma age_of_ge_1 nb : (1 ≤ age_of ages nb)%Z.
Proof.
  unfold age_of. destruct (ages !! nb) eqn:E; cbn; [by eapply ages_ge_1|lia].
Qed.

Lemma Qinv_eps_nonneg (x : Q) : (0 <= x)%Q → (0 <= 1 / (x + (1 # 1000000)))%Q.
Proof.
  intros Hx. apply Qle_shift_div_l.
  - apply Qlt_le_trans with (0 + (1 # 1000000))%Q; [done|].
    apply Qplus_le_compat; [done|apply Qle_refl].
  - rewrite Qmult_0_l. done.
Qed.

Lemma eps_nonzero (x : Q) : (0 <= x)%Q → ¬ (x + (1 # 1000000) == 0)%Q.
Proof.
  intros Hx H0.
  assert (0 < x + (1 # 1000000))%Q as Hlt.
  { apply Qlt_le_trans with (0 + (1 # 1000000))%Q; [done|].
    apply Qplus_le_compat; [done|apply Qle_refl]. }
  rewrite H0 in Hlt. by apply Qlt_irrefl in Hlt.
Qed.

Lemma measured_readable nb : measured features nb → readable features nb.
Proof.
  intros (f & Hf & _ & Hc & _ & _ & _ & Hl & _).
  exists f. split_and!; [done|by apply eps_nonzero..].
Qed.

Lemma spec_feature_nonneg k nb :
  measured features nb → (0 <= spec_feature features ages k nb)%Q.
Proof.
  intros (f & Hf & Hloss & Hc & Hd & Hbr & Hbs & Hl & Ha).
  unfold spec_feature. rewrite Hf. unfold spec_feature_vector.
  destruct k as [|[|[|[|[|[|[|k]]]]]]]; cbn [lookup_total list_lookup_total].
  - destruct (Qeq_bool (loss f) (-1)) eqn:E; [done|].
    destruct Hloss as [H|H]; [|done].
    apply Qeq_bool_iff in H. congruence.
  - by apply Qinv_eps_nonneg.
  - done.
  - done.
  - done.
  - by apply Qinv_eps_nonneg.
  - pose proof (age_of_ge_1 nb). unfold Qle. cbn. lia.
  - cbn. done.
Qed.

Lemma spec_age_pos nb :
  measured features nb → (0 < spec_feature features ages 6 nb)%Q.
Proof.
  intros (f & Hf & _). unfold spec_feature. rewrite Hf.
  cbn [spec_feature_vector lookup_total list_lookup_total].
  pose proof (age_of_ge_1 nb). unfold Qlt. cbn. lia.
Qed.

Lemma Qsum_abs_ge (l : list Q) (x : Q) : x ∈ l → (Qabs x <= Qsum (Qabs <$> l))%Q.
Proof.
  induction l as [|y l IH]; intros Hx; [by apply elem_of_nil in Hx|].
  cbn. apply elem_of_cons in Hx as [->|Hx].
  - rewrite <- (Qplus_0_r (Qabs y)) at 1.
    apply Qplus_le_compat; [apply Qle_refl|apply Qsum_abs_nonneg].
  - rewrite <- (Qplus_0_l (Qabs x)).
    apply Qplus_le_compat; [apply Qabs_nonneg|by apply IH].
Qed.

Lemma spec_normalized_nonneg neighbors k nb :
  measured features nb → (0 <= spec_normalized features ages neighbors k nb)%Q.
Proof.
  intros Hm. unfold spec_normalized, Qdiv.
  apply Qmult_le_0_compat; [by apply spec_feature_nonneg|].
  apply Qinv_le_0_compat.
  rewrite (list_fmap_compose (spec_feature features ages k) Qabs).
  apply Qsum_abs_nonneg.
Qed.

Lemma spec_normalized_age_pos neighbors nb :
  measured features nb → nb ∈ neighbors →
  (0 < spec_normalized features ages neighbors 6 nb)%Q.
Proof.
  intros Hm Hin. unfold spec_normalized.
  pose proof (spec_age_pos nb Hm) as Hpos.
  apply Qlt_shift_div_l; [|by rewrite Qmult_0_l].
  eapply Qlt_le_trans; [exact Hpos|].
  rewrite (list_fmap_compose (spec_feature features ages 6) Qabs).
  eapply Qle_trans; [apply Qle_Qabs|].
  apply Qsum_abs_ge. apply list_elem_of_fmap. eauto.
Qed.

Lemma spec_weighted_sum_pos neighbors nb :
  measured features nb → nb ∈ neighbors →
  (0 < Qsum ((λ k, (FEATURE_WEIGHTS !!! k)
                   * spec_normalized features ages neighbors k nb) <$> seq 0 7))%Q.
Proof.
  intros Hm Hin.
  pose proof (λ k, spec_normalized_nonneg neighbors k nb Hm) as Hnn.
  pose proof (spec_normalized_age_pos neighbors nb Hm Hin) as H6.
  unfold FEATURE_WEIGHTS.
  cbn [seq fmap list_fmap Qsum foldr lookup_total list_lookup_total].
  pose proof (Hnn 0%nat) as H0. pose proof (Hnn 1%nat) as H1.
  pose proof (Hnn 2%nat) as H2. pose proof (Hnn 3%nat) as H3.
  pose proof (Hnn 4%nat) as H4. pose proof (Hnn 5%nat) as H5.
  lra.
Qed.

End InRange.

Section Total.

Implicit Types (self : Selector) (nb addr : NeighborId).

Lemma final_scores_spec self sc :
  scores_of self = Some sc →
  Forall2 (λ s nb, s == spec_score (features self) (ages self) (neighbors_list self) nb)%Q
    (final_scores sc) (neighbors_list self).
Proof.
  intros Hsc. apply Forall2_same_length_lookup. split.
  - by destruct (scores_of_lengths self sc Hsc) as (-> & _).
  - intros j s nb Hs Hnb.
    destruct (scores_of_Some self sc Hsc) as (_ & _ & ->).
    destruct (final_scores_formula (features self) (ages self)
                (neighbors_list self) j nb Hnb) as (w & _ & _ & Hs' & Heq).
    cbn [seq fmap list_fmap] in Hs. rewrite Hs' in Hs. by inversion Hs; subst.
Qed.

Lemma spec_score_sign self nb :
  (∀ nb a, ages self !! nb = Some a → (1 ≤ a)%Z) →
  measured (features self) nb → nb ∈ neighbors_list self →
  (0 <= spec_score (features self) (ages self) (neighbors_list self) nb)%Q
  ∧ (Qltb 0 (spec_score (features self) (ages self) (neighbors_list self) nb) = true
     ↔ available (features self) nb).
Proof.
  intros Hge Hm Hin. unfold spec_score, spec_weighted_sum, available.
  pose proof (spec_weighted_sum_pos (features self) (ages self) Hge
                (neighbors_list self) nb Hm Hin) as Hw.
  assert (0 <= spec_availability (features self) nb)%Q as Ha.
  { destruct Hm as (f & Hf & Hr). unfold spec_availability. rewrite Hf. apply Hr. }
  set (w := Qsum _) in *. set (a := spec_availability _ _) in *.
  split.
  - apply Qmult_le_0_compat; [by apply Qlt_le_weak|done].
  - rewrite !Qltb_true. split.
    + intros H. destruct (Qlt_le_dec 0 a) as [|Hle]; [done|].
      assert (a == 0)%Q as H0 by (by apply Qle_antisym).
      rewrite H0, Qmult_0_r in H. by apply Qlt_irrefl in H.
    + intros H. rewrite <- (Qmult_0_l a).
      apply Qmult_lt_compat_r; done.
Qed.

Lemma count_nonzero_pointwise (score : NeighborId → Q) (P : NeighborId → Prop)
    `{!∀ x, Decision (P x)} (fs : list Q) (l : list NeighborId) :
  Forall2 (λ s nb, s == score nb)%Q fs l →
  (∀ nb, nb ∈ l → (0 <= score nb)%Q ∧ (Qltb 0 (score nb) = true ↔ P nb)) →
  Forall (λ x, 0 <= x)%Q fs ∧ count_nonzero fs = length (filter P l).
Proof.
  unfold count_nonzero.
  induction 1 as [|s nb fs l Hs HF IH]; intros Hall.
  - split; [constructor|done].
  - destruct IH as [IH1 IH2]; [intros; apply Hall; by right|].
    destruct (Hall nb) as [Hnn Hpos]; [by left|].
    split.
    + constructor; [by rewrite Hs|done].
    + rewrite !filter_cons.
      assert (Qltb 0 s = Qltb 0 (score nb)) as Heq.
      { unfold Qltb. f_equal.
        destruct (Qle_bool (score nb) 0) eqn:E1.
        - apply Qle_bool_iff. apply Qle_bool_iff in E1. by rewrite Hs.
        - apply not_true_is_false. intros Hq%Qle_bool_iff.
          rewrite Hs in Hq. apply Qle_bool_iff in Hq. congruence. }
      rewrite Heq.
      destruct (decide (Qltb 0 (score nb) = true)) as [Hp|Hp].
      * rewrite decide_True by (by apply Hpos). cbn [length]. by rewrite IH2.
      * rewrite decide_False by (by rewrite <- Hpos). done.
Qed.

Lemma final_scores_in_range self sc :
  (∀ nb a, ages self !! nb = Some a → (1 ≤ a)%Z) →
  Forall (measured (features self)) (neighbors_list self) →
  scores_of self = Some sc →
  Forall (λ x, 0 <= x)%Q (final_scores sc)
  ∧ count_nonzero (final_scores sc)
    = length (filter (available (features self)) (neighbors_list self)).
Proof.
  intros Hge Hm Hsc.
  apply (count_nonzero_pointwise
           (spec_score (features self) (ages self) (neighbors_list self))).
  - by apply final_scores_spec.
  - intros nb Hin. apply spec_score_sign; [done| |done].
    rewrite Forall_forall in Hm. by apply Hm.
Qed.

Lemma scores_of_measured self :
  Forall (measured (features self)) (neighbors_list self) →
  is_Some (scores_of self).
Proof.
  intros Hm. unfold scores_of. rewrite feature_loop_start; [eauto|].
  eapply Forall_impl; [exact Hm|]. apply measured_readable.
Qed.

Lemma node_selection_total draw self addr :
  neighbors_list self ≠ [] →
  (∀ nb a, ages self !! nb = Some a → (1 ≤ a)%Z) →
  Forall (measured (features self)) (neighbors_list self) →
  (Z.to_nat (num_selected (neighbors_list self))
   ≤ length (filter (available (features self)) (neighbors_list self)))%nat →
  (Z.to_nat (num_selected (neighbors_list self)) ≤ length (remove_dups draw))%nat →
  let chosen := (λ i, neighbors_list self !!! i) <$> positions self draw in
  node_selection draw self addr
  = (set_selected_nodes
       (set_ages self
          (update_ages (neighbors_list self) chosen
             (foldl first_sighting (ages self) (neighbors_list self))).1)
       (chosen ++ [addr]),
     Ok (chosen ++ [addr])).
Proof.
  intros Hne Hge Hm Hcnt Hdraw.
  destruct (scores_of_measured self Hm) as [sc Hsc].
  destruct (final_scores_in_range self sc Hge Hm Hsc) as [Hnn Hc].
  eapply node_selection_returns; [done|done|done|by rewrite Hc|].
  by apply positions_enough.
Qed.

(** A neighbor that is measured and available has a positive probability. *)
Lemma p_lookup_positive self sc j nb :
  (∀ nb a, ages self !! nb = Some a → (1 ≤ a)%Z) →
  Forall (measured (features self)) (neighbors_list self) →
  scores_of self = Some sc →
  neighbors_list self !! j = Some nb →
  available (features self) nb →
  ∃ x, p sc !! j = Some x ∧ (0 < x)%Q.
Proof.
  intros Hge Hm Hsc Hj Hav.
  pose proof (final_scores_spec self sc Hsc) as HF.
  destruct (Forall2_lookup_r _ _ _ _ _ HF Hj) as (s & Hs & Heq).
  assert (nb ∈ neighbors_list self) as Hin by (by eapply list_elem_of_lookup_2).
  assert (measured (features self) nb) as Hmb.
  { rewrite Forall_forall in Hm. by apply Hm. }
  destruct (spec_score_sign self nb Hge Hmb Hin) as [_ Hpos].
  assert (0 < s)%Q as Hs0.
  { rewrite Heq. apply Qltb_true. by apply Hpos. }
  destruct (scores_of_lengths self sc Hsc) as (_ & -> & _).
  assert (0 < l1_norm (final_scores sc))%Q as Hnorm.
  { eapply Qlt_le_trans; [exact Hs0|].
    eapply Qle_trans; [apply Qle_Qabs|].
    apply Qsum_abs_ge. by eapply list_elem_of_lookup_2. }
  assert (handle_zeros_in_scale (l1_norm (final_scores sc))
          = l1_norm (final_scores sc)) as Hhz.
  { unfold handle_zeros_in_scale.
    destruct (Qeq_bool (l1_norm (final_scores sc)) 0) eqn:E; [|done].
    apply Qeq_bool_iff in E. rewrite E in Hnorm. by apply Qlt_irrefl in Hnorm. }
  unfold normalize_row. rewrite Hhz, list_lookup_fmap, Hs.
  eexists. split; [done|].
  apply Qlt_shift_div_l; [done|]. by rewrite Qmult_0_l.
Qed.

(** Distinct positions of available neighbors, as many as are to be
    chosen, are a draw numpy can make. *)
Lemma valid_draw_of_available self draw :
  (∀ nb a, ages self !! nb = Some a → (1 ≤ a)%Z) →
  Forall (measured (features self)) (neighbors_list self) →
  Forall (λ i, ∃ nb, neighbors_list self !! i = Some nb
                     ∧ available (features self) nb) draw →
  valid_draw self draw.
Proof.
  intros Hge Hm Hav sc Hsc. unfold is_sample.
  eapply Forall_impl; [exact Hav|]. intros i (nb & Hi & Hnb). cbn.
  destruct (p_lookup_positive self sc i nb Hge Hm Hsc Hi Hnb) as (x & -> & Hx).
  exact Hx.
Qed.

End Total.

(** ** A call that raises *)

Section Raises.

Implicit Types (self : Selector) (nb addr : NeighborId).


End Raises.

(** ** The properties of the specification *)

Section Claims.

Implicit Types (self : Selector) (nb addr : NeighborId).

(** C1.  When every final score is zero, [node_selection] does not fall
    back to a uniform distribution: [normalize] leaves the zero vector as
    it is, numpy rejects it, and the call raises for every draw, with the
    first sightings already written to [self.ages]. *)
Theorem degenerate_distribution_raises draw self addr sc :
  neighbors_list self ≠ [] →
  scores_of self = Some sc →
  Forall (λ x, x == 0)%Q (final_scores sc) →
  node_selection draw self addr
  = (set_ages self (foldl first_sighting (ages self) (neighbors_list self)),
     Raise (ValueError "probabilities do not sum to 1")).
Proof. apply node_selection_degenerate. Qed.




End Claims.

(** ** Runs on five neighbors *)

Import Fixtures.

Section FixtureFacts.

Lemma five_distinct : NoDup five.
Proof. by apply (bool_decide_unpack _). Qed.

Lemma five_nonempty : five ≠ [].
Proof. done. Qed.

Lemma telemetry_measured avail :
  (0 <= avail)%Q → Forall (measured (telemetry avail)) five.
Proof.
  intros Ha. unfold five.
  repeat constructor; (exists (snapshot avail); split; [reflexivity|]);
    unfold in_range; cbn; split_and!; try done; by right.
Qed.

Lemma telemetry_readable avail : Forall (readable (telemetry avail)) five.
Proof.
  unfold five.
  repeat constructor; (exists (snapshot avail); split; [reflexivity|]); by cbn.
Qed.

Lemma selector_down_scores :
  ∃ sc, scores_of selector_down = Some sc.
Proof.
  unfold scores_of, selector_down. cbn [features neighbors_list ages].
  rewrite feature_loop_start by apply telemetry_readable. eauto.
Qed.

(** The first four of five available neighbors are a draw numpy can make,
    whatever the ages. *)
Lemma first_four_valid (a : gmap NeighborId Z) (s : list NeighborId) :
  (∀ nb x, a !! nb = Some x → (1 ≤ x)%Z) →
  valid_draw (mkSelector five (telemetry 1) a s) [0; 1; 2; 3]%nat.
Proof.
  intros Hge. apply valid_draw_of_available; cbn [ages features neighbors_list].
  - exact Hge.
  - by apply telemetry_measured.
  - repeat constructor; eexists; (split; [reflexivity|]); reflexivity.
Qed.

(** One round on the five neighbors returns the first four and [me]. *)
Lemma first_four_round self :
  (∀ nb x, ages self !! nb = Some x → (1 ≤ x)%Z) →
  play self first_four
  = (mkSelector five (telemetry 1)
       (update_ages five ["a"; "b"; "c"; "d"]%string
          (foldl first_sighting (ages self) five)).1
       ["a"; "b"; "c"; "d"; "me"]%string,
     Ok ["a"; "b"; "c"; "d"; "me"]%string).
Proof.
  intros Hge. unfold play.
  pose proof (node_selection_total (round_draw first_four) (refresh self first_four)
                (round_addr first_four)) as Hrun.
  cbn [refresh first_four round_neighbors round_features round_draw round_addr
       neighbors_list features ages] in Hrun.
  cbn [refresh first_four round_neighbors round_features round_draw round_addr].
  rewrite Hrun; [reflexivity|exact five_nonempty|exact Hge| | |].
  - by apply telemetry_measured.
  - vm_compute. lia.
  - vm_compute. lia.
Qed.

Lemma snoc_round (rounds : list Round) (r : Round) :
  play_all fresh (rounds ++ [r]) = (play (play_all fresh rounds) r).1.
Proof. unfold play_all. by rewrite foldl_app. Qed.

Lemma reachable_ge_1 (rounds : list Round) :
  ∀ nb x, ages (play_all fresh rounds) !! nb = Some x → (1 ≤ x)%Z.
Proof.
  apply play_all_ge_1. intros nb x. unfold fresh. cbn [ages].
  by rewrite lookup_empty.
Qed.

(** The neighbor that is never chosen: its age after [k] rounds is
    [2 k + 1], that is 1, 3, 5, 7, ... *)
Lemma never_chosen_age (k : nat) :
  age_of (ages (play_all fresh (replicate k first_four))) "e"
  = (2 * Z.of_nat k + 1)%Z.
Proof.
  induction k as [|k IH]; [reflexivity|].
  rewrite replicate_S_end, snoc_round.
  rewrite first_four_round by apply reachable_ge_1. cbn [fst ages].
  destruct (update_ages_exact ["a"; "b"; "c"; "d"]%string five
              (foldl first_sighting
                 (ages (play_all fresh (replicate k first_four))) five))
    as [_ Hlk]; [exact five_distinct| |].
  { intros x Hx. rewrite foldl_first_sighting_lookup.
    rewrite decide_True by done. eauto. }
  unfold age_of at 1. rewrite (Hlk "e"%string) by (by apply (bool_decide_unpack _)).
  rewrite foldl_first_sighting_lookup.
  rewrite decide_True by (by apply (bool_decide_unpack _)).
  cbn [fmap option_fmap option_map default from_option id].
  rewrite IH. rewrite bool_decide_false; [lia|].
  by apply (bool_decide_unpack _).
Qed.

(** A neighbor that is chosen every round stays at age 1. *)
Lemma always_chosen_age (k : nat) :
  age_of (ages (play_all fresh (replicate k first_four))) "a" = 1%Z.
Proof.
  induction k as [|k IH]; [reflexivity|].
  rewrite replicate_S_end, snoc_round.
  rewrite first_four_round by apply reachable_ge_1. cbn [fst ages].
  destruct (update_ages_exact ["a"; "b"; "c"; "d"]%string five
              (foldl first_sighting
                 (ages (play_all fresh (replicate k first_four))) five))
    as [_ Hlk]; [exact five_distinct| |].
  { intros x Hx. rewrite foldl_first_sighting_lookup.
    rewrite decide_True by done. eauto. }
  unfold age_of at 1. rewrite (Hlk "a"%string) by (by apply (bool_decide_unpack _)).
  rewrite foldl_first_sighting_lookup.
  rewrite decide_True by (by apply (bool_decide_unpack _)).
  cbn [fmap option_fmap option_map default from_option id].
  rewrite IH. rewrite bool_decide_true; [lia|].
  by apply (bool_decide_unpack _).
Qed.

End FixtureFacts.

Section FiveNeighbors.

Lemma selector_down_zero sc :
  scores_of selector_down = Some sc →
  Forall (λ x, x == 0)%Q (final_scores sc).
Proof.
  intros Hsc. apply (zero_availability_scores selector_down sc Hsc).
  intros nb f Hin Hf. cbn [neighbors_list selector_down] in Hin.
  unfold five in Hin. cbn [features selector_down] in Hf.
  repeat (apply elem_of_cons in Hin as [->|Hin];
          [vm_compute in Hf; by injection Hf as <-|]).
  by apply elem_of_nil in Hin.
Qed.

(** Five neighbors, all with availability 0: the call raises. *)
Lemma degenerate_distribution_witness :
  neighbors_list selector_down ≠ []
  ∧ (node_selection [0; 1; 2; 3]%nat selector_down "me").2
    = Raise (ValueError "probabilities do not sum to 1").
Proof.
  split; [exact five_nonempty|].
  destruct selector_down_scores as [sc Hsc].
  by rewrite (degenerate_distribution_raises [0; 1; 2; 3]%nat selector_down "me" sc
                five_nonempty Hsc (selector_down_zero sc Hsc)).
Defined.


Lemma selector_up_run :
  (node_selection [0; 1; 2; 3]%nat selector_up "me").2
  = Ok ["a"; "b"; "c"; "d"; "me"]%string.
Proof.
  change (node_selection [0; 1; 2; 3]%nat selector_up "me")
    with (play fresh first_four).
  by rewrite first_four_round by apply (reachable_ge_1 []).
Qed.







(** The run of the specification: five neighbors, one never chosen; its
    age goes 1, 3, 5, 7. *)
Example never_chosen_ages :
  (λ k, age_of (ages (play_all fresh (replicate k first_four))) "e")
    <$> [0; 1; 2; 3]%nat
  = [1; 3; 5; 7]%Z.
Proof. cbn [fmap list_fmap]. by rewrite !never_chosen_age. Qed.

(** With one neighbor, one is chosen: max(1, floor(0.8)) = 1. *)
Example num_selected_examples :
  (λ k, num_selected (replicate k "n"%string)) <$> [1; 2; 3; 5; 10]%nat
  = [1; 1; 2; 4; 8]%Z.
Proof. reflexivity. Qed.

End FiveNeighbors.

End SelectorProofs.

(** * The dispatchers: proofs *)

Module DispatchProofs.

Import Aggregation.

Section Routing.

Context {collaborators : Collaborators}.

Local Abbreviation Dynamic := DynamicAggregator_run_aggregation.
Local Abbreviation Reactive := ReactiveAggregator_run_aggregation.
Local Abbreviation Instance_run := instance_run_aggregation.

Implicit Types (self : Aggregator) (models : Models) (eng : Engine).

Lemma dynamic_run rnd self models eng reactive :
  engine self = Some eng →
  base_run_aggregation models = Ok () →
  ∃ tag,
    Dynamic rnd self models reactive
    = ([LogInfo "[DynamicAggregator] Initializing Aggregation";
        BaseRunAggregation models;
        LogInfo "[DynamicAggregator] Chosen Aggregator";
        LogText tag (TextClsName (random_choice rnd)) (round eng);
        Executed (random_choice rnd) models],
       strategy_run (random_choice rnd) models)
    ∧ tag = if reactive
            then "[ReactiveAggregator] Using DynamicAggregator: Chosen Aggregator"%string
            else "[DynamicAggregator] Chosen Aggregator"%string.
Proof.
  intros He Hb. unfold DynamicAggregator_run_aggregation, get_engine, call, emit, bind.
  rewrite He, Hb. cbn.
  destruct reactive; cbn; eexists; split; reflexivity.
Qed.

Lemma reactive_under_attack rnd self models eng malicious_nodes score :
  engine self = Some eng →
  base_run_aggregation models = Ok () →
  reputation_calculation eng models = Ok (malicious_nodes, score) →
  malicious_nodes ≠ [] →
  Reactive rnd self models
  = ([LogInfo "[ReactiveAggregator] Initializing Aggregation";
      BaseRunAggregation models;
      ReputationCalculation models;
      LogInfo "[ReactiveAggregator] Detected Malicious Nodes";
      LogText "[ReactiveAggregator] Malicious nodes" (TextNodes malicious_nodes)
        (round eng);
      LogInfo "[ReactiveAggregator] Malicious Node - Using Dynamic Aggregator"]
     ++ (Dynamic rnd (mkAggregator (config self) (Some eng)) models true).1,
     (Dynamic rnd (mkAggregator (config self) (Some eng)) models true).2).
Proof.
  intros He Hb Hr Hm.
  destruct (dynamic_run rnd (mkAggregator (config self) (Some eng)) models eng true)
    as (tag & -> & ->); [done|done|].
  unfold ReactiveAggregator_run_aggregation, get_engine, call, emit, bind.
  rewrite He, Hb. cbn. rewrite Hr. cbn.
  rewrite bool_decide_true by (destruct malicious_nodes; [done|cbn; lia]).
  unfold DynamicAggregator_run_aggregation, get_engine, call, emit, bind.
  rewrite Hb. cbn. reflexivity.
Qed.

Lemma reactive_clean rnd self models eng score :
  engine self = Some eng →
  base_run_aggregation models = Ok () →
  reputation_calculation eng models = Ok ([], score) →
  let name := reactive_aggregator_default (config self) in
  let fallback :=
    match ALGORITHM_MAP !! name with
    | Some _ => []
    | None =>
        [LogError
           "[ReactiveAggregator] Invalid default aggregator, falling back to FedAvg"]
    end in
  let cls := default FedAvg (ALGORITHM_MAP !! name) in
  Reactive rnd self models
  = ([LogInfo "[ReactiveAggregator] Initializing Aggregation";
      BaseRunAggregation models;
      ReputationCalculation models;
      LogInfo "[ReactiveAggregator] No Malicious Nodes Detected";
      LogText "[ReactiveAggregator] Malicious nodes" TextNone (round eng);
      LogInfo "[ReactiveAggregator] Normal Node - Using Aggregator"]
     ++ fallback ++ (Instance_run rnd cls (config self) models).1,
     (Instance_run rnd cls (config self) models).2).
Proof.
  intros He Hb Hr. cbn zeta.
  unfold ReactiveAggregator_run_aggregation, get_engine, call, emit, bind.
  rewrite He, Hb. cbn -[lookup ALGORITHM_MAP]. rewrite Hr. cbn -[lookup ALGORITHM_MAP bool_decide]. rewrite (bool_decide_false (0 < 0)%nat) by lia.
  destruct (ALGORITHM_MAP !! reactive_aggregator_default (config self))
    as [cls|] eqn:Hlk.
  - rewrite bool_decide_false by done. cbn -[lookup ALGORITHM_MAP]. rewrite Hlk. cbn -[lookup ALGORITHM_MAP].
    by destruct (Instance_run rnd cls (config self) models).
  - rewrite bool_decide_true by done. cbn -[lookup ALGORITHM_MAP instance_run_aggregation].
    change (ALGORITHM_MAP !! "FedAvg"%string) with (Some FedAvg).
    cbn -[instance_run_aggregation].
    by destruct (instance_run_aggregation _ _ _ _).
Qed.

End Routing.

Section DispatchClaims.

Context {collaborators : Collaborators}.

Local Abbreviation Dynamic := DynamicAggregator_run_aggregation.
Local Abbreviation Reactive := ReactiveAggregator_run_aggregation.
Local Abbreviation Instance_run := instance_run_aggregation.

Implicit Types (self : Aggregator) (models : Models) (eng : Engine).

Lemma executions_app (tr1 tr2 : list event) :
  executions (tr1 ++ tr2) = executions tr1 ++ executions tr2.
Proof. unfold executions. apply omap_app. Qed.

Lemma dynamic_executions rnd self models eng reactive :
  engine self = Some eng →
  base_run_aggregation models = Ok () →
  executions (Dynamic rnd self models reactive).1 = [(random_choice rnd, models)]
  ∧ (Dynamic rnd self models reactive).2 = strategy_run (random_choice rnd) models.
Proof.
  intros He Hb.
  destruct (dynamic_run rnd self models eng reactive He Hb) as (tag & -> & _).
  done.
Qed.

(** C2.  With the reputation result in hand, the run is routed by it
    alone.  A non-empty malicious set: the whole update set goes to the
    dynamic aggregator with [reactive_aggregator = True], the one strategy
    that runs is the one drawn there, and the configured default is not
    read.  An empty one: the configured name is looked up and the run is
    that class's. *)
Theorem reactive_routing rnd self models eng malicious_nodes score :
  engine self = Some eng →
  base_run_aggregation models = Ok () →
  reputation_calculation eng models = Ok (malicious_nodes, score) →
  let run := Reactive rnd self models in
  (malicious_nodes ≠ [] →
     let dyn := Dynamic rnd (mkAggregator (config self) (Some eng)) models true in
     (∃ pre, run = (pre ++ dyn.1, dyn.2) ∧ executions pre = [])
     ∧ executions run.1 = [(random_choice rnd, models)]
     ∧ random_choice rnd ∈ available_aggregators
     ∧ LogText "[ReactiveAggregator] Using DynamicAggregator: Chosen Aggregator"
         (TextClsName (random_choice rnd)) (round eng) ∈ run.1
     ∧ ∀ default, Reactive rnd (mkAggregator (mkConfig default) (engine self)) models
                  = run)
  ∧ (malicious_nodes = [] →
     ∀ cls, ALGORITHM_MAP !! reactive_aggregator_default (config self) = Some cls →
       let inst := Instance_run rnd cls (config self) models in
       (∃ pre, run = (pre ++ inst.1, inst.2) ∧ executions pre = [])
       ∧ (cls ≠ DynamicAggregator →
          executions run.1 = [(cls, models)] ∧ run.2 = strategy_run cls models)).
Proof.
  intros He Hb Hr run. split.
  - intros Hm. cbn zeta.
    pose proof (reactive_under_attack rnd self models eng malicious_nodes score
                  He Hb Hr Hm) as Hrun.
    destruct (dynamic_run rnd (mkAggregator (config self) (Some eng)) models eng true)
      as (tag & Hdyn & ->); [done|done|].
    split_and!.
    + eexists. split; [exact Hrun|done].
    + unfold run. rewrite Hrun, Hdyn. done.
    + unfold random_choice, available_aggregators.
      apply list_elem_of_lookup_total_2. cbn.
      pose proof (fin_to_nat_lt rnd) as Hlt. exact Hlt.
    + unfold run. rewrite Hrun, Hdyn. cbn [fst]. set_solver.
    + intros default. unfold run. rewrite Hrun, Hdyn.
      rewrite (reactive_under_attack rnd (mkAggregator (mkConfig default) (engine self))
                 models eng malicious_nodes score); [|exact He|done|done|done].
      destruct (dynamic_run rnd (mkAggregator (mkConfig default) (Some eng)) models
                  eng true) as (tag & Hdyn' & ->); [done|done|].
      cbn [config]. by rewrite Hdyn'.
  - intros -> cls Hcls. cbn zeta.
    pose proof (reactive_clean rnd self models eng score He Hb Hr) as Hrun.
    cbn zeta in Hrun. rewrite Hcls in Hrun. cbn [default from_option id] in Hrun.
    rewrite app_nil_l in Hrun.
    split.
    + eexists. split; [exact Hrun|done].
    + intros Hne. unfold run. rewrite Hrun.
      destruct cls; done.
Qed.

(** C3 as the code has it.  When the reputation collaborator raises, the
    run ends there: the exception reaches the caller, no strategy runs,
    and nothing is logged after the call. *)
Theorem reputation_failure_propagates rnd self models eng e :
  engine self = Some eng →
  base_run_aggregation models = Ok () →
  reputation_calculation eng models = Raise e →
  Reactive rnd self models
  = ([LogInfo "[ReactiveAggregator] Initializing Aggregation";
      BaseRunAggregation models;
      ReputationCalculation models],
     Raise e)
  ∧ executions (Reactive rnd self models).1 = [].
Proof.
  intros He Hb Hr.
  assert (Reactive rnd self models
          = ([LogInfo "[ReactiveAggregator] Initializing Aggregation";
              BaseRunAggregation models;
              ReputationCalculation models],
             Raise e)) as Hrun.
  { unfold ReactiveAggregator_run_aggregation, get_engine, call, emit, bind.
    rewrite He, Hb. cbn -[lookup ALGORITHM_MAP]. by rewrite Hr. }
  by rewrite Hrun.
Qed.

(** C7.  On a clean round with a default name that [ALGORITHM_MAP] does
    not have, the run logs one error and is the run of [FedAvg], which the
    map does have: [FedAvg] is the one strategy that runs, on the update
    set, and its outcome is the outcome. *)
Theorem unknown_default_falls_back_to_FedAvg rnd self models eng score :
  engine self = Some eng →
  base_run_aggregation models = Ok () →
  reputation_calculation eng models = Ok ([], score) →
  ALGORITHM_MAP !! reactive_aggregator_default (config self) = None →
  let run := Reactive rnd self models in
  run.2 = strategy_run FedAvg models
  ∧ executions run.1 = [(FedAvg, models)]
  ∧ errors_logged run.1
    = ["[ReactiveAggregator] Invalid default aggregator, falling back to FedAvg"%string]
  ∧ ALGORITHM_MAP !! "FedAvg"%string = Some FedAvg.
Proof.
  intros He Hb Hr Hmiss run.
  pose proof (reactive_clean rnd self models eng score He Hb Hr) as Hrun.
  cbn zeta in Hrun. rewrite Hmiss in Hrun. cbn [default from_option] in Hrun.
  unfold run. rewrite Hrun. done.
Qed.

(** C8.  Under attack the strategy drawn is run on the update set that
    came in: what is delegated is [models] itself, flagged updates
    included. *)
Theorem flagged_updates_are_delegated rnd self models eng malicious_nodes score :
  engine self = Some eng →
  base_run_aggregation models = Ok () →
  reputation_calculation eng models = Ok (malicious_nodes, score) →
  malicious_nodes ≠ [] →
  let run := Reactive rnd self models in
  executions run.1 = [(random_choice rnd, models)]
  ∧ run.2 = strategy_run (random_choice rnd) models
  ∧ (∀ cls delegated, (cls, delegated) ∈ executions run.1 → delegated = models)
  ∧ (∀ cls delegated nb u, (cls, delegated) ∈ executions run.1 →
       nb ∈ malicious_nodes → (nb, u) ∈ models → (nb, u) ∈ delegated).
Proof.
  intros He Hb Hr Hm run.
  pose proof (reactive_under_attack rnd self models eng malicious_nodes score
                He Hb Hr Hm) as Hrun.
  destruct (dynamic_run rnd (mkAggregator (config self) (Some eng)) models eng true)
    as (tag & Hdyn & ->); [done|done|].
  assert (executions run.1 = [(random_choice rnd, models)]) as Hex.
  { unfold run. rewrite Hrun, Hdyn. done. }
  split_and!.
  - exact Hex.
  - unfold run. rewrite Hrun, Hdyn. done.
  - intros cls delegated. rewrite Hex.
    intros Hin%list_elem_of_singleton. by inversion Hin.
  - intros cls delegated nb u. rewrite Hex.
    intros Hin%list_elem_of_singleton _ Hu. by inversion Hin; subst.
Qed.

End DispatchClaims.

(** ** Runs on three updates *)

Import Fixtures.

Local Existing Instance numbered.

Lemma reactive_routing_witness :
  engine (reactive "Krum" engine_attack) = Some engine_attack
  ∧ base_run_aggregation updates = Ok ()
  ∧ reputation_calculation engine_attack updates = Ok (["b"%string], 1 # 2)
  ∧ executions
      (ReactiveAggregator_run_aggregation third (reactive "Krum" engine_attack)
         updates).1
    = [(Median, updates)].
Proof.
  split_and!; [reflexivity..|].
  destruct (reactive_routing third (reactive "Krum" engine_attack) updates
              engine_attack ["b"%string] (1 # 2) eq_refl eq_refl eq_refl)
    as [Hattack _].
  destruct (Hattack ltac:(done)) as (_ & Hex & _).
  exact Hex.
Defined.

(** The collaborator raises: the run raises with it and runs nothing, so
    it is not a run of the dynamic aggregator. *)
Lemma fail_closed_counterexample :
  (ReactiveAggregator_run_aggregation third (reactive "Krum" engine_down) updates).2
  = Raise (CollaboratorError "reputation unavailable")
  ∧ executions
      (ReactiveAggregator_run_aggregation third (reactive "Krum" engine_down)
         updates).1 = []
  ∧ ¬ ∃ pre,
        ReactiveAggregator_run_aggregation third (reactive "Krum" engine_down) updates
        = (pre ++ (DynamicAggregator_run_aggregation third
                     (mkAggregator (mkConfig "Krum") (Some engine_down))
                     updates true).1,
           (DynamicAggregator_run_aggregation third
              (mkAggregator (mkConfig "Krum") (Some engine_down)) updates true).2).
Proof.
  split_and!; [reflexivity..|].
  intros [pre Hpre]. apply (f_equal snd) in Hpre. vm_compute in Hpre. discriminate.
Qed.

Lemma reputation_failure_witness :
  engine (reactive "Krum" engine_down) = Some engine_down
  ∧ base_run_aggregation updates = Ok ()
  ∧ reputation_calculation engine_down updates
    = Raise (CollaboratorError "reputation unavailable")
  ∧ executions
      (ReactiveAggregator_run_aggregation third (reactive "Krum" engine_down)
         updates).1 = [].
Proof.
  split_and!; [reflexivity..|].
  exact (proj2 (reputation_failure_propagates third (reactive "Krum" engine_down)
                  updates engine_down _ eq_refl eq_refl eq_refl)).
Defined.

Lemma unknown_default_witness :
  engine (reactive "FedProx" engine_clean) = Some engine_clean
  ∧ base_run_aggregation updates = Ok ()
  ∧ reputation_calculation engine_clean updates = Ok ([], 1%Q)
  ∧ ALGORITHM_MAP !! "FedProx"%string = None
  ∧ (ReactiveAggregator_run_aggregation third (reactive "FedProx" engine_clean)
       updates).2 = Ok 0%Z.
Proof.
  split_and!; [reflexivity..|].
  exact (proj1 (unknown_default_falls_back_to_FedAvg third
                  (reactive "FedProx" engine_clean) updates engine_clean 1%Q
                  eq_refl eq_refl eq_refl eq_refl)).
Defined.

Lemma flagged_updates_witness :
  engine (reactive "Krum" engine_attack) = Some engine_attack
  ∧ base_run_aggregation updates = Ok ()
  ∧ reputation_calculation engine_attack updates = Ok (["b"%string], 1 # 2)
  ∧ ["b"%string] ≠ []
  ∧ ∀ cls delegated,
      (cls, delegated)
      ∈ executions
          (ReactiveAggregator_run_aggregation third (reactive "Krum" engine_attack)
             updates).1 →
      ("b"%string, (-700)%Z) ∈ delegated.
Proof.
  split_and!; [reflexivity..|done|].
  destruct (flagged_updates_are_delegated third (reactive "Krum" engine_attack)
              updates engine_attack ["b"%string] (1 # 2) eq_refl eq_refl eq_refl
              ltac:(done)) as (_ & _ & _ & Hkept).
  intros cls delegated Hin.
  apply (Hkept cls delegated "b"%string (-700)%Z Hin); [by left|by right; left].
Defined.

(** A clean round with a default the map has runs that default. *)
Example clean_round_runs_default :
  executions
    (ReactiveAggregator_run_aggregation third (reactive "Krum" engine_clean)
       updates).1
  = [(Krum, updates)].
Proof. reflexivity. Qed.

End DispatchProofs.

(** * The model base class: proofs *)

Module ModelProofs.

Import NebulaModel.

Section Loss.

Context {torch : Torch}.

Implicit Types (self : NebulaModel).

Ltac crush_loss :=
  repeat first
    [ progress cbn [fst snd drop loss set_metrics set_global_number set_loss
                    reset_train reset_val reset_test then_]
    | match goal with
      | |- context [match ?x with _ => _ end] => destruct x eqn:?
      | |- context [if ?b then _ else _] => destruct b eqn:?
      end ];
  try reflexivity.

Lemma process_metrics_loss self phase y_pred y :
  loss (process_metrics self phase y_pred y).1 = loss self.
Proof. unfold process_metrics, get_cm. crush_loss. Qed.

Lemma generate_confusion_matrix_loss self phase print_cm plot_cm :
  loss (generate_confusion_matrix self phase print_cm plot_cm).1
  = loss self.
Proof. unfold generate_confusion_matrix, get_cm. crush_loss. Qed.

Lemma bump_loss self phase :
  loss (bump self phase).1 = loss self.
Proof. unfold bump, phase_number. crush_loss. Qed.

Lemma step_loss self batch phase :
  loss (step self batch phase).1 = loss self.
Proof.
  unfold step. destruct batch as [x y].
  destruct (forward x) as [y_pred|e]; [|done].
  destruct (criterion y_pred y) as [l|e]; [|done].
  pose proof (process_metrics_loss self phase y_pred y) as H.
  by destruct (process_metrics _ _ _ _) as [self1 [[]|e]].
Qed.

Lemma then_loss (r : NebulaModel * outcome unit)
    (k : NebulaModel → NebulaModel * outcome unit)
    (l : Q) :
  loss r.1 = l → (∀ s, loss s = l → loss (k s).1 = l) →
  loss (then_ r k).1 = l.
Proof. destruct r as [s [[]|e]]; cbn; auto. Qed.

Lemma invoke_loss standalone self c :
  ¬ is_training_step c →
  loss (invoke standalone self c) = loss self.
Proof.
  intros Hc. destruct c; cbn [invoke drop]; try done.
  - apply step_loss.
  - unfold test_step. case_bool_decide; apply step_loss.
  - apply step_loss.
  - apply process_metrics_loss.
  - apply generate_confusion_matrix_loss.
  - unfold on_train_end. destruct standalone; [done|apply bump_loss].
  - unfold on_train_epoch_end. apply then_loss; [done|].
    intros s <-. destruct standalone; [|done].
    by rewrite bump_loss.
  - unfold on_validation_end. destruct standalone; [done|apply bump_loss].
  - unfold on_validation_epoch_end. apply then_loss; [done|].
    intros s <-. destruct standalone; [|done].
    apply then_loss; [apply bump_loss|]. by intros s' <-.
  - unfold on_test_end. apply then_loss; [apply bump_loss|].
    intros s <-. apply bump_loss.
  - unfold on_test_epoch_end.
    apply then_loss; [done|]. intros s1 <-.
    apply then_loss; [done|]. intros s2 <-.
    apply then_loss; [apply generate_confusion_matrix_loss|]. intros s3 <-.
    apply then_loss; [apply generate_confusion_matrix_loss|]. by intros s4 <-.
Qed.

Lemma invoke_all_loss standalone calls : ∀ self,
  Forall (λ c, ¬ is_training_step c) calls →
  loss (invoke_all standalone self calls) = loss self.
Proof.
  induction calls as [|c calls IH]; intros self Hall; [done|].
  apply Forall_cons in Hall as [Hc Hall].
  cbn [invoke_all foldl]. unfold invoke_all in IH. rewrite IH by done.
  by apply invoke_loss.
Qed.

Lemma training_step_loss self batch :
  loss (training_step self batch).1
  = match (training_step self batch).2 with
    | Ok l => l
    | Raise _ => loss self
    end.
Proof.
  unfold training_step.
  pose proof (step_loss self batch "Train") as H.
  by destruct (step self batch "Train") as [self1 [l|e]].
Qed.

End Loss.

Section LossClaim.

Context {torch : Torch}.

(** C10.  A new model has loss -1; calls other than [training_step] leave
    it there; a [training_step] that returns stores the loss it computed,
    and one that raises stores nothing; and -1 is the loss the selector
    reads as 100. *)
Theorem loss_is_unavailable_until_trained (standalone : bool)
    (input_channels num_classes : Z) (learning_rate : Q)
    (metrics : option Metrics) (confusion_matrix : option ConfusionMatrix)
    (calls : list method) :
  Forall (λ c, ¬ is_training_step c) calls →
  let new := init input_channels num_classes learning_rate metrics confusion_matrix in
  let m := invoke_all standalone new calls in
  loss new = (-1)%Q
  ∧ loss m = (-1)%Q
  ∧ (∀ batch l, (training_step m batch).2 = Ok l →
       loss (training_step m batch).1 = l)
  ∧ (∀ batch e, (training_step m batch).2 = Raise e →
       loss (training_step m batch).1 = (-1)%Q)
  ∧ (∀ features ages nb f fl,
       features !! nb = Some f →
       PrioritySelector.loss f = loss m →
       PrioritySelector.feature_list features ages nb = Ok fl →
       fl !! 0%nat = Some 100%Q).
Proof.
  intros Hcalls new m.
  assert (loss m = (-1)%Q) as Hm.
  { unfold m. by rewrite invoke_all_loss. }
  split_and!.
  - done.
  - exact Hm.
  - intros batch l Hl. rewrite training_step_loss. by rewrite Hl.
  - intros batch e He. rewrite training_step_loss. by rewrite He.
  - intros features ages nb f fl Hf Hloss.
    unfold PrioritySelector.feature_list, PrioritySelector.py_getitem.
    rewrite Hf. cbn [obind].
    destruct (PrioritySelector.py_div 1 _) as [c|]; [|done]. cbn [obind].
    destruct (PrioritySelector.py_div 1 _) as [l|]; [|done]. cbn [obind].
    destruct (ages !! nb) as [a|]; [|done]. cbn [obind].
    rewrite Hloss, Hm. cbn. by intros [= <-].
Qed.

End LossClaim.

Import Fixtures.

Local Existing Instance counting.

Lemma loss_witness :
  Forall (λ c, ¬ @is_training_step counting c)
    [Validation_step (3, 5)%Z; On_validation_end; Log_metrics_end "Train"]
  ∧ loss (invoke_all false (init 1 10 (1 # 1000) None None)
            [Validation_step (3, 5)%Z; On_validation_end; Log_metrics_end "Train"])
    = (-1)%Q
  ∧ loss (training_step
            (invoke_all false (init 1 10 (1 # 1000) None None)
               [Validation_step (3, 5)%Z; On_validation_end; Log_metrics_end "Train"])
            (3, 5)%Z).1
    = 2%Q.
Proof.
  assert (Forall (λ c, ¬ @is_training_step counting c)
            [Validation_step (3, 5)%Z; On_validation_end; Log_metrics_end "Train"])
    as Hcalls by (do 3 (constructor; [exact (λ H : False, H)|]); constructor).
  split; [exact Hcalls|].
  destruct (@loss_is_unavailable_until_trained counting false 1 10 (1 # 1000)
              None None _ Hcalls) as (_ & Hm & Htrain & _).
  split; [exact Hm|].
  by apply Htrain.
Defined.

End ModelProofs.

(** * The selector: errors, probabilities and ages *)

Module SelectorBehaviour.

Import PrioritySelector SelectorProofs.

Local Arguments spec_feature : simpl never.

Section Unreadable.

Implicit Types (self : Selector) (nb addr : NeighborId).

Lemma feature_list_unreadable features ages nb :
  ¬ readable features nb →
  feature_list features ages nb = Raise (unreadable_exn features nb).
Proof.
  intros Hnr. unfold feature_list, unreadable_exn, py_getitem.
  destruct (features !! nb) as [f|] eqn:Hf; [|done]. cbn [obind].
  unfold py_div.
  destruct (Qeq_bool (cpu_percent f + _) 0) eqn:Ec; [done|]. cbn [obind].
  destruct (Qeq_bool (latency f + _) 0) eqn:El; [done|].
  exfalso. apply Hnr. exists f. split_and!; [done| |].
  - intros H%Qeq_bool_iff. congruence.
  - intros H%Qeq_bool_iff. congruence.
Qed.

Lemma feature_loop_unreadable features pre nb post : ∀ ages av fa,
  Forall (readable features) pre →
  ¬ readable features nb →
  feature_loop features (pre ++ nb :: post) ages av fa
  = (foldl first_sighting ages (pre ++ [nb]), Raise (unreadable_exn features nb)).
Proof.
  induction pre as [|x pre IH]; intros ages av fa Hpre Hnb.
  - cbn [app feature_loop foldl]. by rewrite feature_list_unreadable.
  - apply Forall_cons in Hpre as [(f & Hf & Hc & Hl) Hpre].
    cbn [app feature_loop foldl].
    rewrite (feature_list_ok features _ x f (age_of ages x)); try done;
      [|apply first_sighting_lookup].
    unfold py_getitem at 1. rewrite Hf. by apply IH.
Qed.

(** X1.  The first neighbor whose telemetry cannot be read ends the call:
    [KeyError] when it has no entry in [self.features], [ZeroDivisionError]
    when its [cpu_percent] or [latency] is -1e-6.  The neighbors up to and
    including it have had their first sighting, the ones after it have
    not, and [self.selected_nodes] is as before. *)
Theorem first_unreadable_neighbor_raises draw self addr pre nb post :
  neighbors_list self = pre ++ nb :: post →
  Forall (readable (features self)) pre →
  ¬ readable (features self) nb →
  node_selection draw self addr
  = (set_ages self (foldl first_sighting (ages self) (pre ++ [nb])),
     Raise (unreadable_exn (features self) nb)).
Proof.
  intros Hl Hpre Hnb. unfold node_selection.
  rewrite bool_decide_false by (rewrite Hl, length_app; cbn; lia).
  rewrite Hl. by rewrite feature_loop_unreadable.
Qed.

End Unreadable.

Section Frame.

Implicit Types (self : Selector) (nb addr : NeighborId).

(** X2.  A call never changes [self.neighbors_list] or [self.features];
    it assigns [self.selected_nodes] exactly when it returns, and then
    with the list it returns; and with no neighbors it returns [addr]
    alone and leaves the ages as they are. *)
Theorem node_selection_frame_of_fields draw self addr :
  let out := node_selection draw self addr in
  neighbors_list out.1 = neighbors_list self
  ∧ features out.1 = features self
  ∧ (∀ sel, out.2 = Ok sel → selected_nodes out.1 = sel)
  ∧ (∀ e, out.2 = Raise e → selected_nodes out.1 = selected_nodes self)
  ∧ (neighbors_list self = [] → out.2 = Ok [addr] ∧ ages out.1 = ages self).
Proof.
  cbn zeta. unfold node_selection.
  case_bool_decide as Hn.
  { cbn. split_and!; try done. by intros sel [= <-]. }
  assert (neighbors_list self ≠ []) as Hne.
  { intros H0. by rewrite H0 in Hn. }
  destruct (feature_loop _ _ _ _ _) as [ages1 [[av fa]|e]]; cbn;
    [|by split_and!].
  destruct (random_choice _ _ _ _ _) as [sel|e]; cbn; [|by split_and!].
  destruct (update_ages _ _ _) as [ages2 [[]|e]]; cbn; [|by split_and!].
  split_and!; try done. by intros ? [= <-].
Qed.

End Frame.

Section Probabilities.

Implicit Types (self : Selector) (nb addr : NeighborId).

(** The probability of the neighbor at position [j]. *)
Lemma p_lookup self sc j nb :
  scores_of self = Some sc →
  neighbors_list self !! j = Some nb →
  ∃ s, final_scores sc !! j = Some s
       ∧ (s == spec_score (features self) (ages self) (neighbors_list self) nb)%Q
       ∧ p sc !! j
         = Some (s / handle_zeros_in_scale (l1_norm (final_scores sc)))%Q.
Proof.
  intros Hsc Hj.
  pose proof (final_scores_spec self sc Hsc) as HF.
  destruct (Forall2_lookup_r _ _ _ _ _ HF Hj) as (s & Hs & Heq).
  destruct (scores_of_lengths self sc Hsc) as (_ & -> & _).
  exists s. split_and!; [done|done|].
  unfold normalize_row. by rewrite list_lookup_fmap, Hs.
Qed.

(** X3.  A neighbor whose availability is 0 is never chosen: in a
    selection that is returned, every chosen neighbor has telemetry with a
    non-zero availability. *)
Theorem unavailable_never_chosen draw self addr chosen :
  neighbors_list self ≠ [] →
  valid_draw self draw →
  (node_selection draw self addr).2 = Ok (chosen ++ [addr]) →
  ∀ nb, nb ∈ chosen →
    ∃ f, features self !! nb = Some f ∧ ¬ (availability f == 0)%Q.
Proof.
  intros Hne Hvalid Hrun nb Hnb.
  destruct (node_selection_result draw self addr _ Hne Hrun)
    as (sc & Hsc & Hlen & _ & Hsel).
  apply app_inj_tail in Hsel as [-> _].
  apply list_elem_of_fmap in Hnb as (i & -> & Hi).
  destruct (positions_sample self (p sc) draw (Hvalid sc Hsc)) as [_ Hpos].
  unfold is_sample in Hpos.
  rewrite Forall_forall in Hpos. specialize (Hpos i Hi).
  destruct (p sc !! i) as [x|] eqn:Hx; [|done].
  assert (neighbors_list self !! i = Some (neighbors_list self !!! i)) as Hlk.
  { apply list_lookup_lookup_total_lt. rewrite <- Hlen. by eapply lookup_lt_Some. }
  set (nb := neighbors_list self !!! i) in *.
  destruct (p_lookup self sc i nb Hsc Hlk) as (s & Hs & Heq & Hp).
  rewrite Hp in Hx. injection Hx as <-.
  destruct (scores_of_Some self sc Hsc) as (Hr & _ & _).
  rewrite Forall_forall in Hr.
  destruct (Hr nb) as (f & Hf & _); [by eapply list_elem_of_lookup_2|].
  exists f. split; [done|]. intros H0.
  assert (s == 0)%Q as Hs0.
  { rewrite Heq. unfold spec_score, spec_availability. rewrite Hf, H0.
    apply Qmult_0_r. }
  rewrite Hs0 in Hpos. unfold Qdiv in Hpos. rewrite Qmult_0_l in Hpos.
  by apply Qlt_irrefl in Hpos.
Qed.

Lemma handle_zeros_pos (x : Q) : (0 < x)%Q → handle_zeros_in_scale x = x.
Proof.
  intros Hx. unfold handle_zeros_in_scale.
  destruct (Qeq_bool x 0) eqn:E; [|done].
  apply Qeq_bool_iff in E. rewrite E in Hx. by apply Qlt_irrefl in Hx.
Qed.

Lemma normalize_row_distribution (fs : list Q) :
  Forall (λ x, 0 <= x)%Q fs → (0 < count_nonzero fs)%nat →
  Forall (λ x, 0 <= x)%Q (normalize_row fs) ∧ (Qsum (normalize_row fs) == 1)%Q
  ∧ count_nonzero (normalize_row fs) = count_nonzero fs.
Proof.
  intros Hnn Hcnt.
  pose proof (count_nonzero_pos_norm fs Hnn Hcnt) as Hnorm.
  unfold normalize_row. rewrite (handle_zeros_pos _ Hnorm).
  split_and!.
  - apply Forall_fmap. eapply Forall_impl; [exact Hnn|]. intros x Hx. cbn.
    apply Qle_shift_div_l; [done|]. by rewrite Qmult_0_l.
  - rewrite Qsum_div. unfold l1_norm at 1.
    rewrite <- (Qsum_nonneg_abs fs Hnn). unfold l1_norm.
    field. intros H0. unfold l1_norm in Hnorm. rewrite H0 in Hnorm.
    by apply Qlt_irrefl in Hnorm.
  - by apply count_nonzero_div.
Qed.

(** X4.  With telemetry in range and at least one available neighbor, the
    vector given to numpy is a probability distribution over the neighbor
    list: one entry per neighbor, none negative, summing to 1, and
    positive exactly at the available neighbors. *)
Theorem selection_probabilities self :
  (∀ nb a, ages self !! nb = Some a → (1 ≤ a)%Z) →
  Forall (measured (features self)) (neighbors_list self) →
  (0 < length (filter (available (features self)) (neighbors_list self)))%nat →
  ∃ sc, scores_of self = Some sc
    ∧ length (p sc) = length (neighbors_list self)
    ∧ Forall (λ x, 0 <= x)%Q (p sc)
    ∧ (Qsum (p sc) == 1)%Q
    ∧ ∀ j nb, neighbors_list self !! j = Some nb →
        ∃ x, p sc !! j = Some x ∧ ((0 < x)%Q ↔ available (features self) nb).
Proof.
  intros Hge Hm Hav.
  destruct (scores_of_measured self Hm) as [sc Hsc].
  destruct (final_scores_in_range self sc Hge Hm Hsc) as [Hnn Hc].
  destruct (scores_of_lengths self sc Hsc) as (Hl & Hp & Hlp).
  rewrite <- Hc in Hav.
  destruct (normalize_row_distribution _ Hnn Hav) as (Hpnn & Hsum & _).
  exists sc. rewrite Hp. split_and!; [done|by rewrite <- Hp|done|done|].
  intros j nb Hj.
  destruct (p_lookup self sc j nb Hsc Hj) as (s & Hs & Heq & Hpj).
  rewrite Hp in Hpj. eexists. split; [exact Hpj|].
  pose proof (count_nonzero_pos_norm _ Hnn Hav) as Hnorm.
  rewrite (handle_zeros_pos _ Hnorm).
  assert (nb ∈ neighbors_list self) as Hin by (by eapply list_elem_of_lookup_2).
  assert (measured (features self) nb) as Hmb.
  { rewrite Forall_forall in Hm. by apply Hm. }
  destruct (spec_score_sign self nb Hge Hmb Hin) as [_ Hpos].
  rewrite <- Hpos, Qltb_true, <- Heq. split.
  - intros Hx. destruct (Qlt_le_dec 0 s) as [|Hle]; [done|].
    exfalso. apply (Qlt_not_le _ _ Hx).
    apply Qle_shift_div_r; [done|]. by rewrite Qmult_0_l.
  - intros Hs0. apply Qlt_shift_div_l; [done|]. by rewrite Qmult_0_l.
Qed.

Lemma random_choice_too_few (a : list NeighborId) size fs draw :
  a ≠ [] → length fs = length a →
  Forall (λ x, 0 <= x)%Q fs →
  (size ≤ length a)%nat →
  (0 < count_nonzero fs < size)%nat →
  random_choice a size false (normalize_row fs) draw
  = Raise (ValueError "Fewer non-zero entries in p than size").
Proof.
  intros Ha Hlen Hnn Hsn [Hc0 Hcs].
  destruct (normalize_row_distribution fs Hnn Hc0) as (Hpnn & Hsum & Hcnt).
  unfold random_choice.
  rewrite bool_decide_false by (by destruct a).
  rewrite bool_decide_false
    by (unfold normalize_row; rewrite length_fmap; intros H; by apply H).
  assert (existsb (λ x, Qltb x 0) (normalize_row fs) = false) as ->.
  { apply not_true_is_false. intros (x & Hx & Hneg)%existsb_exists.
    apply list_elem_of_In in Hx. rewrite Forall_forall in Hpnn.
    apply Qltb_true in Hneg. by apply (Qlt_not_le _ _ Hneg), Hpnn. }
  assert (Qltb atol (Qabs (Qsum (normalize_row fs) - 1)) = false) as ->.
  { apply Qltb_false. rewrite Hsum. done. }
  rewrite bool_decide_false by lia.
  rewrite Hcnt. by rewrite bool_decide_true by lia.
Qed.

(** X5.  With telemetry in range, when some but fewer than [num_selected]
    neighbors are available the call raises numpy's [ValueError]: it does
    not select fewer neighbors. *)
Theorem too_few_available_raises draw self addr :
  (∀ nb a, ages self !! nb = Some a → (1 ≤ a)%Z) →
  Forall (measured (features self)) (neighbors_list self) →
  (0 < length (filter (available (features self)) (neighbors_list self))
   < Z.to_nat (num_selected (neighbors_list self)))%nat →
  node_selection draw self addr
  = (set_ages self (foldl first_sighting (ages self) (neighbors_list self)),
     Raise (ValueError "Fewer non-zero entries in p than size")).
Proof.
  intros Hge Hm Hcnt.
  assert (neighbors_list self ≠ []) as Hne.
  { intros H0. rewrite H0 in Hcnt. cbn in Hcnt. lia. }
  destruct (scores_of_measured self Hm) as [sc Hsc].
  destruct (final_scores_in_range self sc Hge Hm Hsc) as [Hnn Hc].
  destruct (scores_of_lengths self sc Hsc) as (Hl & Hp & Hlp).
  destruct (scores_of_Some self sc Hsc) as (_ & Hfl & Heq).
  destruct (num_selected_bounds _ Hne) as [_ Hmax].
  unfold node_selection.
  rewrite bool_decide_false by (by destruct (neighbors_list self)).
  rewrite Hfl. rewrite <- Heq. rewrite Hp.
  rewrite random_choice_too_few; [done|done|done|done|lia|].
  by rewrite Hc.
Qed.

End Probabilities.

Section Parity.

Implicit Types (ages : gmap NeighborId Z) (self : Selector) (nb addr : NeighborId).

Lemma first_sighting_odd ages nb :
  (∀ x a, ages !! x = Some a → Z.odd a = true) →
  ∀ x a, first_sighting ages nb !! x = Some a → Z.odd a = true.
Proof.
  intros Hodd x a. unfold first_sighting.
  destruct (ages !! nb) eqn:E; [apply Hodd|].
  destruct (decide (nb = x)) as [->|Hne].
  - rewrite lookup_insert_eq. by intros [= <-].
  - rewrite lookup_insert_ne by done. apply Hodd.
Qed.

Lemma foldl_first_sighting_odd l : ∀ ages,
  (∀ x a, ages !! x = Some a → Z.odd a = true) →
  ∀ x a, foldl first_sighting ages l !! x = Some a → Z.odd a = true.
Proof.
  induction l as [|nb l IH]; intros ages Hodd; [done|].
  cbn [foldl]. apply IH. by apply first_sighting_odd.
Qed.

Lemma update_ages_odd sel l : ∀ ages,
  (∀ x a, ages !! x = Some a → Z.odd a = true) →
  ∀ x a, (update_ages l sel ages).1 !! x = Some a → Z.odd a = true.
Proof.
  induction l as [|nb l IH]; intros ages Hodd; cbn [update_ages]; [done|].
  case_bool_decide; [|by apply IH].
  unfold py_getitem. destruct (ages !! nb) as [b|] eqn:E; [|done].
  apply IH. intros x a. destruct (decide (nb = x)) as [->|Hne].
  - rewrite lookup_insert_eq. intros [= <-].
    rewrite Z.odd_add. rewrite (Hodd x b E). done.
  - rewrite lookup_insert_ne by done. apply Hodd.
Qed.

(** X6.  Every age a selector ever holds is odd: a first sighting writes 1
    and every change after it adds 2, whatever the neighbor lists, the
    telemetry and the draws of the rounds, and whether they return or
    raise. *)
Theorem ages_are_odd (rounds : list Round) :
  ∀ nb a, ages (play_all fresh rounds) !! nb = Some a →
    Z.odd a = true ∧ (1 ≤ a)%Z.
Proof.
  intros nb a Ha. split; [|by eapply reachable_ge_1].
  revert nb a Ha.
  assert (∀ self, (∀ x a, ages self !! x = Some a → Z.odd a = true) →
            ∀ x a, ages (play_all self rounds) !! x = Some a → Z.odd a = true)
    as Hgen.
  { induction rounds as [|r rounds IH]; intros self Hodd; [done|].
    cbn [play_all foldl]. apply IH. unfold play.
    destruct (node_selection_ages (round_draw r) (refresh self r) (round_addr r))
      as (pre & upd & sel & _ & _ & ->).
    apply update_ages_odd, foldl_first_sighting_odd. exact Hodd. }
  apply Hgen. intros x a. unfold fresh. cbn [ages]. by rewrite lookup_empty.
Qed.

End Parity.

Section Growth.

Implicit Types (ages : gmap NeighborId Z) (self : Selector) (nb addr : NeighborId).

Lemma total_age_pointwise (ages ages' : gmap NeighborId Z) (δ : NeighborId → Z)
    (l : list NeighborId) :
  (∀ nb, nb ∈ l → age_of ages' nb = (age_of ages nb + δ nb)%Z) →
  total_age ages' l = (total_age ages l + foldr Z.add 0 (δ <$> l))%Z.
Proof.
  unfold total_age. induction l as [|x l IH]; intros H; [done|].
  cbn [fmap list_fmap foldr]. rewrite H by (by left).
  rewrite IH by (intros nb Hnb; apply H; by right). lia.
Qed.

Lemma sum_indicator (chosen l : list NeighborId) :
  foldr Z.add 0%Z
    ((λ nb, if bool_decide (nb ∈ chosen) then 0 else 2)%Z <$> l)
  = (2 * Z.of_nat (length (filter (λ nb, nb ∉ chosen) l)))%Z.
Proof.
  induction l as [|x l IH]; [done|].
  cbn [fmap list_fmap foldr]. rewrite IH, filter_cons.
  case_bool_decide.
  - rewrite decide_False by (intros Hn; by apply Hn). lia.
  - rewrite decide_True by done. cbn [length]. lia.
Qed.

Lemma length_filter_chosen (chosen l : list NeighborId) :
  NoDup l → NoDup chosen → chosen ⊆ l →
  length (filter (λ nb, nb ∉ chosen) l) = (length l - length chosen)%nat.
Proof.
  intros Hl Hc Hsub.
  pose proof (filter_app_complement (λ nb, nb ∈ chosen) l) as Hperm.
  apply Permutation_length in Hperm. rewrite length_app in Hperm.
  assert (filter (λ nb, nb ∈ chosen) l ≡ₚ chosen) as Hch.
  { apply NoDup_Permutation; [by apply NoDup_filter|done|].
    intros x. rewrite list_elem_of_filter. split; [by intros [? ?]|].
    intros Hx. split; [done|by apply Hsub]. }
  apply Permutation_length in Hch. lia.
Qed.

(** X7.  A round that returns, on [n] distinct neighbors, adds
    [2 * (n - num_selected)] to the sum of their ages (a first sighting
    counting as 1 before the round); with two or more neighbors that is
    at least 2, so some neighbor ages in every such round. *)
Theorem total_age_growth draw self addr sel :
  neighbors_list self ≠ [] →
  NoDup (neighbors_list self) →
  valid_draw self draw →
  (node_selection draw self addr).2 = Ok sel →
  let n := Z.of_nat (length (neighbors_list self)) in
  total_age (ages (node_selection draw self addr).1) (neighbors_list self)
  = (total_age (ages self) (neighbors_list self)
     + 2 * (n - num_selected (neighbors_list self)))%Z
  ∧ (2 ≤ n → num_selected (neighbors_list self) < n)%Z.
Proof.
  intros Hne Hnd Hvalid Hrun n.
  destruct (node_selection_result draw self addr sel Hne Hrun)
    as (sc & Hsc & Hlen & Hpos & ->).
  destruct (positions_sample self (p sc) draw (Hvalid sc Hsc)) as [Hndp Hsp].
  destruct (sample_chosen (neighbors_list self) (p sc) _ (positions self draw)
              Hlen Hnd Hpos Hndp Hsp) as (Hsz & Hndc & Hsub).
  set (chosen := (λ i, neighbors_list self !!! i) <$> positions self draw) in *.
  destruct (num_selected_bounds _ Hne) as [[Hmin _] Hmax].
  unfold MIN_AMOUNT_OF_SELECTED_NEIGHBORS in Hmin.
  split.
  - assert (node_selection draw self addr
            = ((node_selection draw self addr).1, Ok (chosen ++ [addr]))) as Hpair.
    { rewrite <- Hrun. by destruct (node_selection _ _ _). }
    pose proof (node_selection_returns_ages draw self addr _ chosen Hne Hpair)
      as Hages.
    destruct (update_ages_exact chosen (neighbors_list self)
                (foldl first_sighting (ages self) (neighbors_list self)))
      as [_ Hlk]; [done| |].
    { intros x Hx. rewrite foldl_first_sighting_lookup.
      rewrite decide_True by done. eauto. }
    rewrite (total_age_pointwise (ages self) _
               (λ nb, if bool_decide (nb ∈ chosen) then 0 else 2)%Z).
    + rewrite sum_indicator, length_filter_chosen by done.
      rewrite Hsz. unfold n. lia.
    + intros nb Hnb. unfold age_of at 1. rewrite Hages, Hlk by done.
      rewrite foldl_first_sighting_lookup. by rewrite decide_True by done.
  - unfold n, num_selected. rewrite num_selected_floor.
    unfold MIN_AMOUNT_OF_SELECTED_NEIGHBORS.
    generalize (Z.of_nat (length (neighbors_list self))). intros m Hm.
    Z.div_mod_to_equations. lia.
Qed.

End Growth.

Section Order.

Implicit Types (self : Selector) (nb addr : NeighborId).

Lemma Qsum_Permutation (l l' : list Q) : l ≡ₚ l' → (Qsum l == Qsum l')%Q.
Proof.
  unfold Qsum. induction 1 as [|x l l' _ IH|x y l|l l' l'' _ IH1 _ IH2]; cbn [foldr].
  - reflexivity.
  - by rewrite IH.
  - ring.
  - by rewrite IH1.
Qed.

Lemma Qsum_fmap_ext {A} (f g : A → Q) (l : list A) :
  (∀ x, x ∈ l → (f x == g x)%Q) → (Qsum (f <$> l) == Qsum (g <$> l))%Q.
Proof.
  unfold Qsum. induction l as [|x l IH]; intros Hfg; cbn [fmap list_fmap foldr].
  - reflexivity.
  - rewrite (Hfg x) by (by left). rewrite IH; [reflexivity|].
    intros y Hy. apply Hfg. by right.
Qed.

Lemma l1_norm_Forall2 {A} (g : A → Q) (xs : list Q) (l : list A) :
  Forall2 (λ s a, s == g a)%Q xs l →
  (l1_norm xs == Qsum ((λ a, Qabs (g a)) <$> l))%Q.
Proof.
  unfold l1_norm, Qsum.
  induction 1 as [|s a xs l Hs _ IH]; cbn [fmap list_fmap foldr].
  - reflexivity.
  - by rewrite IH, Hs.
Qed.

Lemma handle_zeros_in_scale_Qeq (a b : Q) :
  (a == b)%Q → (handle_zeros_in_scale a == handle_zeros_in_scale b)%Q.
Proof.
  intros Hab. unfold handle_zeros_in_scale.
  destruct (Qeq_bool a 0) eqn:Ha, (Qeq_bool b 0) eqn:Hb; try done.
  - apply Qeq_bool_iff in Ha. apply Qeq_bool_neq in Hb.
    exfalso. apply Hb. by rewrite <- Hab.
  - apply Qeq_bool_iff in Hb. apply Qeq_bool_neq in Ha.
    exfalso. apply Ha. by rewrite Hab.
Qed.

Lemma spec_score_Permutation features ages (l l' : list NeighborId) nb :
  l ≡ₚ l' → (spec_score features ages l nb == spec_score features ages l' nb)%Q.
Proof.
  intros Hperm. unfold spec_score, spec_weighted_sum.
  apply Qmult_comp; [|reflexivity].
  apply Qsum_fmap_ext. intros k _. apply Qmult_comp; [reflexivity|].
  unfold spec_normalized. apply Qmult_comp; [reflexivity|].
  apply Qinv_comp. apply Qsum_Permutation. by apply fmap_Permutation.
Qed.

(** X20.  The scores and the probabilities do not depend on the order of
    the neighbor list: when the same neighbors are listed in another
    order, with the same telemetry and ages, each neighbor keeps its
    final score and its probability. *)
Theorem scores_ignore_neighbor_order self (neighbors' : list NeighborId) :
  neighbors_list self ≡ₚ neighbors' →
  Forall (readable (features self)) (neighbors_list self) →
  ∃ sc sc',
    scores_of self = Some sc
    ∧ scores_of (mkSelector neighbors' (features self) (ages self)
                   (selected_nodes self)) = Some sc'
    ∧ ∀ j j' nb,
        neighbors_list self !! j = Some nb → neighbors' !! j' = Some nb →
        ∃ s s' x x',
          final_scores sc !! j = Some s ∧ final_scores sc' !! j' = Some s'
          ∧ (s == s')%Q
          ∧ p sc !! j = Some x ∧ p sc' !! j' = Some x' ∧ (x == x')%Q.
Proof.
  intros Hperm Hr.
  set (self' := mkSelector neighbors' (features self) (ages self)
                  (selected_nodes self)).
  assert (is_Some (scores_of self)) as [sc Hsc].
  { unfold scores_of. rewrite feature_loop_start; [eauto|done]. }
  assert (is_Some (scores_of self')) as [sc' Hsc'].
  { unfold scores_of. rewrite feature_loop_start; [eauto|].
    cbn [features neighbors_list self']. by rewrite <- Hperm. }
  exists sc, sc'. split_and!; [done..|].
  intros j j' nb Hj Hj'.
  destruct (p_lookup self sc j nb Hsc Hj) as (s & Hs & Hseq & Hp).
  destruct (p_lookup self' sc' j' nb Hsc' Hj') as (s' & Hs' & Hseq' & Hp').
  cbn [features ages neighbors_list self'] in Hseq'.
  assert (s == s')%Q as Hss.
  { rewrite Hseq, Hseq'. by apply spec_score_Permutation. }
  assert (l1_norm (final_scores sc) == l1_norm (final_scores sc'))%Q as Hnorm.
  { rewrite (l1_norm_Forall2 _ _ _ (final_scores_spec self sc Hsc)).
    rewrite (l1_norm_Forall2 _ _ _ (final_scores_spec self' sc' Hsc')).
    cbn [features ages neighbors_list self'].
    rewrite (Qsum_Permutation _ _ (fmap_Permutation _ _ _ Hperm)).
    apply Qsum_fmap_ext. intros m _. apply Qabs_wd.
    by apply spec_score_Permutation. }
  eexists s, s', _, _. split_and!; [done|done|done|exact Hp|exact Hp'|].
  apply Qmult_comp; [done|].
  apply Qinv_comp. by apply handle_zeros_in_scale_Qeq.
Qed.

End Order.

(** ** Runs on the five neighbors *)

Import Fixtures.

Section MoreNeighbors.

Lemma no_ages_ge_1 :
  ∀ nb x, (∅ : gmap NeighborId Z) !! nb = Some x → (1 ≤ x)%Z.
Proof. intros nb x. by rewrite lookup_empty. Qed.

Lemma mixed_measured :
  Forall (measured (features selector_mixed)) (neighbors_list selector_mixed).
Proof.
  cbn [features neighbors_list selector_mixed]. unfold five.
  repeat constructor; (eexists; split; [reflexivity|]);
    unfold in_range; cbn; split_and!; try done; by right.
Qed.

Lemma scarce_measured :
  Forall (measured (features selector_scarce)) (neighbors_list selector_scarce).
Proof.
  cbn [features neighbors_list selector_scarce]. unfold five.
  repeat constructor; (eexists; split; [reflexivity|]);
    unfold in_range; cbn; split_and!; try done; by right.
Qed.

Lemma mixed_available :
  filter (available (features selector_mixed)) (neighbors_list selector_mixed)
  = ["a"; "b"; "c"; "d"]%string.
Proof.
  cbn [features neighbors_list selector_mixed]. unfold five.
  rewrite !filter_cons, filter_nil.
  rewrite !decide_True by reflexivity.
  rewrite decide_False; [done|].
  intros H. unfold available in H. by vm_compute in H.
Qed.

Lemma scarce_available :
  filter (available (features selector_scarce)) (neighbors_list selector_scarce)
  = ["a"%string].
Proof.
  cbn [features neighbors_list selector_scarce]. unfold five.
  rewrite !filter_cons, filter_nil.
  rewrite decide_True by reflexivity.
  rewrite !decide_False; [done|..];
    intros H; unfold available in H; by vm_compute in H.
Qed.

Lemma five_num_selected : num_selected five = 4%Z.
Proof. reflexivity. Qed.

(** Samples in which positions come up again: the second 0 and the
    second 1 are passed over. *)
Lemma mixed_valid : valid_draw selector_mixed [0; 0; 1; 2; 1; 3]%nat.
Proof.
  apply valid_draw_of_available.
  - exact no_ages_ge_1.
  - exact mixed_measured.
  - repeat constructor; eexists; (split; [reflexivity|]); reflexivity.
Qed.

Lemma mixed_run :
  (node_selection [0; 0; 1; 2; 1; 3]%nat selector_mixed "me").2
  = Ok (["a"; "b"; "c"; "d"]%string ++ ["me"%string]).
Proof.
  rewrite (node_selection_total [0; 0; 1; 2; 1; 3]%nat selector_mixed "me").
  - reflexivity.
  - exact five_nonempty.
  - exact no_ages_ge_1.
  - exact mixed_measured.
  - rewrite mixed_available. cbn [neighbors_list selector_mixed].
    rewrite ?five_num_selected. cbn. lia.
  - vm_compute. lia.
Qed.

Lemma first_unreadable_neighbor_witness :
  neighbors_list selector_gap = ["a"%string] ++ "x"%string :: ["b"%string]
  ∧ Forall (readable (features selector_gap)) ["a"%string]
  ∧ ¬ readable (features selector_gap) "x"
  ∧ node_selection [0; 1]%nat selector_gap "me"
    = (set_ages selector_gap (foldl first_sighting ∅ ["a"; "x"]%string),
       Raise (KeyError "x")).
Proof.
  assert (Forall (readable (features selector_gap)) ["a"%string]) as Hpre.
  { constructor; [|constructor].
    exists (snapshot 1). split; [reflexivity|by cbn]. }
  assert (¬ readable (features selector_gap) "x") as Hnb.
  { intros (f & Hf & _). by vm_compute in Hf. }
  split; [reflexivity|]. split; [exact Hpre|]. split; [exact Hnb|].
  exact (first_unreadable_neighbor_raises [0; 1]%nat selector_gap "me"
           ["a"%string] "x" ["b"%string] eq_refl Hpre Hnb).
Defined.

Lemma unavailable_never_chosen_witness :
  neighbors_list selector_mixed ≠ []
  ∧ valid_draw selector_mixed [0; 0; 1; 2; 1; 3]%nat
  ∧ (node_selection [0; 0; 1; 2; 1; 3]%nat selector_mixed "me").2
    = Ok (["a"; "b"; "c"; "d"]%string ++ ["me"%string])
  ∧ ∀ nb, nb ∈ ["a"; "b"; "c"; "d"]%string →
      ∃ f, features selector_mixed !! nb = Some f ∧ ¬ (availability f == 0)%Q.
Proof.
  split; [exact five_nonempty|]. split; [exact mixed_valid|].
  split; [exact mixed_run|].
  exact (unavailable_never_chosen [0; 0; 1; 2; 1; 3]%nat selector_mixed "me"
           ["a"; "b"; "c"; "d"]%string five_nonempty mixed_valid mixed_run).
Defined.

Lemma selection_probabilities_witness :
  (∀ nb a, ages selector_mixed !! nb = Some a → (1 ≤ a)%Z)
  ∧ Forall (measured (features selector_mixed)) (neighbors_list selector_mixed)
  ∧ (0 < length (filter (available (features selector_mixed))
                   (neighbors_list selector_mixed)))%nat
  ∧ ∃ sc, scores_of selector_mixed = Some sc
      ∧ length (p sc) = 5%nat
      ∧ Forall (λ x, 0 <= x)%Q (p sc)
      ∧ (Qsum (p sc) == 1)%Q
      ∧ ∀ j nb, neighbors_list selector_mixed !! j = Some nb →
          ∃ x, p sc !! j = Some x
               ∧ ((0 < x)%Q ↔ available (features selector_mixed) nb).
Proof.
  assert (0 < length (filter (available (features selector_mixed))
                        (neighbors_list selector_mixed)))%nat as Hav.
  { rewrite mixed_available. cbn [neighbors_list selector_mixed].
    rewrite ?five_num_selected. cbn. lia. }
  split; [exact no_ages_ge_1|]. split; [exact mixed_measured|].
  split; [exact Hav|].
  exact (selection_probabilities selector_mixed no_ages_ge_1 mixed_measured Hav).
Defined.

Lemma too_few_available_witness :
  (∀ nb a, ages selector_scarce !! nb = Some a → (1 ≤ a)%Z)
  ∧ Forall (measured (features selector_scarce)) (neighbors_list selector_scarce)
  ∧ (0 < length (filter (available (features selector_scarce))
                   (neighbors_list selector_scarce))
     < Z.to_nat (num_selected (neighbors_list selector_scarce)))%nat
  ∧ node_selection [0]%nat selector_scarce "me"
    = (set_ages selector_scarce (foldl first_sighting ∅ five),
       Raise (ValueError "Fewer non-zero entries in p than size")).
Proof.
  assert (0 < length (filter (available (features selector_scarce))
                        (neighbors_list selector_scarce))
          < Z.to_nat (num_selected (neighbors_list selector_scarce)))%nat as Hav.
  { rewrite scarce_available. cbn [neighbors_list selector_scarce].
    rewrite five_num_selected. cbn. lia. }
  split; [exact no_ages_ge_1|]. split; [exact scarce_measured|].
  split; [exact Hav|].
  exact (too_few_available_raises [0]%nat selector_scarce "me" no_ages_ge_1
           scarce_measured Hav).
Defined.

(** After two rounds the neighbor that was never chosen has age 5. *)
Lemma ages_are_odd_witness :
  ages (play_all fresh [first_four; first_four]) !! "e" = Some 5%Z
  ∧ Z.odd 5 = true ∧ (1 ≤ 5)%Z.
Proof.
  assert (ages (play_all fresh [first_four; first_four]) !! "e" = Some 5%Z)
    as Hage.
  { pose proof (never_chosen_age 2) as Hage. cbn [replicate] in Hage.
    unfold age_of in Hage.
    generalize dependent (ages (play_all fresh [first_four; first_four])).
    intros m Hage. change (default 1%Z (m !! "e"%string) = (2 * Z.of_nat 2 + 1)%Z) in Hage.
    destruct (m !! "e"%string) as [x|]; cbn in Hage; [f_equal; lia|lia]. }
  split; [exact Hage|].
  exact (ages_are_odd [first_four; first_four] "e" 5%Z Hage).
Defined.

Lemma total_age_growth_witness :
  neighbors_list selector_up ≠ []
  ∧ NoDup (neighbors_list selector_up)
  ∧ valid_draw selector_up [0; 1; 2; 3]%nat
  ∧ (node_selection [0; 1; 2; 3]%nat selector_up "me").2
    = Ok ["a"; "b"; "c"; "d"; "me"]%string
  ∧ total_age (ages (node_selection [0; 1; 2; 3]%nat selector_up "me").1) five
    = (total_age ∅ five + 2 * (5 - 4))%Z
  ∧ (2 ≤ 5 → 4 < 5)%Z.
Proof.
  split; [exact five_nonempty|]. split; [exact five_distinct|].
  split; [exact (first_four_valid ∅ [] no_ages_ge_1)|].
  split; [exact selector_up_run|].
  exact (total_age_growth [0; 1; 2; 3]%nat selector_up "me"
           ["a"; "b"; "c"; "d"; "me"]%string five_nonempty five_distinct
           (first_four_valid ∅ [] no_ages_ge_1) selector_up_run).
Defined.

End MoreNeighbors.

Lemma neighbor_order_witness :
  neighbors_list selector_up ≡ₚ reverse five
  ∧ Forall (readable (features selector_up)) (neighbors_list selector_up)
  ∧ ∃ sc sc',
      scores_of selector_up = Some sc
      ∧ scores_of (mkSelector (reverse five) (telemetry 1) ∅ []) = Some sc'
      ∧ ∃ s s', final_scores sc !! 0%nat = Some s
                ∧ final_scores sc' !! 4%nat = Some s' ∧ (s == s')%Q.
Proof.
  assert (neighbors_list selector_up ≡ₚ reverse five) as Hperm.
  { symmetry. apply reverse_Permutation. }
  split; [exact Hperm|]. split; [exact (telemetry_readable 1)|].
  destruct (scores_ignore_neighbor_order selector_up (reverse five) Hperm
              (telemetry_readable 1)) as (sc & sc' & Hsc & Hsc' & Hsame).
  exists sc, sc'. split; [exact Hsc|]. split; [exact Hsc'|].
  destruct (Hsame 0%nat 4%nat "a"%string eq_refl eq_refl)
    as (s & s' & _ & _ & Hs & Hs' & Hss & _).
  by exists s, s'.
Defined.

End SelectorBehaviour.

(** * The dispatchers: what every run does *)

Module DispatchBehaviour.

Import Aggregation DispatchProofs.

Section MoreRouting.

Context {collaborators : Collaborators}.

Implicit Types (self : Aggregator) (models : Models) (eng : Engine).

Lemma random_choice_candidate rnd : random_choice rnd ∈ available_aggregators.
Proof.
  unfold random_choice, available_aggregators.
  apply list_elem_of_lookup_total_2. exact (fin_to_nat_lt rnd).
Qed.

Lemma random_choice_not_dispatcher rnd :
  random_choice rnd ≠ DynamicAggregator ∧ random_choice rnd ≠ BlockchainReputation.
Proof.
  pose proof (random_choice_candidate rnd) as H.
  unfold available_aggregators in H.
  repeat (apply elem_of_cons in H as [->|H]; [done|]).
  by apply elem_of_nil in H.
Qed.

Lemma dynamic_cases rnd self models reactive :
  let run := DynamicAggregator_run_aggregation rnd self models reactive in
  (executions run.1 = [] ∧ ∃ e, run.2 = Raise e)
  ∨ (executions run.1 = [(random_choice rnd, models)]
     ∧ run.2 = strategy_run (random_choice rnd) models).
Proof.
  cbn zeta.
  unfold DynamicAggregator_run_aggregation, get_engine, call, emit, bind.
  destruct (base_run_aggregation models) as [[]|e]; [|left; eauto].
  destruct (engine self) as [eng|]; [|left; cbn; eauto].
  right. by destruct reactive.
Qed.

(** X8.  Whatever the engine, the collaborators and the configuration do,
    a run of the reactive aggregator either raises without having run any
    strategy, or runs exactly one strategy class, on the update set it
    was given, and hands back that strategy's outcome. *)
Theorem at_most_one_strategy_runs rnd self models :
  let run := ReactiveAggregator_run_aggregation rnd self models in
  (executions run.1 = [] ∧ ∃ e, run.2 = Raise e)
  ∨ (∃ cls, executions run.1 = [(cls, models)]
            ∧ run.2 = strategy_run cls models
            ∧ cls ≠ DynamicAggregator).
Proof.
  cbn zeta.
  destruct (base_run_aggregation models) as [[]|e] eqn:Hb.
  2: { left. unfold ReactiveAggregator_run_aggregation, call, emit, bind.
       rewrite Hb. cbn. eauto. }
  destruct (engine self) as [eng|] eqn:He.
  2: { left. unfold ReactiveAggregator_run_aggregation, get_engine, call, emit, bind.
       rewrite Hb, He. cbn. eauto. }
  destruct (reputation_calculation eng models) as [[mal score]|e] eqn:Hr.
  2: { left. unfold ReactiveAggregator_run_aggregation, get_engine, call, emit, bind.
       rewrite Hb, He. cbn -[lookup ALGORITHM_MAP]. rewrite Hr. cbn. eauto. }
  destruct mal as [|m mal].
  - rewrite (reactive_clean rnd self models eng score He Hb Hr).
    set (cls := default FedAvg _).
    assert ((executions (instance_run_aggregation rnd cls (config self) models).1 = []
             ∧ ∃ e, (instance_run_aggregation rnd cls (config self) models).2 = Raise e)
            ∨ (∃ c, executions (instance_run_aggregation rnd cls (config self) models).1
                    = [(c, models)]
                    ∧ (instance_run_aggregation rnd cls (config self) models).2
                      = strategy_run c models
                    ∧ c ≠ DynamicAggregator)) as Hinst.
    { unfold instance_run_aggregation.
      destruct cls; try (right; eexists; by split_and!).
      destruct (dynamic_cases rnd (mkAggregator (config self) None) models false)
        as [H|[Hex Hres]]; [by left|].
      right. exists (random_choice rnd). split_and!; [done|done|].
      apply random_choice_not_dispatcher. }
    cbn [fst snd]. rewrite !executions_app.
    assert (executions (match ALGORITHM_MAP !! reactive_aggregator_default (config self)
                        with
                        | Some _ => []
                        | None =>
                            [LogError
                               "[ReactiveAggregator] Invalid default aggregator, falling back to FedAvg"]
                        end) = []) as -> by (by destruct (ALGORITHM_MAP !! _)).
    exact Hinst.
  - rewrite (reactive_under_attack rnd self models eng (m :: mal) score He Hb Hr)
      by done.
    destruct (dynamic_run rnd (mkAggregator (config self) (Some eng)) models eng true)
      as (tag & -> & _); [done|done|].
    right. exists (random_choice rnd). split_and!; [done|done|].
    apply random_choice_not_dispatcher.
Qed.

(** X9.  The [reactive_aggregator] flag of the dynamic aggregator changes
    the tag of its log record and nothing else: with either value the same
    candidate runs on the same update set with the same outcome, the
    candidate is one of the five, and the record carries its class name
    under the tag of the caller. *)
Theorem reactive_flag_only_changes_the_tag rnd self models :
  let a := DynamicAggregator_run_aggregation rnd self models true in
  let b := DynamicAggregator_run_aggregation rnd self models false in
  a.2 = b.2
  ∧ executions a.1 = executions b.1
  ∧ (∀ cls m, (cls, m) ∈ executions b.1 →
       cls = random_choice rnd ∧ cls ∈ available_aggregators ∧ m = models)
  ∧ (∀ tag txt step, LogText tag txt step ∈ a.1 →
       tag = "[ReactiveAggregator] Using DynamicAggregator: Chosen Aggregator"%string
       ∧ txt = TextClsName (random_choice rnd))
  ∧ (∀ tag txt step, LogText tag txt step ∈ b.1 →
       tag = "[DynamicAggregator] Chosen Aggregator"%string
       ∧ txt = TextClsName (random_choice rnd)).
Proof.
  cbn zeta.
  unfold DynamicAggregator_run_aggregation, get_engine, call, emit, bind.
  destruct (base_run_aggregation models) as [[]|e];
    [destruct (engine self) as [eng|]|]; cbn;
    (split_and!; [done|done|intros cls m Hin|intros tag txt step Hin..]);
    repeat (apply elem_of_cons in Hin as [Hin|Hin];
            [inversion Hin; subst;
             by (split_and!; try done; apply random_choice_candidate)|]);
    by apply elem_of_nil in Hin.
Qed.

(** X10.  When [Aggregator.run_aggregation] of the base class raises, both
    dispatchers stop there: the exception is the outcome, the reputation
    collaborator is not consulted, no record is sent and no strategy
    runs. *)
Theorem base_failure_stops_both_dispatchers rnd self models reactive e :
  base_run_aggregation models = Raise e →
  ReactiveAggregator_run_aggregation rnd self models
  = ([LogInfo "[ReactiveAggregator] Initializing Aggregation";
      BaseRunAggregation models], Raise e)
  ∧ DynamicAggregator_run_aggregation rnd self models reactive
    = ([LogInfo "[DynamicAggregator] Initializing Aggregation";
        BaseRunAggregation models], Raise e).
Proof.
  intros Hb.
  unfold ReactiveAggregator_run_aggregation, DynamicAggregator_run_aggregation,
    call, emit, bind.
  by rewrite Hb.
Qed.

(** X11.  Once the reputation result is in, an error is logged exactly on a
    clean round whose default name is not in [ALGORITHM_MAP]: under attack
    an unknown default name goes unreported. *)
Theorem error_logged_iff_unknown_default_on_clean_round
    rnd self models eng malicious_nodes score :
  engine self = Some eng →
  base_run_aggregation models = Ok () →
  reputation_calculation eng models = Ok (malicious_nodes, score) →
  errors_logged (ReactiveAggregator_run_aggregation rnd self models).1 ≠ []
  ↔ malicious_nodes = []
    ∧ ALGORITHM_MAP !! reactive_aggregator_default (config self) = None.
Proof.
  intros He Hb Hr.
  assert (∀ tr1 tr2 : list event,
            errors_logged (tr1 ++ tr2) = errors_logged tr1 ++ errors_logged tr2)
    as Happ by (intros; apply omap_app).
  assert (∀ aggr flag,
            errors_logged (DynamicAggregator_run_aggregation rnd aggr models flag).1
            = []) as Hdyn.
  { intros aggr flag.
    unfold DynamicAggregator_run_aggregation, get_engine, call, emit, bind.
    rewrite Hb. destruct (engine aggr); [|done]. by destruct flag. }
  destruct malicious_nodes as [|m mal].
  - rewrite (reactive_clean rnd self models eng score He Hb Hr).
    cbn [fst]. rewrite !Happ.
    assert (errors_logged
              (instance_run_aggregation rnd
                 (default FedAvg
                    (ALGORITHM_MAP !! reactive_aggregator_default (config self)))
                 (config self) models).1 = []) as ->.
    { unfold instance_run_aggregation. destruct (default FedAvg _); done. }
    destruct (ALGORITHM_MAP !! _) as [cls|]; cbn; split; try done.
    + by intros [_ ?].
  - rewrite (reactive_under_attack rnd self models eng (m :: mal) score He Hb Hr)
      by done.
    cbn [fst]. rewrite Happ, Hdyn. cbn. split; [done|by intros [? _]].
Qed.

End MoreRouting.

(** ** Runs on three updates *)

Import Fixtures.

(** The base class refuses the update set: neither dispatcher goes on. *)
Lemma base_failure_witness :
  @base_run_aggregation refusing updates
  = Raise (CollaboratorError "no updates")
  ∧ @ReactiveAggregator_run_aggregation refusing third without_engine updates
    = ([LogInfo "[ReactiveAggregator] Initializing Aggregation";
        @BaseRunAggregation refusing updates], Raise (CollaboratorError "no updates"))
  ∧ @DynamicAggregator_run_aggregation refusing third without_engine updates false
    = ([LogInfo "[DynamicAggregator] Initializing Aggregation";
        @BaseRunAggregation refusing updates], Raise (CollaboratorError "no updates")).
Proof.
  split; [reflexivity|].
  exact (@base_failure_stops_both_dispatchers refusing third without_engine
           updates false _ eq_refl).
Defined.

(** Under attack the unknown default [FedProx] is not reported; on a clean
    round it is. *)
Lemma error_logged_witness :
  engine (reactive "FedProx" engine_attack) = Some engine_attack
  ∧ @base_run_aggregation numbered updates = Ok ()
  ∧ reputation_calculation engine_attack updates = Ok (["b"%string], 1 # 2)
  ∧ errors_logged
      (@ReactiveAggregator_run_aggregation numbered third
         (reactive "FedProx" engine_attack) updates).1 = [].
Proof.
  split_and!; [reflexivity..|].
  destruct (errors_logged
              (@ReactiveAggregator_run_aggregation numbered third
                 (reactive "FedProx" engine_attack) updates).1) as [|ev evs] eqn:E;
    [reflexivity|exfalso].
  assert (errors_logged
            (@ReactiveAggregator_run_aggregation numbered third
               (reactive "FedProx" engine_attack) updates).1 ≠ []) as Hne
    by (by rewrite E).
  apply (@error_logged_iff_unknown_default_on_clean_round numbered third
           (reactive "FedProx" engine_attack) updates engine_attack
           ["b"%string] (1 # 2) eq_refl eq_refl eq_refl) in Hne as [Hnil _].
  discriminate Hnil.
Defined.

End DispatchBehaviour.

(** * The model: counters, phases and confusion matrices *)

Module ModelBehaviour.

Import NebulaModel ModelProofs.

Section Counters.

Context {torch : Torch}.

Implicit Types (self : NebulaModel) (phase : string).

Ltac crush_field :=
  repeat (match goal with
          | |- context [if ?b then _ else _] => destruct b
          | |- context [match ?x with _ => _ end] => destruct x
          end;
          cbn [fst snd drop set_metrics set_loss set_global_number global_number
               cm cm_global train_metrics val_metrics test_metrics
               test_metrics_global reset_train reset_val reset_test]);
  try done.

Lemma process_metrics_counters self phase y_pred y :
  global_number (process_metrics self phase y_pred y).1 = global_number self.
Proof. unfold process_metrics, get_cm. crush_field. Qed.

Lemma generate_confusion_matrix_counters self phase print_cm plot_cm :
  global_number (generate_confusion_matrix self phase print_cm plot_cm).1
  = global_number self.
Proof. unfold generate_confusion_matrix, get_cm. crush_field. Qed.

Lemma step_counters self batch phase :
  global_number (step self batch phase).1 = global_number self.
Proof.
  unfold step. destruct batch as [x y].
  destruct (forward x) as [y_pred|e]; [|done].
  destruct (criterion y_pred y) as [l|e]; [|done].
  pose proof (process_metrics_counters self phase y_pred y) as H.
  by destruct (process_metrics _ _ _ _) as [self1 [[]|e]].
Qed.

Lemma bump_counters self phase n :
  global_number self !! phase = Some n →
  bump self phase
  = (set_global_number self (<[phase := (n + 1)%Z]> (global_number self)), Ok ()).
Proof. intros H. unfold bump, phase_number. by rewrite H. Qed.

Lemma log_metrics_end_ok self phase :
  phase ∈ phases → is_Some (global_number self !! phase) →
  log_metrics_end self phase = Ok ().
Proof.
  intros Hin [n Hn]. unfold log_metrics_end, phase_number. rewrite Hn.
  unfold phases in Hin.
  repeat (apply elem_of_cons in Hin as [->|Hin]; [done|]).
  by apply elem_of_nil in Hin.
Qed.

(** What one call does to the counters, for a model that has the four. *)
Lemma invoke_counters standalone self c :
  (∀ phase, phase ∈ phases → is_Some (global_number self !! phase)) →
  ∀ phase,
    global_number (invoke standalone self c) !! phase
    = (λ n, n + bumps standalone c phase)%Z <$> global_number self !! phase.
Proof.
  intros Hk phase.
  assert (∀ m : NebulaModel, global_number m !! phase
                 = (λ n, n + 0)%Z <$> global_number m !! phase) as Hid.
  { intros m. destruct (global_number m !! phase); cbn; [f_equal; lia|done]. }
  assert (∀ m ph, is_Some (global_number m !! ph) →
            global_number (bump m ph).1 !! phase
            = (λ n, n + indicator (String.eqb phase ph))%Z
                <$> global_number m !! phase) as Hbump.
  { intros m ph [n Hn]. rewrite (bump_counters m ph n Hn).
    cbn [fst set_global_number global_number].
    destruct (String.eqb_spec phase ph) as [->|Hne].
    - rewrite lookup_insert_eq, Hn. done.
    - rewrite lookup_insert_ne by done. apply Hid. }
  assert ("Train"%string ∈ phases) as HT by (by apply (bool_decide_unpack _)).
  assert ("Validation"%string ∈ phases) as HV by (by apply (bool_decide_unpack _)).
  assert ("Test (Local)"%string ∈ phases) as HL by (by apply (bool_decide_unpack _)).
  assert ("Test (Global)"%string ∈ phases) as HG by (by apply (bool_decide_unpack _)).
  destruct c; cbn [invoke bumps]; unfold drop.
  - unfold training_step.
    pose proof (step_counters self batch "Train") as H.
    destruct (step self batch "Train") as [self1 [l|e]]; cbn in *;
      rewrite H; apply Hid.
  - unfold validation_step. rewrite step_counters. apply Hid.
  - unfold test_step. case_bool_decide; rewrite step_counters; apply Hid.
  - rewrite step_counters. apply Hid.
  - rewrite process_metrics_counters. apply Hid.
  - apply Hid.
  - rewrite generate_confusion_matrix_counters. apply Hid.
  - unfold on_train_end. destruct standalone; cbn [negb andb indicator].
    + apply Hid.
    + by apply Hbump, Hk.
  - unfold on_train_epoch_end.
    rewrite (log_metrics_end_ok self "Train" HT (Hk _ HT)). cbn [then_].
    destruct standalone; cbn [negb andb indicator fst].
    + rewrite Hbump by (by apply Hk). done.
    + exact (Hid self).
  - unfold on_validation_end. destruct standalone; cbn [negb andb indicator].
    + apply Hid.
    + by apply Hbump, Hk.
  - unfold on_validation_epoch_end.
    rewrite (log_metrics_end_ok self "Validation" HV (Hk _ HV)). cbn [then_].
    destruct standalone; cbn [negb andb indicator fst].
    + destruct (Hk _ HV) as [n Hn]. rewrite (bump_counters self _ n Hn).
      cbn [then_ fst reset_val set_metrics set_global_number global_number].
      destruct (String.eqb_spec phase "Validation") as [->|Hne].
      * rewrite lookup_insert_eq, Hn. done.
      * rewrite lookup_insert_ne by done. apply Hid.
    + exact (Hid self).
  - unfold on_test_end.
    destruct (Hk _ HL) as [n Hn]. rewrite (bump_counters self _ n Hn).
    cbn [then_].
    assert (is_Some (global_number
              (set_global_number self (<["Test (Local)"%string:=(n + 1)%Z]>
                 (global_number self))) !! "Test (Global)"%string)) as HG'.
    { cbn [set_global_number global_number]. rewrite lookup_insert_ne by done.
      by apply Hk. }
    rewrite Hbump by exact HG'.
    cbn [set_global_number global_number].
    destruct (String.eqb_spec phase "Test (Local)") as [->|Hne].
    + rewrite lookup_insert_eq, Hn. cbn. f_equal. lia.
    + rewrite lookup_insert_ne by done. cbn [orb].
      destruct (global_number self !! phase); cbn; [f_equal; lia|done].
  - unfold on_test_epoch_end.
    rewrite (log_metrics_end_ok self _ HL (Hk _ HL)). cbn [then_].
    rewrite (log_metrics_end_ok self _ HG (Hk _ HG)). cbn [then_].
    pose proof (generate_confusion_matrix_counters self "Test (Local)" true true)
      as H1.
    destruct (generate_confusion_matrix self "Test (Local)" true true)
      as [s1 [[]|e]]; cbn [then_ fst] in *; [|rewrite H1; apply Hid].
    pose proof (generate_confusion_matrix_counters s1 "Test (Global)" true true)
      as H2.
    destruct (generate_confusion_matrix s1 "Test (Global)" true true)
      as [s2 [[]|e]];
      cbn [then_ fst reset_test set_metrics global_number] in *;
      rewrite H2, H1; apply Hid.
Qed.

Lemma invoke_keeps_counters standalone self c :
  (∀ phase, phase ∈ phases → is_Some (global_number self !! phase)) →
  ∀ phase, phase ∈ phases →
    is_Some (global_number (invoke standalone self c) !! phase).
Proof.
  intros Hk phase Hin. rewrite invoke_counters by done.
  destruct (Hk phase Hin) as [n ->]. cbn. eauto.
Qed.

Lemma invoke_all_counters standalone calls : ∀ self,
  (∀ phase, phase ∈ phases → is_Some (global_number self !! phase)) →
  ∀ phase,
    global_number (invoke_all standalone self calls) !! phase
    = (λ n, n + total_bumps standalone calls phase)%Z
        <$> global_number self !! phase.
Proof.
  induction calls as [|c calls IH]; intros self Hk phase.
  - cbn. destruct (global_number self !! phase); cbn; [f_equal; lia|done].
  - cbn [invoke_all foldl]. unfold invoke_all in IH.
    rewrite IH by (by apply invoke_keeps_counters).
    rewrite invoke_counters by done.
    unfold total_bumps. cbn [fmap list_fmap foldr].
    destruct (global_number self !! phase); cbn; [f_equal; lia|done].
Qed.

Lemma init_counters ic nc lr metrics cmx phase :
  global_number (init ic nc lr metrics cmx) !! phase
  = if bool_decide (phase ∈ phases) then Some 0%Z else None.
Proof.
  cbn [init global_number]. unfold phases.
  destruct (String.eqb_spec phase "Train") as [->|H1]; [done|].
  destruct (String.eqb_spec phase "Validation") as [->|H2]; [done|].
  destruct (String.eqb_spec phase "Test (Local)") as [->|H3]; [done|].
  destruct (String.eqb_spec phase "Test (Global)") as [->|H4]; [done|].
  rewrite bool_decide_false.
  - cbn [list_to_map foldr]. by rewrite !lookup_insert_ne, lookup_empty.
  - intros Hin. repeat (apply elem_of_cons in Hin as [->|Hin]; [done|]).
    by apply elem_of_nil in Hin.
Qed.

(** X12.  After any calls on a new model, [global_number] has the four
    phases and nothing else, and each counter is the number of hook calls
    that count for the phase: [on_train_end] and [on_validation_end] for
    [NebulaModel], [on_train_epoch_end] and [on_validation_epoch_end] for
    [NebulaModelStandalone], [on_test_end] for both test phases of both;
    calls that raise in between change nothing of this. *)
Theorem counters_count_hook_calls (standalone : bool)
    (input_channels num_classes : Z) (learning_rate : Q)
    (metrics : option Metrics) (confusion_matrix : option ConfusionMatrix)
    (calls : list method) (phase : string) :
  global_number
    (invoke_all standalone
       (init input_channels num_classes learning_rate metrics confusion_matrix)
       calls) !! phase
  = if bool_decide (phase ∈ phases)
    then Some (total_bumps standalone calls phase)
    else None.
Proof.
  rewrite invoke_all_counters.
  - rewrite init_counters. case_bool_decide; cbn; [f_equal; lia|done].
  - intros ph Hph. rewrite init_counters. rewrite bool_decide_true by done. eauto.
Qed.

End Counters.

Section Phases.

Context {torch : Torch}.

Implicit Types (self : NebulaModel) (phase : string).

Ltac crush_field :=
  repeat (match goal with
          | |- context [if ?b then _ else _] => destruct b
          | |- context [match ?x with _ => _ end] => destruct x
          end;
          cbn [fst snd drop set_metrics set_loss set_global_number global_number
               cm cm_global train_metrics val_metrics test_metrics
               test_metrics_global reset_train reset_val reset_test]);
  try done.

Lemma unknown_phase_tests phase :
  phase ∉ phases →
  String.eqb phase "Train" = false ∧ String.eqb phase "Validation" = false
  ∧ String.eqb phase "Test (Local)" = false
  ∧ String.eqb phase "Test (Global)" = false.
Proof.
  intros Hnin. unfold phases in Hnin.
  split_and!; apply String.eqb_neq; intros ->; apply Hnin;
    by apply (bool_decide_unpack _).
Qed.

(** X13.  A phase that is not one of the four is refused with
    [NotImplementedError] and the model stays as it was:
    [process_metrics] and [log_metrics_end] refuse it, [step] refuses it
    after [forward] and [criterion] have run, and
    [generate_confusion_matrix] refuses every phase but the two test
    phases, "Train" and "Validation" included.  A [step] whose [forward]
    or [criterion] raises leaves the model as it was, too. *)
Theorem unknown_phase_is_refused self phase x y y_pred l :
  forward x = Ok y_pred →
  criterion y_pred y = Ok l →
  (phase ∉ phases →
     process_metrics self phase y_pred y = (self, Raise NotImplementedError)
     ∧ step self (x, y) phase = (self, Raise NotImplementedError)
     ∧ log_metrics_end self phase = Raise NotImplementedError)
  ∧ (phase ≠ "Test (Local)"%string → phase ≠ "Test (Global)"%string →
     ∀ print_cm plot_cm,
       generate_confusion_matrix self phase print_cm plot_cm
       = (self, Raise NotImplementedError))
  ∧ (∀ x' y' e, forward x' = Raise e → step self (x', y') phase = (self, Raise e))
  ∧ (∀ y' e, criterion y_pred y' = Raise e →
       step self (x, y') phase = (self, Raise e)).
Proof.
  intros Hf Hc. split_and!.
  - intros (H1 & H2 & H3 & H4)%unknown_phase_tests.
    assert (process_metrics self phase y_pred y = (self, Raise NotImplementedError))
      as Hpm.
    { unfold process_metrics. by rewrite H1, H2, H3, H4. }
    split_and!; [done| |].
    + unfold step. by rewrite Hf, Hc, Hpm.
    + unfold log_metrics_end. by rewrite H1, H2, H3, H4.
  - intros H1%String.eqb_neq H2%String.eqb_neq print_cm plot_cm.
    unfold generate_confusion_matrix. by rewrite H1, H2.
  - intros x' y' e He. unfold step. by rewrite He.
  - intros y' e He. unfold step. by rewrite Hf, He.
Qed.

(** X14.  A step whose [forward] and [criterion] return feeds the metric
    collection of its own phase and no other, and touches neither the loss
    nor the counters; only the two test phases touch a confusion matrix,
    each its own. *)
Theorem step_feeds_only_its_phase self phase x y y_pred l :
  forward x = Ok y_pred →
  criterion y_pred y = Ok l →
  let out := (step self (x, y) phase).1 in
  loss out = loss self
  ∧ global_number out = global_number self
  ∧ train_metrics out
    = (if String.eqb phase "Train"
       then metrics_update (train_metrics self) y_pred y else train_metrics self)
  ∧ val_metrics out
    = (if String.eqb phase "Validation"
       then metrics_update (val_metrics self) y_pred y else val_metrics self)
  ∧ test_metrics out
    = (if String.eqb phase "Test (Local)"
       then metrics_update (test_metrics self) y_pred y else test_metrics self)
  ∧ test_metrics_global out
    = (if String.eqb phase "Test (Global)"
       then metrics_update (test_metrics_global self) y_pred y
       else test_metrics_global self)
  ∧ cm out
    = (if String.eqb phase "Test (Local)"
       then (λ c, cm_update c y_pred y) <$> cm self else cm self)
  ∧ cm_global out
    = (if String.eqb phase "Test (Global)"
       then (λ c, cm_update c y_pred y) <$> cm_global self else cm_global self).
Proof.
  intros Hf Hc. cbn zeta. unfold step. rewrite Hf, Hc.
  assert (∀ r : NebulaModel * outcome unit,
            (match r with
             | (self1, Raise e) => (self1, @Raise Q e)
             | (self1, Ok _) => (self1, Ok l)
             end).1 = r.1) as Hfst by (by intros [s [[]|e]]).
  rewrite Hfst. unfold process_metrics, get_cm.
  destruct (String.eqb_spec phase "Train") as [->|H1]; [by split_and!|].
  destruct (String.eqb_spec phase "Validation") as [->|H2]; [by split_and!|].
  destruct (String.eqb_spec phase "Test (Local)") as [->|H3].
  { destruct (cm self); by split_and!. }
  destruct (String.eqb_spec phase "Test (Global)") as [->|H4].
  { destruct (cm_global self); by split_and!. }
  by split_and!.
Qed.

End Phases.

Section ConfusionMatrix.

Context {torch : Torch}.

Implicit Types (self : NebulaModel) (phase : string).

Ltac crush_field :=
  repeat (match goal with
          | |- context [if ?b then _ else _] => destruct b
          | |- context [match ?x with _ => _ end] => destruct x eqn:?
          end;
          cbn [fst snd drop set_metrics set_loss set_global_number global_number
               cm cm_global train_metrics val_metrics test_metrics
               test_metrics_global reset_train reset_val reset_test then_] in *);
  try done.

Lemma process_metrics_cm self phase y_pred y :
  (is_Some (cm (process_metrics self phase y_pred y).1) ↔ is_Some (cm self))
  ∧ (is_Some (cm_global (process_metrics self phase y_pred y).1)
     ↔ is_Some (cm_global self)).
Proof.
  unfold process_metrics, get_cm.
  destruct (String.eqb phase "Train"); [done|].
  destruct (String.eqb phase "Validation"); [done|].
  destruct (String.eqb phase "Test (Local)").
  { destruct (cm self) eqn:E; cbn; rewrite ?E;
      repeat split; intros; try done; eauto. }
  destruct (String.eqb phase "Test (Global)"); [|done].
  destruct (cm_global self) eqn:E; cbn; rewrite ?E;
    repeat split; intros; try done; eauto.
Qed.

Lemma generate_confusion_matrix_cm self phase print_cm plot_cm :
  (is_Some (cm (generate_confusion_matrix self phase print_cm plot_cm).1)
   ↔ is_Some (cm self))
  ∧ (is_Some (cm_global (generate_confusion_matrix self phase print_cm plot_cm).1)
     ↔ is_Some (cm_global self)).
Proof.
  unfold generate_confusion_matrix, get_cm.
  destruct (String.eqb phase "Test (Local)").
  { destruct (cm self) as [c|] eqn:E; [|cbn; by rewrite E].
    destruct (show_confusion_matrix self phase c print_cm plot_cm);
      cbn; rewrite ?E; repeat split; intros; try done; eauto. }
  destruct (String.eqb phase "Test (Global)"); [|done].
  destruct (cm_global self) as [c|] eqn:E; [|cbn; by rewrite E].
  destruct (show_confusion_matrix self phase c print_cm plot_cm);
    cbn; rewrite ?E; repeat split; intros; try done; eauto.
Qed.

Lemma step_cm self batch phase :
  (is_Some (cm (step self batch phase).1) ↔ is_Some (cm self))
  ∧ (is_Some (cm_global (step self batch phase).1) ↔ is_Some (cm_global self)).
Proof.
  unfold step. destruct batch as [x y].
  destruct (forward x) as [y_pred|e]; [|done].
  destruct (criterion y_pred y) as [l|e]; [|done].
  pose proof (process_metrics_cm self phase y_pred y) as H.
  by destruct (process_metrics _ _ _ _) as [self1 [[]|e]].
Qed.

Lemma bump_cm self phase :
  cm (bump self phase).1 = cm self ∧ cm_global (bump self phase).1 = cm_global self.
Proof. unfold bump. by destruct (phase_number self phase). Qed.

Lemma then_cm (r : NebulaModel * outcome unit)
    (k : NebulaModel → NebulaModel * outcome unit) (P : NebulaModel → Prop) :
  P r.1 → (∀ s, P s → P (k s).1) → P (then_ r k).1.
Proof. destruct r as [s [[]|e]]; cbn; auto. Qed.

Lemma invoke_cm standalone self c :
  (is_Some (cm (invoke standalone self c)) ↔ is_Some (cm self))
  ∧ (is_Some (cm_global (invoke standalone self c)) ↔ is_Some (cm_global self)).
Proof.
  set (P := λ s : NebulaModel,
         (is_Some (cm s) ↔ is_Some (cm self))
         ∧ (is_Some (cm_global s) ↔ is_Some (cm_global self))).
  assert (P self) as Hself by done.
  assert (∀ s ph, P s → P (bump s ph).1) as Hbump.
  { intros s ph [H1 H2]. destruct (bump_cm s ph) as [E1 E2].
    unfold P. by rewrite E1, E2. }
  assert (∀ s ph pr pl, P s → P (generate_confusion_matrix s ph pr pl).1) as Hgen.
  { intros s ph pr pl [H1 H2].
    destruct (generate_confusion_matrix_cm s ph pr pl) as [E1 E2].
    unfold P. by rewrite E1, E2. }
  change (P (invoke standalone self c)).
  destruct c; cbn [invoke]; unfold drop.
  - unfold training_step. pose proof (step_cm self batch "Train") as H.
    by destruct (step self batch "Train") as [self1 [l|e]].
  - apply step_cm.
  - unfold test_step. case_bool_decide; apply step_cm.
  - apply step_cm.
  - apply process_metrics_cm.
  - done.
  - apply generate_confusion_matrix_cm.
  - unfold on_train_end. destruct standalone; [done|by apply Hbump].
  - unfold on_train_epoch_end. apply then_cm; [done|].
    intros s Hs. destruct standalone; [by apply Hbump|done].
  - unfold on_validation_end. destruct standalone; [done|by apply Hbump].
  - unfold on_validation_epoch_end. apply then_cm; [done|].
    intros s Hs. destruct standalone; [|done].
    apply then_cm; [by apply Hbump|done].
  - unfold on_test_end. apply then_cm; [by apply Hbump|]. intros s Hs.
    by apply Hbump.
  - unfold on_test_epoch_end.
    apply then_cm; [done|]. intros s1 H1.
    apply then_cm; [done|]. intros s2 H2.
    apply then_cm; [by apply Hgen|]. intros s3 H3.
    apply then_cm; [by apply Hgen|]. by intros s4 H4.
Qed.

Lemma invoke_all_cm standalone calls : ∀ self,
  (is_Some (cm (invoke_all standalone self calls)) ↔ is_Some (cm self))
  ∧ (is_Some (cm_global (invoke_all standalone self calls))
     ↔ is_Some (cm_global self)).
Proof.
  induction calls as [|c calls IH]; intros self; [done|].
  cbn [invoke_all foldl]. unfold invoke_all in IH.
  destruct (IH (invoke standalone self c)) as [H1 H2].
  destruct (invoke_cm standalone self c) as [H3 H4].
  rewrite H1, H2, H3, H4. done.
Qed.

(** Showing a matrix reads the class count and the counters only. *)
Lemma show_confusion_matrix_frame self tr va te tg c' cg' phase c print_cm plot_cm :
  show_confusion_matrix (set_metrics self tr va te tg c' cg') phase c print_cm plot_cm
  = show_confusion_matrix self phase c print_cm plot_cm.
Proof. reflexivity. Qed.

(** X15.  The confusion matrices exist exactly when the model was built
    without a [confusion_matrix] argument, and no call changes that: a
    matrix that is passed in is not stored.  On a model built with the
    argument every test step whose [forward] and [criterion] return raises
    [AttributeError], and so does [on_test_epoch_end], which leaves the
    model as it was.  On a model built without the argument such a test
    step returns its loss, and [on_test_epoch_end] returns exactly when
    computing, drawing and logging the local and then the global matrix
    return; with no logger attached it raises [AttributeError] at the first
    [log_figure], before any matrix or metric is reset. *)
Theorem confusion_matrix_argument_disables_testing (standalone : bool)
    (input_channels num_classes : Z) (learning_rate : Q)
    (metrics : option Metrics) (confusion_matrix : option ConfusionMatrix)
    (calls : list method) :
  let m := invoke_all standalone
             (init input_channels num_classes learning_rate metrics confusion_matrix)
             calls in
  (is_Some (cm m) ↔ confusion_matrix = None)
  ∧ (is_Some (cm_global m) ↔ confusion_matrix = None)
  ∧ (∀ x y idx y_pred l,
       forward x = Ok y_pred → criterion y_pred y = Ok l →
       (test_step m (x, y) idx).2
       = match confusion_matrix with
         | None => Ok l
         | Some _ =>
             Raise (AttributeError
                      (if bool_decide (idx = Some 0%Z) then "cm" else "cm_global"))
         end)
  ∧ (confusion_matrix ≠ None →
       on_test_epoch_end m = (m, Raise (AttributeError "cm")))
  ∧ (confusion_matrix = None →
       ∃ c cg,
         cm m = Some c ∧ cm_global m = Some cg
         ∧ (on_test_epoch_end m).2
           = (_ ←! show_confusion_matrix m "Test (Local)" c true true;
              _ ←! show_confusion_matrix m "Test (Global)" cg true true;
              Ok ())
         ∧ (log_figure = None →
            ∀ mtx fig,
              cm_compute c = Ok mtx →
              plot_heatmap mtx (NebulaModel.num_classes m) = Ok fig →
              on_test_epoch_end m = (m, Raise (AttributeError "log_figure")))).
Proof.
  intros m.
  destruct (invoke_all_cm standalone calls
              (init input_channels num_classes learning_rate metrics confusion_matrix))
    as [Hcm Hcmg].
  fold m in Hcm, Hcmg.
  assert (is_Some (cm m) ↔ confusion_matrix = None) as H1.
  { rewrite Hcm. cbn. destruct confusion_matrix;
      repeat split; intros; try done; eauto; by destruct H. }
  assert (is_Some (cm_global m) ↔ confusion_matrix = None) as H2.
  { rewrite Hcmg. cbn. destruct confusion_matrix;
      repeat split; intros; try done; eauto; by destruct H. }
  assert (∀ phase, phase ∈ phases → is_Some (global_number m !! phase)) as Hk.
  { intros phase Hph. unfold m. rewrite invoke_all_counters.
    - rewrite init_counters, bool_decide_true by done. cbn. eauto.
    - intros ph Hin. rewrite init_counters, bool_decide_true by done. eauto. }
  assert ("Test (Local)"%string ∈ phases) as HL by (by apply (bool_decide_unpack _)).
  assert ("Test (Global)"%string ∈ phases) as HG by (by apply (bool_decide_unpack _)).
  assert (on_test_epoch_end m
          = then_ (generate_confusion_matrix m "Test (Local)" true true) (λ self,
            then_ (generate_confusion_matrix self "Test (Global)" true true) (λ self,
            (reset_test self, Ok ())))) as Hend.
  { unfold on_test_epoch_end.
    rewrite (log_metrics_end_ok m _ HL (Hk _ HL)). cbn [then_].
    by rewrite (log_metrics_end_ok m _ HG (Hk _ HG)). }
  split_and!; [done|done| | |].
  - intros x y idx y_pred l Hf Hc. unfold test_step, step.
    destruct confusion_matrix as [c|].
    + assert (cm m = None) as E1.
      { apply eq_None_not_Some. intros Hs. by apply H1 in Hs. }
      assert (cm_global m = None) as E2.
      { apply eq_None_not_Some. intros Hs. by apply H2 in Hs. }
      case_bool_decide; rewrite Hf, Hc; unfold process_metrics, get_cm;
        cbn; by rewrite ?E1, ?E2.
    + destruct (proj2 H1 eq_refl) as [c1 E1].
      destruct (proj2 H2 eq_refl) as [c2 E2].
      case_bool_decide; rewrite Hf, Hc; unfold process_metrics, get_cm;
        cbn; by rewrite ?E1, ?E2.
  - intros Hsome. rewrite Hend.
    assert (cm m = None) as E1.
    { apply eq_None_not_Some. intros Hs. by apply H1 in Hs. }
    unfold generate_confusion_matrix, get_cm. cbn. by rewrite E1.
  - intros Hnone.
    destruct (proj2 H1 Hnone) as [c E1]. destruct (proj2 H2 Hnone) as [cg E2].
    exists c, cg. split_and!; [done|done| |].
    + rewrite Hend. unfold generate_confusion_matrix, get_cm. cbn.
      rewrite E1.
      destruct (show_confusion_matrix m "Test (Local)" c true true)
        as [[]|e]; [|done].
      cbn. rewrite E2.
      rewrite show_confusion_matrix_frame.
      by destruct (show_confusion_matrix m "Test (Global)" cg true true)
        as [[]|e].
    + intros Hlog mtx fig Hmtx Hfig. rewrite Hend.
      unfold generate_confusion_matrix, get_cm. cbn. rewrite E1.
      unfold show_confusion_matrix. rewrite Hmtx. cbn. rewrite Hfig. cbn.
      by rewrite Hlog.
Qed.

End ConfusionMatrix.

(** ** Steps of the counting model *)

Import Fixtures.

Local Existing Instance counting.

Lemma unknown_phase_witness :
  forward 3%Z = Ok 3%Z
  ∧ criterion 3%Z 5%Z = Ok 2%Q
  ∧ ("Training"%string ∉ phases)
  ∧ step (init 1 10 (1 # 1000) None None) (3, 5)%Z "Training"
    = (init 1 10 (1 # 1000) None None, Raise NotImplementedError)
  ∧ generate_confusion_matrix (init 1 10 (1 # 1000) None None) "Train" true true
    = (init 1 10 (1 # 1000) None None, Raise NotImplementedError).
Proof.
  assert ("Training"%string ∉ phases) as Hphase
    by (by apply (bool_decide_unpack _)).
  split; [reflexivity|]. split; [reflexivity|]. split; [exact Hphase|].
  destruct (@unknown_phase_is_refused counting (init 1 10 (1 # 1000) None None)
              "Training" 3%Z 5%Z 3%Z 2%Q eq_refl eq_refl)
    as (Hunknown & _ & _ & _).
  destruct (@unknown_phase_is_refused counting (init 1 10 (1 # 1000) None None)
              "Train" 3%Z 5%Z 3%Z 2%Q eq_refl eq_refl)
    as (_ & Hcm & _ & _).
  split; [exact (proj1 (proj2 (Hunknown Hphase)))|].
  by apply Hcm.
Defined.

Lemma step_feeds_witness :
  forward 3%Z = Ok 3%Z
  ∧ criterion 3%Z 5%Z = Ok 2%Q
  ∧ val_metrics (step (init 1 10 (1 # 1000) None None) (3, 5)%Z "Validation").1
    = 1%nat
  ∧ train_metrics (step (init 1 10 (1 # 1000) None None) (3, 5)%Z "Validation").1
    = 0%nat.
Proof.
  split; [reflexivity|]. split; [reflexivity|].
  destruct (@step_feeds_only_its_phase counting (init 1 10 (1 # 1000) None None)
              "Validation" 3%Z 5%Z 3%Z 2%Q eq_refl eq_refl)
    as (_ & _ & Htrain & Hval & _).
  split; [exact Hval|exact Htrain].
Defined.

(** Without a logger the end of a test epoch fails at the first figure,
    and the confusion matrix keeps what the test steps put into it. *)
Example detached_test_epoch :
  let m := @invoke_all detached false (@init detached 1 10 (1 # 1000) None None)
             [@Test_step detached (3, 5)%Z (Some 0%Z)] in
  @on_test_epoch_end detached m = (m, Raise (AttributeError "log_figure"))
  ∧ @cm detached m = Some 1%nat.
Proof. split; reflexivity. Qed.

End ModelBehaviour.

(** * The data module *)

Module DataModuleProofs.

Import DataModule.

Section Construction.

Context {torch : Torch}.

Implicit Types (a : Args) (dm : DataModule).

Lemma rbind_Return {A B} (m : result A) (k : A → result B) (b : B) :
  rbind m k = Return b → ∃ x, m = Return x ∧ k x = Return b.
Proof. destruct m; cbn; [eauto|done]. Qed.

Lemma lift_Return {A} (o : outcome A) (x : A) : lift o = Return x → o = Ok x.
Proof. destruct o; cbn; [by intros [= ->]|done]. Qed.

Lemma new_loader_Return (l l' : Loader) :
  new_loader l = Return l' → l' = l ∧ check_loader l = Ok ().
Proof.
  unfold new_loader. intros (u & Hc%lift_Return & [= <-])%rbind_Return.
  by destruct u.
Qed.

Lemma rmap_length {A B} (f : A → result B) (l : list A) (ys : list B) :
  rmap f l = Return ys → length ys = length l.
Proof.
  revert ys. induction l as [|x l IH]; intros ys; cbn [rmap].
  - by intros [= <-].
  - intros (y & _ & (ys' & Hys & [= <-])%rbind_Return)%rbind_Return.
    cbn. f_equal. by apply IH.
Qed.

Lemma eval_loader_Return a indices r :
  eval_loader a indices = Return r →
  (is_Some r ↔ ∃ idx, indices = Some idx ∧ ∃ i, i ∈ idx ∧ i ≠ 0%Z)
  ∧ ∀ loader, r = Some loader →
      ∃ idx subset, indices = Some idx
        ∧ new_changeable_subset (train_set a) idx None = Ok subset
        ∧ loader = mkLoader (inr subset) (batch_size a) false (num_workers a)
                     false None.
Proof.
  unfold eval_loader. destruct indices as [idx|].
  - destruct (np_any idx) eqn:Hany.
    + intros (subset & Hs%lift_Return & (loader & Hl & [= <-])%rbind_Return)
        %rbind_Return.
      apply new_loader_Return in Hl as [-> _].
      split.
      * split; [intros _|eauto]. exists idx. split; [done|].
        unfold np_any in Hany. apply existsb_exists in Hany as (i & Hi & Hnz).
        exists i. split; [by apply list_elem_of_In|].
        apply negb_true_iff, Z.eqb_neq in Hnz. done.
      * intros loader [= <-]. eauto.
    + intros [= <-]. split; [|done].
      split; [by intros [? ?]|].
      intros (idx' & [= <-] & i & Hi & Hnz). exfalso.
      apply not_true_iff_false in Hany. apply Hany.
      unfold np_any. apply existsb_exists. exists i.
      split; [by apply list_elem_of_In|].
      by apply negb_true_iff, Z.eqb_neq.
  - intros [= <-]. split; [|done]. split; [by intros [? ?]|].
    by intros (idx & ? & _).
Qed.

Lemma shadow_loaders_Return a dataset shuffle indices r :
  shadow_loaders a dataset shuffle indices = Return r →
  (is_Some r ↔ ∃ l, indices = Some l ∧ l ≠ [])
  ∧ ∀ loaders, r = Some loaders →
      ∃ l, indices = Some l ∧ length loaders = length l
           ∧ Forall (λ ld, dl_shuffle ld = shuffle ∧ dl_drop_last ld = false
                           ∧ dl_batch_size ld = batch_size a) loaders.
Proof.
  unfold shadow_loaders. destruct indices as [[|idx l]|].
  - intros [= <-]. split; [|done]. split; [by intros [? ?]|].
    by intros (l & [= <-] & ?).
  - intros (subsets & Hs & (loaders & Hl & [= <-])%rbind_Return)%rbind_Return.
    split; [split; [intros _; by exists (idx :: l)|eauto]|].
    intros loaders' [= <-]. exists (idx :: l). split_and!; [done| |].
    + apply rmap_length in Hs, Hl. congruence.
    + clear Hs. revert loaders Hl. generalize subsets.
      induction subsets0 as [|s ss IH]; intros loaders; cbn [rmap].
      * intros [= <-]. constructor.
      * intros (ld & Hld & (lds & Hlds & [= <-])%rbind_Return)%rbind_Return.
        unfold plain_loader in Hld. apply new_loader_Return in Hld as [-> _].
        constructor; [done|by apply IH].
  - intros [= <-]. split; [|done]. split; [by intros [? ?]|].
    by intros (l & ? & _).
Qed.

(** What a returned module was built from. *)
Lemma init_Return a dm :
  init a = Return dm →
  ∃ tr_subset data_train data_val global_te_subset local_te_subset,
    new_changeable_subset (train_set a) (train_set_indices a)
      (Some (poisoning a)) = Ok tr_subset
    ∧ (∃ size,
         train_size (subset_len tr_subset) (val_percent a) = Return size
         ∧ random_split tr_subset size (val_size (subset_len tr_subset) size)
           = Ok (data_train, data_val))
    ∧ new_changeable_subset (test_set a) (test_set_indices a) None
      = Ok global_te_subset
    ∧ new_changeable_subset (test_set a) (local_test_set_indices a) None
      = Ok local_te_subset
    ∧ (partitions_number a ≤ dataset_len (test_set a))%Z
    ∧ eval_loader a (in_eval_indices a) = Return (in_eval_loader dm)
    ∧ eval_loader a (out_eval_indices a) = Return (out_eval_loader dm)
    ∧ shadow_loaders a (train_set a) true (shadow_train_indices a)
      = Return (shadow_train_loader dm)
    ∧ shadow_loaders a (test_set a) false (shadow_test_indices a)
      = Return (shadow_test_loader dm)
    ∧ dm = mkDataModule a
        (mkLoader (inl data_train) (batch_size a) true (num_workers a) true None)
        (mkLoader (inl data_val) (batch_size a) false (num_workers a) true None)
        (mkLoader (inr local_te_subset) (batch_size a) false (num_workers a)
           true None)
        (mkLoader (inr global_te_subset) (batch_size a) false (num_workers a)
           true None)
        (in_eval_loader dm) (out_eval_loader dm)
        (shadow_train_loader dm) (shadow_test_loader dm)
        (mkLoader (inl data_train) (batch_size a) false 0 false
           (Some (mkSampler data_val false
                    (bootstrap_samples (split_len data_val))))).
Proof.
  unfold init.
  intros (tr & Htr%lift_Return & H)%rbind_Return.
  apply rbind_Return in H as (size & Hsize & H).
  apply rbind_Return in H as ([data_train data_val] & Hsplit%lift_Return & H).
  apply rbind_Return in H as (g & Hg%lift_Return & H).
  apply rbind_Return in H as (l & Hl%lift_Return & H).
  destruct (Z.ltb_spec (dataset_len (test_set a)) (partitions_number a))
    as [|Hparts]; [done|].
  apply rbind_Return in H as (l1 & [-> _]%new_loader_Return & H).
  apply rbind_Return in H as (l2 & [-> _]%new_loader_Return & H).
  apply rbind_Return in H as (l3 & [-> _]%new_loader_Return & H).
  apply rbind_Return in H as (l4 & [-> _]%new_loader_Return & H).
  apply rbind_Return in H as (e1 & He1 & H).
  apply rbind_Return in H as (e2 & He2 & H).
  apply rbind_Return in H as (s1 & Hs1 & H).
  apply rbind_Return in H as (s2 & Hs2 & H).
  apply rbind_Return in H as (rs & Hrs & H).
  apply rbind_Return in H as (bl & [-> _]%new_loader_Return & [= <-]).
  unfold new_sampler in Hrs.
  apply rbind_Return in Hrs as (u & _ & [= <-]).
  exists tr, data_train, data_val, g, l. split_and!; try done. eauto.
Qed.

(** X17.  With fewer test rows than partitions the constructor never
    returns a module: once the training subset, its split and the two
    test subsets are built, [raise] of a string is what fails, with a
    TypeError instead of the message, before any loader is made. *)
Theorem too_many_partitions_is_refused a :
  (dataset_len (test_set a) < partitions_number a)%Z →
  (∀ dm, init a ≠ Return dm)
  ∧ ∀ tr_subset size parts global_te_subset local_te_subset,
      new_changeable_subset (train_set a) (train_set_indices a)
        (Some (poisoning a)) = Ok tr_subset →
      train_size (subset_len tr_subset) (val_percent a) = Return size →
      random_split tr_subset size (val_size (subset_len tr_subset) size)
      = Ok parts →
      new_changeable_subset (test_set a) (test_set_indices a) None
        = Ok global_te_subset →
      new_changeable_subset (test_set a) (local_test_set_indices a) None
        = Ok local_te_subset →
      init a = Raised (TypeError "exceptions must derive from BaseException").
Proof.
  intros Hlt. split.
  - intros dm (? & ? & ? & ? & ? & _ & _ & _ & _ & Hle & _)%init_Return. lia.
  - intros tr size [data_train data_val] g l Htr Hsize Hsplit Hg Hl.
    unfold init. rewrite Htr. cbn [lift rbind]. rewrite Hsize. cbn [rbind].
    rewrite Hsplit.
    cbn [lift rbind]. rewrite Hg, Hl. cbn [lift rbind].
    by apply Z.ltb_lt in Hlt as ->.
Qed.

(** X18.  In a constructed module the two evaluation loaders exist
    exactly when their index array was given and holds an index other
    than 0; the two lists of shadow loaders exist exactly when a non-empty
    list of index lists was given, and then hold one loader per index
    list, shuffled for the training shadows only. *)
Theorem optional_loaders a dm :
  init a = Return dm →
  (is_Some (in_eval_loader dm)
   ↔ ∃ idx, in_eval_indices a = Some idx ∧ ∃ i, i ∈ idx ∧ i ≠ 0%Z)
  ∧ (is_Some (out_eval_loader dm)
     ↔ ∃ idx, out_eval_indices a = Some idx ∧ ∃ i, i ∈ idx ∧ i ≠ 0%Z)
  ∧ (is_Some (shadow_train_loader dm)
     ↔ ∃ l, shadow_train_indices a = Some l ∧ l ≠ [])
  ∧ (is_Some (shadow_test_loader dm)
     ↔ ∃ l, shadow_test_indices a = Some l ∧ l ≠ [])
  ∧ (∀ loaders, shadow_train_loader dm = Some loaders →
       ∃ l, shadow_train_indices a = Some l ∧ length loaders = length l
            ∧ Forall (λ ld, dl_shuffle ld = true) loaders)
  ∧ (∀ loaders, shadow_test_loader dm = Some loaders →
       ∃ l, shadow_test_indices a = Some l ∧ length loaders = length l
            ∧ Forall (λ ld, dl_shuffle ld = false) loaders).
Proof.
  intros (? & ? & ? & ? & ? & _ & _ & _ & _ & _ & Hin & Hout & Htr & Hte & _)
    %init_Return.
  apply eval_loader_Return in Hin as [Hin _], Hout as [Hout _].
  apply shadow_loaders_Return in Htr as [Htr Htr'], Hte as [Hte Hte'].
  split_and!; try done.
  - intros loaders (l & ? & ? & Hall)%Htr'. exists l. split_and!; [done..|].
    eapply Forall_impl; [exact Hall|]. by intros ? [? _].
  - intros loaders (l & ? & ? & Hall)%Hte'. exists l. split_and!; [done..|].
    eapply Forall_impl; [exact Hall|]. by intros ? [? _].
Qed.

(** X19.  In a constructed module the training loader and the bootstrap
    loader both read the training part of the split and the validation
    loader reads the validation part, whose sizes are the training size
    that [round] gives and the rest of the rows;
    the bootstrap loader draws positions from a sampler over the
    validation part, without replacement and with at least 300 samples,
    it is not shuffled and keeps the last batch, while the four main
    loaders drop it and only the training loader shuffles;
    [test_dataloader] lists the local test loader first and the global one
    second. *)
Theorem loaders_wiring a dm :
  init a = Return dm →
  ∃ tr_subset size data_train data_val global_te_subset local_te_subset sampler,
    new_changeable_subset (train_set a) (train_set_indices a)
      (Some (poisoning a)) = Ok tr_subset
    ∧ train_size (subset_len tr_subset) (val_percent a) = Return size
    ∧ random_split tr_subset size (val_size (subset_len tr_subset) size)
      = Ok (data_train, data_val)
    ∧ new_changeable_subset (test_set a) (test_set_indices a) None
      = Ok global_te_subset
    ∧ new_changeable_subset (test_set a) (local_test_set_indices a) None
      = Ok local_te_subset
    ∧ dl_dataset (train_dataloader dm) = inl data_train
    ∧ dl_dataset (bootstrap_dataloader dm) = inl data_train
    ∧ dl_dataset (val_dataloader dm) = inl data_val
    ∧ (dl_dataset <$> test_dataloader dm)
      = [inr local_te_subset; inr global_te_subset]
    ∧ dl_sampler (bootstrap_dataloader dm) = Some sampler
    ∧ rs_data_source sampler = data_val
    ∧ rs_replacement sampler = false
    ∧ (300 ≤ rs_num_samples sampler)%Z
    ∧ (split_len data_val `quot` 3 ≤ rs_num_samples sampler)%Z
    ∧ dl_shuffle (bootstrap_dataloader dm) = false
    ∧ dl_drop_last (bootstrap_dataloader dm) = false
    ∧ (dl_shuffle <$> train_dataloader dm :: val_dataloader dm
                      :: test_dataloader dm) = [true; false; false; false]
    ∧ (dl_drop_last <$> train_dataloader dm :: val_dataloader dm
                        :: test_dataloader dm) = [true; true; true; true]
    ∧ Forall (λ ld, dl_batch_size ld = batch_size a ∧ dl_sampler ld = None)
        (train_dataloader dm :: val_dataloader dm :: test_dataloader dm).
Proof.
  intros (tr & data_train & data_val & g & l & Htr & (size & Hsize & Hsplit)
          & Hg & Hl & _ & _ & _ & _ & _ & ->)%init_Return.
  exists tr, size, data_train, data_val, g, l,
    (mkSampler data_val false (bootstrap_samples (split_len data_val))).
  cbn. unfold bootstrap_samples.
  split_and!; try done; try lia.
  by repeat constructor.
Qed.

End Construction.

(** ** A partition of ten rows *)

Import Fixtures.

Local Existing Instance in_order.

(** Ten rows and a validation share of 0.1: nine and one.  Forty-five
    rows and a share of 0.3: the binary64 product is just below 31.5, so
    the training size is 31, where the exact product 31.5 would give 32. *)
Lemma ten_rows_split : train_size 10 tenth = Return 9%Z.
Proof. reflexivity. Qed.

Example forty_five_rows_split :
  train_size 45 three_tenths = Return 31%Z
  ∧ val_size 45 31 = 14%Z
  ∧ py_round (inject_Z 45 * (1 - (3 # 10))) = 32%Z.
Proof. split_and!; reflexivity. Qed.

(** Four test rows for five partitions. *)
Lemma too_many_partitions_witness :
  (dataset_len (test_set (partition 5)) < partitions_number (partition 5))%Z
  ∧ init (partition 5)
    = Raised (TypeError "exceptions must derive from BaseException").
Proof.
  assert (dataset_len (test_set (partition 5)) < partitions_number (partition 5))%Z
    as Hlt by done.
  split; [exact Hlt|].
  destruct (too_many_partitions_is_refused (partition 5) Hlt) as [_ Hraise].
  by eapply Hraise.
Defined.

Lemma partition_built : ∃ dm, init (partition 2) = Return dm.
Proof. eexists. reflexivity. Qed.

(** The [in] evaluation indices hold index 0 only: no loader; one shadow
    loader per index list; an empty list of shadow test indices: none. *)
Lemma optional_loaders_witness :
  ∃ dm, init (partition 2) = Return dm
    ∧ in_eval_loader dm = None
    ∧ is_Some (out_eval_loader dm)
    ∧ (length <$> shadow_train_loader dm) = Some 2%nat
    ∧ shadow_test_loader dm = None.
Proof.
  destruct partition_built as [dm Hdm]. exists dm. split; [exact Hdm|].
  destruct (optional_loaders (partition 2) dm Hdm)
    as (Hin & Hout & Htr & Hte & Hlen & _).
  split_and!.
  - apply eq_None_not_Some. intros (idx & Hidx & i & Hi & Hnz)%Hin.
    change (Some [0%Z] = Some idx) in Hidx. injection Hidx as <-.
    apply list_elem_of_singleton in Hi. by apply Hnz.
  - apply Hout. exists [0; 3]%Z. split; [reflexivity|]. exists 3%Z.
    split; [|discriminate]. right. left.
  - assert (is_Some (shadow_train_loader dm)) as [loaders Hl].
    { apply Htr. exists [[1; 2]; [3]]%Z. split; [reflexivity|discriminate]. }
    rewrite Hl. cbn [fmap option_fmap option_map].
    destruct (Hlen loaders Hl) as (l & Hidx & Hlen' & _).
    change (Some [[1; 2]; [3]]%Z = Some l) in Hidx. injection Hidx as <-.
    by rewrite Hlen'.
  - apply eq_None_not_Some. intros (l & Hidx & Hne)%Hte.
    change (Some [] = Some l) in Hidx. injection Hidx as <-. by apply Hne.
Defined.

Lemma loaders_wiring_witness :
  ∃ dm, init (partition 2) = Return dm
    ∧ dl_dataset (train_dataloader dm) = inl [0; 1; 2; 3; 4; 5; 6; 7; 8]%Z
    ∧ dl_dataset (val_dataloader dm) = inl [9%Z]
    ∧ (dl_dataset <$> test_dataloader dm) = [inr [0; 1]%Z; inr [0; 1; 2; 3]%Z]
    ∧ ∃ sampler, dl_sampler (bootstrap_dataloader dm) = Some sampler
                 ∧ (300 ≤ rs_num_samples sampler)%Z.
Proof.
  destruct partition_built as [dm Hdm]. exists dm. split; [exact Hdm|].
  destruct (loaders_wiring (partition 2) dm Hdm)
    as (tr & size & data_train & data_val & g & l & sampler & Htr & Hsize
        & Hsplit & Hg & Hl
        & Htrain & _ & Hval & Htest & Hsampler & _ & _ & Hsamples & _).
  injection Htr as <-. injection Hg as <-. injection Hl as <-.
  change (train_size 10 tenth = Return size) in Hsize.
  rewrite ten_rows_split in Hsize. injection Hsize as <-.
  injection Hsplit as <- <-.
  split_and!; [exact Htrain|exact Hval|exact Htest|].
  exists sampler. by split.
Defined.

End DataModuleProofs.
